(** * freePDF: page-range expressions, coordinate transforms, crop editor
    and the worker coordinator

  A shallow embedding of the core of the freePDF front end
  ([core/range.ts], [core/coords.ts], [core/workerManager.ts],
  [workers/render.worker.ts], [components/CropOverlay.tsx] and the
  [CanvasViewer] component) together with the properties its
  specification states about them.

  Modelling conventions.
  - A JavaScript string is a [string]: every [ascii] is one UTF-16 code
    unit below 256.  Within that range the white space removed by
    [String.prototype.trim] and skipped by [parseInt] is TAB, LF, VT, FF,
    CR, SPACE and NBSP.
  - Page numbers are integers ([Z]), standing for JavaScript numbers in
    the range where integer arithmetic is exact, that is below 2^53: the
    properties of the page-range functions carry that bound.  [parseInt]
    returns [None] for NaN.
  - Pixel and point coordinates are exact rationals ([Q]), compared with
    [==]: rounding of IEEE doubles, infinities and NaN are outside that
    model, and its properties are properties of the exact computation.
  - The modules [Binary64], [Coords64], [CropOverlay64] and [Range64]
    repeat the functions concerned on binary64 floats, with the
    arithmetic of the code: what is evaluated or proved there holds of
    the rounded results.
  - The rendering primitives of pdf.js and the behaviour of the worker
    transport are parameters of the coordinator model. *)

From Stdlib Require Import ZArith QArith Qabs Qminmax Lia Lqa Bool List.
From Stdlib Require Import Ascii String DecimalString DecimalZ DecimalN DecimalPos.
From Stdlib Require Import Sorting.Sorted Permutation.
From Stdlib Require Import Qround Floats.
Import ListNotations.

Local Open Scope Z_scope.

(* ================================================================== *)
(** * JavaScript string primitives used by [range.ts] *)
(* ================================================================== *)

Module JsString.

Local Open Scope string_scope.

(** White space in the sense of [trim] (code units below 256). *)
Definition is_ws (c : ascii) : bool :=
  let n := N_of_ascii c in
  ((9 <=? n) && (n <=? 13) || (n =? 32) || (n =? 160))%N.

Definition is_digit (c : ascii) : bool :=
  let n := N_of_ascii c in ((48 <=? n) && (n <=? 57))%N.

Definition digit_val (c : ascii) : Z := Z.of_N (N_of_ascii c) - 48.

Fixpoint trimStart (s : string) : string :=
  match s with
  | String c s' => if is_ws c then trimStart s' else s
  | EmptyString => EmptyString
  end.

Fixpoint trimEnd (s : string) : string :=
  match s with
  | EmptyString => EmptyString
  | String c s' =>
      match trimEnd s' with
      | EmptyString => if is_ws c then EmptyString else String c EmptyString
      | t => String c t
      end
  end.

(** [s.trim()] *)
Definition trim (s : string) : string := trimEnd (trimStart s).

(** Truthiness of a string: only the empty string is falsy. *)
Definition truthy (s : string) : bool :=
  match s with EmptyString => false | _ => true end.

(** [s.includes(c)] for a one-character needle. *)
Fixpoint includes (c : ascii) (s : string) : bool :=
  match s with
  | EmptyString => false
  | String d s' => Ascii.eqb d c || includes c s'
  end.

(** [s.split(c)] for a one-character separator; the empty string splits
    into one empty piece. *)
Fixpoint split (sep : ascii) (s : string) : list string :=
  match s with
  | EmptyString => [EmptyString]
  | String c s' =>
      if Ascii.eqb c sep then EmptyString :: split sep s'
      else match split sep s' with
           | h :: t => String c h :: t
           | [] => [String c EmptyString]
           end
  end.

(** [pieces.join(sep)] *)
Fixpoint join (sep : string) (l : list string) : string :=
  match l with
  | [] => EmptyString
  | [s] => s
  | s :: rest => s ++ sep ++ join sep rest
  end.

(** The longest prefix of decimal digits, read left to right;
    [None] when there is no digit at all. *)
Fixpoint parse_digits (s : string) (acc : option Z) : option Z :=
  match s with
  | String c s' =>
      if is_digit c
      then parse_digits s' (Some (10 * match acc with Some a => a | None => 0 end
                                  + digit_val c))
      else acc
  | EmptyString => acc
  end.

(** [parseInt(s, 10)]: leading white space is skipped, one sign is
    accepted, then the longest digit prefix is read; [None] is NaN. *)
Definition parseInt (s : string) : option Z :=
  match trimStart s with
  | String "-" r => option_map Z.opp (parse_digits r None)
  | String "+" r => parse_digits r None
  | r => parse_digits r None
  end.

(** [n.toString()] for an integer [n]: plain decimal digits, which is
    what JavaScript prints for integers of magnitude up to 2^53 (beyond,
    it prints the shortest digits that identify the double and, from
    10^21 on, an exponent). *)
Definition toString (n : Z) : string := NilZero.string_of_int (Z.to_int n).

End JsString.

(* ================================================================== *)
(** * [core/range.ts]: page-range expressions *)
(* ================================================================== *)

Module Range.
Import JsString.

(** A [Set<number>] in insertion order. *)
Definition NumSet := list Z.

Definition set_has (x : Z) (s : NumSet) : bool := existsb (Z.eqb x) s.

(** [result.add(x)] *)
Definition set_add (x : Z) (s : NumSet) : NumSet :=
  if set_has x s then s else (s ++ [x])%list.

(** The values taken by [i] in [for (let i = lo; i <= hi; i++)], for
    [hi] below 2^53, where [i++] is exact. *)
Definition loop_range (lo hi : Z) : list Z :=
  map (fun k => lo + Z.of_nat k) (seq 0 (Z.to_nat (hi - lo + 1))).

Definition add_range (lo hi : Z) (s : NumSet) : NumSet :=
  fold_left (fun acc i => set_add i acc) (loop_range lo hi) s.

(** [xs.sort((a, b) => a - b)] *)
Fixpoint insert_sorted (x : Z) (l : list Z) : list Z :=
  match l with
  | [] => [x]
  | y :: l' => if x <=? y then x :: l else y :: insert_sorted x l'
  end.

Definition sort_num (l : list Z) : list Z := fold_right insert_sorted [] l.

(** One side of a range term: an absent or empty side takes the default. *)
Definition side (o : option string) (default : Z) : option Z :=
  match o with
  | Some s => if truthy s then parseInt s else Some default
  | None => Some default
  end.

(** The body of the loop over [parts]. *)
Definition process_part (maxPage : Z) (result : NumSet) (part : string) : NumSet :=
  if includes "-" part then
    let sides := map trim (split "-" part) in
    match side (nth_error sides 0) 1, side (nth_error sides 1) maxPage with
    | Some start, Some end_ =>
        add_range (Z.max 1 start) (Z.min maxPage end_) result
    | _, _ => result
    end
  else
    match parseInt part with
    | Some page =>
        if (1 <=? page) && (page <=? maxPage) then set_add page result else result
    | None => result
    end.

Definition parts_of (expr : string) : list string :=
  filter truthy (map trim (split "," expr)).

Definition parsePageExpr (expr : string) (maxPage : Z) : list Z :=
  if negb (truthy (trim expr)) then []
  else sort_num (fold_left (process_part maxPage) (parts_of expr) []).

Definition pages1ToIndices0 (pages1 : list Z) : list Z := map (fun p => p - 1) pages1.
Definition indices0ToPages1 (indices : list Z) : list Z := map (fun i => i + 1) indices.

(** One finished run [start..end] as [formatPageRange] prints it. *)
Definition fmt_run (start end_ : Z) : string :=
  if start =? end_ then toString start
  else if end_ =? start + 1 then (toString start ++ "," ++ toString end_)%string
  else (toString start ++ "-" ++ toString end_)%string.

(** The loop state of [formatPageRange]: [ranges], [start], [end]. *)
Definition fmt_step (st : list string * Z * Z) (x : Z) : list string * Z * Z :=
  let '(ranges, start, end_) := st in
  if x =? end_ + 1 then (ranges, start, x)
  else ((ranges ++ [fmt_run start end_])%list, x, x).

Definition formatPageRange (pages : list Z) : string :=
  match sort_num pages with
  | [] => EmptyString
  | p0 :: rest =>
      let '(ranges, start, end_) := fold_left fmt_step rest ([], p0, p0) in
      join "," (ranges ++ [fmt_run start end_])%list
  end.

End Range.


(* ================================================================== *)
(** * [core/types.ts] and [core/coords.ts]: rectangles and viewports *)
(* ================================================================== *)

Module Coords.

Local Open Scope Q_scope.

(** [a < b] on numbers, as a test. *)
Definition Qltb (a b : Q) : bool := negb (Qle_bool b a).

Record PdfRect := mkPdfRect
  { pr_x : Q; pr_y : Q; pr_width : Q; pr_height : Q }.

Inductive Rotation := Rot0 | Rot90 | Rot180 | Rot270.

Record PdfPageMeta := mkPdfPageMeta
  { pm_index : Z;
    pm_width : Q;
    pm_height : Q;
    pm_rotation : Rotation;
    pm_cropBox : option PdfRect;
    pm_mediaBox : PdfRect }.

Record CropDraft := mkCropDraft { cd_page : Z; cd_rect : PdfRect }.

Record CanvasRect := mkCanvasRect
  { cr_x : Q; cr_y : Q; cr_w : Q; cr_h : Q }.

Record ViewportInfo := mkViewportInfo
  { vp_width : Q; vp_height : Q; vp_scale : Q; vp_offsetX : Q; vp_offsetY : Q }.

(** [page.cropBox ?? page.mediaBox] *)
Definition baseBox (page : PdfPageMeta) : PdfRect :=
  match pm_cropBox page with
  | Some box => box
  | None => pm_mediaBox page
  end.

Definition canvasRectToPdfRect
  (rectCanvas : CanvasRect) (page : PdfPageMeta) (viewport : ViewportInfo) : PdfRect :=
  let base := baseBox page in
  let scaleX := pr_width base / vp_width viewport in
  let scaleY := pr_height base / vp_height viewport in
  let relativeX := cr_x rectCanvas in
  let relativeY := cr_y rectCanvas in
  let width := cr_w rectCanvas * scaleX in
  let height := cr_h rectCanvas * scaleY in
  let x := pr_x base + relativeX * scaleX in
  let y := pr_y base + (pr_height base - (relativeY + cr_h rectCanvas) * scaleY) in
  {| pr_x := x; pr_y := y; pr_width := width; pr_height := height |}.

Definition pdfRectToCanvasRect
  (rectPdf : PdfRect) (page : PdfPageMeta) (viewport : ViewportInfo) : CanvasRect :=
  let base := baseBox page in
  let scaleX := vp_width viewport / pr_width base in
  let scaleY := vp_height viewport / pr_height base in
  let width := pr_width rectPdf * scaleX in
  let height := pr_height rectPdf * scaleY in
  let x := (pr_x rectPdf - pr_x base) * scaleX in
  let y := (pr_height base - (pr_y rectPdf - pr_y base) - pr_height rectPdf) * scaleY in
  {| cr_x := x; cr_y := y; cr_w := width; cr_h := height |}.

Definition normalizeRect (rect : CanvasRect) : CanvasRect :=
  {| cr_x := if Qltb (cr_w rect) 0 then cr_x rect + cr_w rect else cr_x rect;
     cr_y := if Qltb (cr_h rect) 0 then cr_y rect + cr_h rect else cr_y rect;
     cr_w := Qabs (cr_w rect);
     cr_h := Qabs (cr_h rect) |}.

(** The default of the optional [padding] argument. *)
Definition default_padding : Q := 20.

Definition calculateViewport
  (page : PdfPageMeta) (containerWidth containerHeight : Q) (padding : option Q)
  : ViewportInfo :=
  let padding := match padding with Some p => p | None => default_padding end in
  let availableWidth := containerWidth - padding * 2 in
  let availableHeight := containerHeight - padding * 2 in
  let scaleX := availableWidth / pm_width page in
  let scaleY := availableHeight / pm_height page in
  let scale := Qmin (Qmin scaleX scaleY) 2 in
  let width := pm_width page * scale in
  let height := pm_height page * scale in
  let offsetX := (containerWidth - width) / 2 in
  let offsetY := (containerHeight - height) / 2 in
  {| vp_width := width; vp_height := height; vp_scale := scale;
     vp_offsetX := offsetX; vp_offsetY := offsetY |}.

Definition pointInRect (x y : Q) (rect : CanvasRect) : bool :=
  Qle_bool (cr_x rect) x && Qle_bool x (cr_x rect + cr_w rect) &&
  Qle_bool (cr_y rect) y && Qle_bool y (cr_y rect + cr_h rect).

Definition dpiToScale (dpi : Q) : Q := dpi / 72.

(** Field-wise equality of rectangles up to equality of fractions. *)
Definition PdfRect_eq (a b : PdfRect) : Prop :=
  pr_x a == pr_x b /\ pr_y a == pr_y b /\
  pr_width a == pr_width b /\ pr_height a == pr_height b.

Definition CanvasRect_eq (a b : CanvasRect) : Prop :=
  cr_x a == cr_x b /\ cr_y a == cr_y b /\ cr_w a == cr_w b /\ cr_h a == cr_h b.

(** [a] is within relative tolerance [tol] of [b]. *)
Definition within_tol (tol a b : Q) : Prop :=
  Qabs (a - b) <= tol * Qmax (Qabs a) (Qabs b).

Definition PdfRect_close (tol : Q) (a b : PdfRect) : Prop :=
  within_tol tol (pr_x a) (pr_x b) /\ within_tol tol (pr_y a) (pr_y b) /\
  within_tol tol (pr_width a) (pr_width b) /\
  within_tol tol (pr_height a) (pr_height b).

Definition CanvasRect_close (tol : Q) (a b : CanvasRect) : Prop :=
  within_tol tol (cr_x a) (cr_x b) /\ within_tol tol (cr_y a) (cr_y b) /\
  within_tol tol (cr_w a) (cr_w b) /\ within_tol tol (cr_h a) (cr_h b).

(** A PDF rectangle lying fully inside a box. *)
Definition pdf_inside (r box : PdfRect) : Prop :=
  0 <= pr_width r /\ 0 <= pr_height r /\
  pr_x box <= pr_x r /\ pr_x r + pr_width r <= pr_x box + pr_width box /\
  pr_y box <= pr_y r /\ pr_y r + pr_height r <= pr_y box + pr_height box.

(** A canvas rectangle lying fully inside the viewport. *)
Definition canvas_inside (r : CanvasRect) (viewport : ViewportInfo) : Prop :=
  0 <= cr_w r /\ 0 <= cr_h r /\
  0 <= cr_x r /\ cr_x r + cr_w r <= vp_width viewport /\
  0 <= cr_y r /\ cr_y r + cr_h r <= vp_height viewport.

End Coords.

(* ================================================================== *)
(** * [components/CropOverlay.tsx]: resizing and moving the crop box *)
(* ================================================================== *)

Module CropOverlay.
Import Coords.
Local Open Scope Q_scope.

Inductive ResizeHandle :=
  | h_nw | h_n | h_ne | h_e | h_se | h_s | h_sw | h_w | h_move.

Record CropOverlayProps := mkProps
  { cropRect : PdfRect; page : PdfPageMeta; viewport : ViewportInfo }.

(** [dragStart]: pointer position and canvas rectangle at mouse-down. *)
Record DragStart := mkDragStart { ds_x : Q; ds_y : Q; ds_rect : CanvasRect }.

Record State := mkState
  { isDragging : bool;
    dragHandle : option ResizeHandle;
    dragStart : option DragStart }.

Record MouseEvent := mkMouseEvent { clientX : Q; clientY : Q }.

Definition initial : State :=
  {| isDragging := false; dragHandle := None; dragStart := None |}.

Definition handleMouseDown
  (props : CropOverlayProps) (e : MouseEvent) (handle : ResizeHandle) : State :=
  let canvasRect := pdfRectToCanvasRect (cropRect props) (page props) (viewport props) in
  {| isDragging := true;
     dragHandle := Some handle;
     dragStart := Some {| ds_x := clientX e; ds_y := clientY e; ds_rect := canvasRect |} |}.

(** The [switch (dragHandle)] of [handleMouseMove]. *)
Definition applyHandle
  (handle : ResizeHandle) (deltaX deltaY : Q) (r : CanvasRect) : CanvasRect :=
  let '(mkCanvasRect x y w h) := r in
  match handle with
  | h_nw => mkCanvasRect (x + deltaX) (y + deltaY) (w - deltaX) (h - deltaY)
  | h_n => mkCanvasRect x (y + deltaY) w (h - deltaY)
  | h_ne => mkCanvasRect x (y + deltaY) (w + deltaX) (h - deltaY)
  | h_e => mkCanvasRect x y (w + deltaX) h
  | h_se => mkCanvasRect x y (w + deltaX) (h + deltaY)
  | h_s => mkCanvasRect x y w (h + deltaY)
  | h_sw => mkCanvasRect (x + deltaX) y (w - deltaX) (h + deltaY)
  | h_w => mkCanvasRect (x + deltaX) y (w - deltaX) h
  | h_move => mkCanvasRect (x + deltaX) (y + deltaY) w h
  end.

(** The four clamping assignments, in source order: [w] and [h] read the
    already clamped [x] and [y]. *)
Definition clampToViewport (viewport : ViewportInfo) (r : CanvasRect) : CanvasRect :=
  let x := Qmax 0 (Qmin (cr_x r) (vp_width viewport - 10)) in
  let y := Qmax 0 (Qmin (cr_y r) (vp_height viewport - 10)) in
  let w := Qmax 10 (Qmin (cr_w r) (vp_width viewport - x)) in
  let h := Qmax 10 (Qmin (cr_h r) (vp_height viewport - y)) in
  mkCanvasRect x y w h.

(** The canvas rectangle [newRect] that [handleMouseMove] converts and
    publishes; [None] when the handler returns early. *)
Definition adjustedRect
  (props : CropOverlayProps) (st : State) (e : MouseEvent) : option CanvasRect :=
  if negb (isDragging st) then None
  else match dragStart st, dragHandle st with
       | Some start, Some handle =>
           let deltaX := clientX e - ds_x start in
           let deltaY := clientY e - ds_y start in
           Some (clampToViewport (viewport props)
                   (applyHandle handle deltaX deltaY (ds_rect start)))
       | _, _ => None
       end.

(** [handleMouseMove]: the argument passed to [onUpdate], if it is called. *)
Definition handleMouseMove
  (props : CropOverlayProps) (st : State) (e : MouseEvent) : option PdfRect :=
  option_map (fun newRect => canvasRectToPdfRect newRect (page props) (viewport props))
             (adjustedRect props st e).

Definition handleMouseUp (st : State) : State := initial.

End CropOverlay.

(* ================================================================== *)
(** * [components/CanvasViewer.tsx]: dragging out a new crop box *)
(* ================================================================== *)

Module CanvasViewer.
Import Coords.
Local Open Scope Q_scope.

(** What the handlers read from their surroundings: the canvas element's
    bounding rectangle ([None] when [canvasRef.current] is null), the
    computed viewport, the current page and its metadata. *)
Record Env := mkEnv
  { canvas : option (Q * Q);
    viewport : option ViewportInfo;
    page : option PdfPageMeta;
    currentPage : option Z }.

(** Component state together with the store's [cropDraft]. *)
Record State := mkState
  { isDragging : bool;
    dragStart : option (Q * Q);
    dragRect : option CanvasRect;
    cropDraft : option CropDraft }.

Record MouseEvent := mkMouseEvent { clientX : Q; clientY : Q }.

Definition setCropDraft (draft : option CropDraft) (st : State) : State :=
  {| isDragging := isDragging st; dragStart := dragStart st;
     dragRect := dragRect st; cropDraft := draft |}.

Definition clearCropDraft (st : State) : State := setCropDraft None st.

Definition handleMouseDown (env : Env) (st : State) (e : MouseEvent) : State :=
  match canvas env, viewport env with
  | Some (rleft, rtop), Some _ =>
      let x := clientX e - rleft in
      let y := clientY e - rtop in
      clearCropDraft
        {| isDragging := true;
           dragStart := Some (x, y);
           dragRect := Some (mkCanvasRect x y 0 0);
           cropDraft := cropDraft st |}
  | _, _ => st
  end.

Definition handleMouseMove (env : Env) (st : State) (e : MouseEvent) : State :=
  if negb (isDragging st) then st
  else match dragStart st, canvas env with
       | Some (sx, sy), Some (rleft, rtop) =>
           let x := clientX e - rleft in
           let y := clientY e - rtop in
           {| isDragging := isDragging st;
              dragStart := dragStart st;
              dragRect := Some (mkCanvasRect sx sy (x - sx) (y - sy));
              cropDraft := cropDraft st |}
       | _, _ => st
       end.

Definition handleMouseUp (env : Env) (st : State) : State :=
  if negb (isDragging st) then st
  else match dragRect st, page env, viewport env, currentPage env with
       | Some rect, Some pg, Some vp, Some cur =>
           let normalizedRect := normalizeRect rect in
           if Qltb (cr_w normalizedRect) 10 || Qltb (cr_h normalizedRect) 10 then
             {| isDragging := false; dragStart := None; dragRect := None;
                cropDraft := cropDraft st |}
           else
             let pdfRect := canvasRectToPdfRect normalizedRect pg vp in
             {| isDragging := false; dragStart := None; dragRect := None;
                cropDraft := Some {| cd_page := cur; cd_rect := pdfRect |} |}
       | _, _, _, _ => st
       end.

(** A drag gesture: mouse-down, any number of moves, mouse-up. *)
Definition drag
  (env : Env) (st : State) (down : MouseEvent) (moves : list MouseEvent) : State :=
  handleMouseUp env (fold_left (handleMouseMove env) moves (handleMouseDown env st down)).

End CanvasViewer.

(* ================================================================== *)
(** * [workers/render.worker.ts] and [core/workerManager.ts] *)
(* ================================================================== *)

Module Worker.

Definition ArrayBuffer := list Byte.byte.

(** [cloneForPdf]: a fresh copy with the same bytes. *)
Definition cloneForPdf (buffer : ArrayBuffer) : ArrayBuffer := buffer.

(** Why a promise was rejected. *)
Inductive Error :=
  | WORKER_UNAVAILABLE
  | WorkerCreationFailed
  | PostMessageFailed
  | WorkerTimeout
  | WorkerCleanedUp
  | WorkerReported (msg : string)
  | RenderFailed (msg : string).

(** A settled promise. *)
Inductive Result (A : Type) :=
  | Ok (a : A)
  | Err (e : Error).
Arguments Ok {A} a.
Arguments Err {A} e.

Definition result_map {A B} (f : A -> B) (r : Result A) : Result B :=
  match r with Ok a => Ok (f a) | Err e => Err e end.

Inductive TaskType := thumbnail | canvas | export.
Inductive Format := png | jpeg | svg.

Record RenderTask := mkRenderTask
  { task_id : string;
    task_type : TaskType;
    task_page : Z;
    task_scale : Q;
    task_format : option Format;
    task_quality : option Q }.

(** The [format] argument of [renderPage]. *)
Inductive RenderFormat := as_bitmap | as_svg.

Definition is_svg (f : option Format) : bool :=
  match f with Some svg => true | _ => false end.

Definition is_export (t : TaskType) : bool :=
  match t with export => true | _ => false end.

Section Model.

Variable Bitmap : Type.

(** The pdf.js rendering primitives available on one thread. *)
Record Engine := mkEngine
  { toBitmap : ArrayBuffer -> Z -> Q -> Result Bitmap;
    toSVG : ArrayBuffer -> Z -> Q -> Result string;
    numPages : ArrayBuffer -> Result Z }.

Inductive Output :=
  | ImageBitmap (b : Bitmap)
  | SvgText (s : string).

(** The [data] of a response, or the value a call resolves to. *)
Inductive Data :=
  | Rendered (o : Output)
  | Exported (results : list Output)
  | Loaded (pageCount : Z) (loaded : bool).

(** [type] and [payload] of a [WorkerMessage]. *)
Inductive WorkerMessage :=
  | MsgRender (arrayBuffer : ArrayBuffer) (pageIndex : Z) (scale : Q) (format : RenderFormat)
  | MsgExport (arrayBuffer : ArrayBuffer) (tasks : list RenderTask)
  | MsgLoad (arrayBuffer : ArrayBuffer).

(** ** The worker side *)

Definition render_as (E : Engine) (buffer : ArrayBuffer) (pageIndex : Z) (scale : Q)
  (svgWanted : bool) : Result Output :=
  if svgWanted then result_map SvgText (toSVG E buffer pageIndex scale)
  else result_map ImageBitmap (toBitmap E buffer pageIndex scale).

(** The loop of [renderMultiplePages]: results are pushed in task order and
    the first failing task rejects the whole batch. *)
Fixpoint renderMultiplePages_loop (wk : Engine) (arrayBuffer : ArrayBuffer)
  (tasks : list RenderTask) (results : list Output) : Result (list Output) :=
  match tasks with
  | [] => Ok results
  | task :: rest =>
      match render_as wk arrayBuffer (task_page task) (task_scale task)
              (is_export (task_type task) && is_svg (task_format task)) with
      | Ok result => renderMultiplePages_loop wk arrayBuffer rest (results ++ [result])
      | Err e => Err e
      end
  end.

Definition renderMultiplePages (wk : Engine) (arrayBuffer : ArrayBuffer)
  (tasks : list RenderTask) : Result (list Output) :=
  renderMultiplePages_loop wk arrayBuffer tasks [].

(** [self.onmessage]: the response posted for a message ([Err] is a
    response with [success: false]). *)
Definition onmessage (wk : Engine) (msg : WorkerMessage) : Result Data :=
  match msg with
  | MsgRender arrayBuffer pageIndex scale format =>
      result_map Rendered
        (render_as wk arrayBuffer pageIndex scale
           match format with as_svg => true | as_bitmap => false end)
  | MsgExport arrayBuffer tasks =>
      result_map Exported (renderMultiplePages wk arrayBuffer tasks)
  | MsgLoad arrayBuffer =>
      result_map (fun n => Loaded n true) (numPages wk arrayBuffer)
  end.

(** ** The manager *)

Record WorkerManager := mkWorkerManager
  { worker : bool;                 (* [this.worker !== null] *)
    messageId : nat;
    pendingMessages : list nat;    (* keys of the pending map *)
    workerSupported : bool;
    workerFailed : bool }.

Definition create (supportsOffscreenCanvas : bool) : WorkerManager :=
  {| worker := false; messageId := 0; pendingMessages := [];
     workerSupported := supportsOffscreenCanvas; workerFailed := false |}.

(** What the platform does with one attempt to use the worker: whether
    [new Worker] succeeds when a worker has to be created, and what becomes
    of the posted message. *)
Inductive Delivery :=
  | PostThrows      (* [postMessage] throws *)
  | TimesOut        (* no response before the timer fires *)
  | WorkerErrors    (* [onerror] fires and runs [cleanup] *)
  | Replies.        (* the worker handles the message and answers *)

Record Transport := mkTransport { creates : bool; delivery : Delivery }.

(** Instrumentation: every touch of the worker, every foreground run. *)
Inductive Event :=
  | EvNewWorker
  | EvPostMessage (id : nat) (timeout : Z)
  | EvLocalRender (pageIndex : Z) (scale : Q) (format : RenderFormat)
  | EvLocalExport (tasks : list RenderTask)
  | EvLocalLoad.

Definition touches_worker (ev : Event) : bool :=
  match ev with
  | EvNewWorker | EvPostMessage _ _ => true
  | _ => false
  end.

Definition set_workerFailed (st : WorkerManager) : WorkerManager :=
  {| worker := worker st; messageId := messageId st;
     pendingMessages := pendingMessages st;
     workerSupported := workerSupported st; workerFailed := true |}.

Definition set_pending (p : list nat) (st : WorkerManager) : WorkerManager :=
  {| worker := worker st; messageId := messageId st; pendingMessages := p;
     workerSupported := workerSupported st; workerFailed := workerFailed st |}.

Definition cleanup (st : WorkerManager) : WorkerManager :=
  {| worker := false; messageId := messageId st; pendingMessages := [];
     workerSupported := workerSupported st; workerFailed := workerFailed st |}.

Definition isAvailable (st : WorkerManager) : bool := worker st.

Definition getPendingTaskCount (st : WorkerManager) : nat :=
  List.length (pendingMessages st).

Definition delete_pending (id : nat) (st : WorkerManager) : WorkerManager :=
  set_pending (filter (fun k => negb (Nat.eqb k id)) (pendingMessages st)) st.

(** [sendMessage]: the settled promise, the manager afterwards and the
    events of the attempt. *)
Definition sendMessage (wk : Engine) (tr : Transport) (st : WorkerManager)
  (msg : WorkerMessage) (timeout : Z) : Result Data * WorkerManager * list Event :=
  if negb (workerSupported st) || workerFailed st then (Err WORKER_UNAVAILABLE, st, [])
  else if negb (worker st) && negb (creates tr) then
    (Err WorkerCreationFailed, st, [EvNewWorker])
  else
    let created := if worker st then [] else [EvNewWorker] in
    let id := S (messageId st) in
    let st1 :=
      {| worker := true; messageId := id;
         pendingMessages := id :: pendingMessages st;
         workerSupported := workerSupported st; workerFailed := workerFailed st |} in
    let evs := created ++ [EvPostMessage id timeout] in
    match delivery tr with
    | PostThrows =>
        (* the pending entry stays until its timer fires *)
        (Err PostMessageFailed, st1, evs)
    | TimesOut => (Err WorkerTimeout, delete_pending id st1, evs)
    | WorkerErrors => (Err WorkerCleanedUp, cleanup st1, evs)
    | Replies =>
        match onmessage wk msg with
        | Ok data => (Ok data, delete_pending id st1, evs)
        | Err (RenderFailed m) => (Err (WorkerReported m), delete_pending id st1, evs)
        | Err e => (Err e, delete_pending id st1, evs)
        end
    end.

Definition renderPageLocally (main : Engine) (arrayBuffer : ArrayBuffer)
  (pageIndex : Z) (scale : Q) (format : RenderFormat) : Result Data :=
  let buffer := cloneForPdf arrayBuffer in
  result_map Rendered
    (render_as main buffer pageIndex scale
       match format with as_svg => true | as_bitmap => false end).

Fixpoint exportPagesLocally_loop (main : Engine) (arrayBuffer : ArrayBuffer)
  (tasks : list RenderTask) (results : list Output) : Result (list Output) :=
  match tasks with
  | [] => Ok results
  | task :: rest =>
      match render_as main (cloneForPdf arrayBuffer) (task_page task) (task_scale task)
              (is_svg (task_format task)) with
      | Ok result => exportPagesLocally_loop main arrayBuffer rest (results ++ [result])
      | Err e => Err e
      end
  end.

Definition exportPagesLocally (main : Engine) (arrayBuffer : ArrayBuffer)
  (tasks : list RenderTask) : Result Data :=
  result_map Exported (exportPagesLocally_loop main arrayBuffer tasks []).

Definition loadDocumentLocally (main : Engine) (arrayBuffer : ArrayBuffer) : Result Data :=
  result_map (fun n => Loaded n true) (numPages main (cloneForPdf arrayBuffer)).

(** The [try { return await sendMessage(..) } catch { workerFailed = true;
    return local(..) }] shared by the three operations. *)
Definition with_fallback (attempt : Result Data * WorkerManager * list Event)
  (local : Result Data) (ev : Event) : Result Data * WorkerManager * list Event :=
  match attempt with
  | (Ok data, st', evs) => (Ok data, st', evs)
  | (Err _, st', evs) => (local, set_workerFailed st', evs ++ [ev])
  end.

Definition renderPage (main wk : Engine) (tr : Transport) (st : WorkerManager)
  (arrayBuffer : ArrayBuffer) (pageIndex : Z) (scale : Q) (format : RenderFormat)
  : Result Data * WorkerManager * list Event :=
  if negb (workerSupported st) || workerFailed st then
    (renderPageLocally main arrayBuffer pageIndex scale format, st,
     [EvLocalRender pageIndex scale format])
  else
    with_fallback
      (sendMessage wk tr st
         (MsgRender (cloneForPdf arrayBuffer) pageIndex scale format) 30000)
      (renderPageLocally main arrayBuffer pageIndex scale format)
      (EvLocalRender pageIndex scale format).

Definition exportPages (main wk : Engine) (tr : Transport) (st : WorkerManager)
  (arrayBuffer : ArrayBuffer) (tasks : list RenderTask)
  : Result Data * WorkerManager * list Event :=
  let requiresDom := existsb (fun task => is_svg (task_format task)) tasks in
  if requiresDom then
    (exportPagesLocally main arrayBuffer tasks, st, [EvLocalExport tasks])
  else if negb (workerSupported st) || workerFailed st then
    (exportPagesLocally main arrayBuffer tasks, st, [EvLocalExport tasks])
  else
    with_fallback
      (sendMessage wk tr st (MsgExport (cloneForPdf arrayBuffer) tasks) 60000)
      (exportPagesLocally main arrayBuffer tasks)
      (EvLocalExport tasks).

Definition loadDocument (main wk : Engine) (tr : Transport) (st : WorkerManager)
  (arrayBuffer : ArrayBuffer) : Result Data * WorkerManager * list Event :=
  if negb (workerSupported st) || workerFailed st then
    (loadDocumentLocally main arrayBuffer, st, [EvLocalLoad])
  else
    with_fallback
      (sendMessage wk tr st (MsgLoad (cloneForPdf arrayBuffer)) 30000)
      (loadDocumentLocally main arrayBuffer)
      EvLocalLoad.

(** ** Sequences of calls on one instance *)

Inductive Request :=
  | RenderPage (arrayBuffer : ArrayBuffer) (pageIndex : Z) (scale : Q) (format : RenderFormat)
  | ExportPages (arrayBuffer : ArrayBuffer) (tasks : list RenderTask)
  | LoadDocument (arrayBuffer : ArrayBuffer).

(** One call, with what the platform would do if the worker is tried. *)
Definition call (main wk : Engine) (st : WorkerManager) (c : Request * Transport)
  : Result Data * WorkerManager * list Event :=
  match c with
  | (RenderPage b p s f, tr) => renderPage main wk tr st b p s f
  | (ExportPages b tasks, tr) => exportPages main wk tr st b tasks
  | (LoadDocument b, tr) => loadDocument main wk tr st b
  end.

(** The same request run entirely on the calling thread. *)
Definition foreground (main : Engine) (r : Request) : Result Data :=
  match r with
  | RenderPage b p s f => renderPageLocally main b p s f
  | ExportPages b tasks => exportPagesLocally main b tasks
  | LoadDocument b => loadDocumentLocally main b
  end.

(** Calls made one after the other: their results, the final manager and
    the whole event log. *)
Fixpoint run (main wk : Engine) (st : WorkerManager) (calls : list (Request * Transport))
  : list (Result Data) * WorkerManager * list Event :=
  match calls with
  | [] => ([], st, [])
  | c :: rest =>
      let '(r, st1, evs) := call main wk st c in
      let '(rs, st2, evs') := run main wk st1 rest in
      (r :: rs, st2, evs ++ evs')
  end.

(** The worker path of a call fails: the platform has no worker support,
    or the message sent for it is rejected. *)
Definition message_of (r : Request) : WorkerMessage * Z :=
  match r with
  | RenderPage b p s f => (MsgRender (cloneForPdf b) p s f, 30000)
  | ExportPages b tasks => (MsgExport (cloneForPdf b) tasks, 60000)
  | LoadDocument b => (MsgLoad (cloneForPdf b), 30000)
  end.

Definition uses_worker (r : Request) : bool :=
  match r with
  | ExportPages _ tasks => negb (existsb (fun task => is_svg (task_format task)) tasks)
  | _ => true
  end.

Definition is_err {A} (r : Result A) : bool :=
  match r with Err _ => true | Ok _ => false end.

Definition worker_path_fails (wk : Engine) (st : WorkerManager)
  (c : Request * Transport) : bool :=
  negb (workerSupported st)
  || (uses_worker (fst c)
      && is_err (fst (fst (sendMessage wk (snd c) st
                             (fst (message_of (fst c))) (snd (message_of (fst c))))))).

End Model.

Arguments ImageBitmap {Bitmap} b.
Arguments SvgText {Bitmap} s.
Arguments Rendered {Bitmap} o.
Arguments Exported {Bitmap} results.
Arguments Loaded {Bitmap} pageCount loaded.
Arguments toBitmap {Bitmap} e.
Arguments toSVG {Bitmap} e.
Arguments numPages {Bitmap} e.
Arguments render_as {Bitmap} E.
Arguments renderMultiplePages {Bitmap} wk.
Arguments renderMultiplePages_loop {Bitmap} wk.
Arguments onmessage {Bitmap} wk.
Arguments sendMessage {Bitmap} wk.
Arguments renderPageLocally {Bitmap} main.
Arguments exportPagesLocally {Bitmap} main.
Arguments exportPagesLocally_loop {Bitmap} main.
Arguments loadDocumentLocally {Bitmap} main.
Arguments with_fallback {Bitmap}.
Arguments renderPage {Bitmap} main wk.
Arguments exportPages {Bitmap} main wk.
Arguments loadDocument {Bitmap} main wk.
Arguments call {Bitmap} main wk.
Arguments foreground {Bitmap} main.
Arguments run {Bitmap} main wk.
Arguments worker_path_fails {Bitmap} wk.

End Worker.

(* ================================================================== *)
(** * [utils/range.ts]: validating an expression *)
(* ================================================================== *)

Module PageExpr.
Import JsString Range.

(** The three messages of [validatePageExpr]: the expression is empty, no
    valid page was found, the expression is malformed. *)
Inductive PageExprError := ExprEmpty | NoValidPages | ExprMalformed.

Record Validation := mkValidation { valid : bool; error : option PageExprError }.

(** The [try] block is modelled by its body: the model of [parsePageExpr]
    has no exception, so what the [catch] branch does (it reports
    [ExprMalformed]) is outside the model and nothing is proved of it. *)
Definition validatePageExpr (expr : string) (maxPage : Z) : Validation :=
  if negb (truthy (trim expr)) then mkValidation false (Some ExprEmpty)
  else
    let pages := parsePageExpr expr maxPage in
    if Nat.eqb (List.length pages) 0 then mkValidation false (Some NoValidPages)
    else mkValidation true None.

End PageExpr.

(* ================================================================== *)
(** * [core/pdfEdit.ts]: page operations on a document *)
(* ================================================================== *)

Module PdfEdit.
Import Coords Range.
Local Open Scope Z_scope.

Section Documents.

Variable Page : Type.

(** A pdf-lib [PDFDocument], seen as the list of its pages.  Each function
    below gives the pages of the document at the moment it is handed to
    [save]; the serialisation done by [save] is not modelled. *)
Definition PDFDocument := list Page.

Definition getPageCount (doc : PDFDocument) : Z := Z.of_nat (List.length doc).

(** [doc.removePage(index)], called with [0 <= index < getPageCount doc]. *)
Definition removePage (index : Z) (doc : PDFDocument) : PDFDocument :=
  firstn (Z.to_nat index) doc ++ skipn (S (Z.to_nat index)) doc.

(** [targetDoc.copyPages(sourceDoc, indices)]: the pages at the indices, in
    the order of the indices; called with valid indices only. *)
Definition copyPages (sourceDoc : PDFDocument) (indices : list Z) : list Page :=
  flat_map (fun i => match nth_error sourceDoc (Z.to_nat i) with
                     | Some page => [page]
                     | None => []
                     end) indices.

(** [xs.sort((a, b) => b - a)] *)
Fixpoint insert_desc (x : Z) (l : list Z) : list Z :=
  match l with
  | [] => [x]
  | y :: l' => if y <=? x then x :: l else y :: insert_desc x l'
  end.

Definition sort_desc (l : list Z) : list Z := fold_right insert_desc [] l.

Definition deletePages (doc : PDFDocument) (pages1Based : list Z) : PDFDocument :=
  let sortedPages := sort_desc pages1Based in
  fold_left
    (fun doc pageNum =>
       if (0 <? pageNum) && (pageNum <=? getPageCount doc)
       then removePage (pageNum - 1) doc
       else doc)
    sortedPages doc.

Definition extractRanges (sourceDoc : PDFDocument) (ranges : list (Z * Z)) : PDFDocument :=
  fold_left
    (fun targetDoc range =>
       fold_left
         (fun targetDoc pageNum =>
            if (0 <? pageNum) && (pageNum <=? getPageCount sourceDoc)
            then targetDoc ++ copyPages sourceDoc [pageNum - 1]
            else targetDoc)
         (loop_range (fst range) (snd range)) targetDoc)
    ranges [].

Definition reorderPages (sourceDoc : PDFDocument) (newOrder : list Z) : PDFDocument :=
  let pagesToCopy :=
    filter (fun index => (0 <=? index) && (index <? getPageCount sourceDoc)) newOrder in
  if (0 <? Z.of_nat (List.length pagesToCopy))
  then copyPages sourceDoc pagesToCopy
  else [].

Definition mergePdfs (docs : list PDFDocument) : PDFDocument :=
  fold_left
    (fun targetDoc sourceDoc =>
       let pageCount := getPageCount sourceDoc in
       if 0 <? pageCount then
         let pageIndices := map Z.of_nat (seq 0 (Z.to_nat pageCount)) in
         targetDoc ++ copyPages sourceDoc pageIndices
       else targetDoc)
    docs [].

End Documents.

Arguments getPageCount {Page} doc.
Arguments removePage {Page} index doc.
Arguments copyPages {Page} sourceDoc indices.
Arguments deletePages {Page} doc pages1Based.
Arguments extractRanges {Page} sourceDoc ranges.
Arguments reorderPages {Page} sourceDoc newOrder.
Arguments mergePdfs {Page} docs.

(** The [clampedRect] of [hardCropToMediaBox], for a page of size
    [currentWidth] x [currentHeight]. *)
Definition clampedRect (rect : PdfRect) (currentWidth currentHeight : Q) : PdfRect :=
  {| pr_x := Qmax 0 (Qmin (pr_x rect) currentWidth);
     pr_y := Qmax 0 (Qmin (pr_y rect) currentHeight);
     pr_width := Qmin (pr_width rect) (currentWidth - Qmax 0 (pr_x rect));
     pr_height := Qmin (pr_height rect) (currentHeight - Qmax 0 (pr_y rect)) |}.

(** One index, copied when it is a page of the document. *)
Definition copy_valid {Page : Type} (doc : list Page) (index : Z) : list Page :=
  if ((0 <=? index) && (index <? getPageCount doc))%Z then copyPages doc [index] else [].

(** The pages of a document that are kept when the 1-based page numbers
    in [gone] are removed; [offset] pages precede [doc]. *)
Fixpoint without_pages {Page : Type} (offset : Z) (gone : list Z) (doc : list Page)
  : list Page :=
  match doc with
  | [] => []
  | page :: rest =>
      if existsb (Z.eqb (offset + 1)) gone
      then without_pages (offset + 1) gone rest
      else page :: without_pages (offset + 1) gone rest
  end.

End PdfEdit.

(* ================================================================== *)
(** * [utils/file.ts]: accepting a file *)
(* ================================================================== *)

Module FileUtil.
Import JsString.

(** What [validatePdfFile] reads of a [File]. *)
Record File := mkFile { name : string; type : string; size : Z }.

(** The four messages of [validatePdfFile]. *)
Inductive FileError := NotPdfName | NotPdfType | TooLarge | EmptyFile.

Record FileValidation := mkFileValidation
  { file_valid : bool; file_error : option FileError }.

(** [c.toLowerCase()] for a code unit below 256. *)
Definition lower (c : ascii) : ascii :=
  let n := N_of_ascii c in
  if ((65 <=? n) && (n <=? 90) || (192 <=? n) && (n <=? 222) && negb (n =? 215))%N
  then ascii_of_N (n + 32) else c.

Fixpoint toLowerCase (s : string) : string :=
  match s with
  | EmptyString => EmptyString
  | String c s' => String (lower c) (toLowerCase s')
  end.

(** [s.endsWith(suffix)] *)
Definition endsWith (suffix s : string) : bool :=
  let n := String.length s in
  let m := String.length suffix in
  (m <=? n)%nat && String.eqb (substring (n - m) m s) suffix.

Definition maxSize : Z := 100 * 1024 * 1024.

Definition validatePdfFile (file : File) : FileValidation :=
  if negb (endsWith ".pdf" (toLowerCase (name file)))
  then mkFileValidation false (Some NotPdfName)
  else if truthy (type file) && negb (String.eqb (type file) "application/pdf")
  then mkFileValidation false (Some NotPdfType)
  else if maxSize <? size file
  then mkFileValidation false (Some TooLarge)
  else if size file =? 0
  then mkFileValidation false (Some EmptyFile)
  else mkFileValidation true None.

End FileUtil.

(* ================================================================== *)
(** * [store/useProjectStore.ts]: the project state and its actions *)
(* ================================================================== *)

Module Store.
Import Coords Range.

(** The messages that [openFile] stores in [error]. *)
Inductive ErrorMessage :=
  | FileRejected (why : FileUtil.FileError)   (* the validation's message *)
  | NotAValidPdf                              (* the content is not a PDF *)
  | Thrown (message : string).                (* the message of a thrown error *)

Record ProjectState := mkProjectState
  { fileName : string;
    fileSize : Z;
    arrayBuffer : option Worker.ArrayBuffer;
    pages : list PdfPageMeta;
    pageOrder : list Z;
    selection : NumSet;
    currentPage : option Z;
    cropDraft : option CropDraft;
    isLoading : bool;
    error : option ErrorMessage;
    renderScale : Q;
    thumbnailScale : Q }.

Definition initialState : ProjectState :=
  {| fileName := EmptyString; fileSize := 0; arrayBuffer := None;
     pages := []; pageOrder := []; selection := [];
     currentPage := None; cropDraft := None;
     isLoading := false; error := None;
     renderScale := 2; thumbnailScale := 6 # 10 |}.

(** [new Set(values)]: the distinct values in order of first occurrence. *)
Definition new_Set (values : list Z) : NumSet :=
  fold_left (fun s x => set_add x s) values [].

(** [set({ pageOrder, selection, currentPage })] *)
Definition set_pages (order : list Z) (sel : NumSet) (cur : option Z)
  (st : ProjectState) : ProjectState :=
  {| fileName := fileName st; fileSize := fileSize st; arrayBuffer := arrayBuffer st;
     pages := pages st; pageOrder := order; selection := sel; currentPage := cur;
     cropDraft := cropDraft st; isLoading := isLoading st; error := error st;
     renderScale := renderScale st; thumbnailScale := thumbnailScale st |}.

Definition closeFile (st : ProjectState) : ProjectState := initialState.

Definition setPageOrder (order : list Z) (st : ProjectState) : ProjectState :=
  set_pages order (selection st) (currentPage st) st.

Definition option_eqb (o : option Z) (x : Z) : bool :=
  match o with Some y => y =? x | None => false end.

(** The selection is a [Set]: filtering its elements and building a new
    [Set] from them is filtering the list. *)
Definition deletePage (index : Z) (st : ProjectState) : ProjectState :=
  let newPageOrder := filter (fun i => negb (i =? index)) (pageOrder st) in
  let newSelection := filter (fun i => negb (i =? index)) (selection st) in
  let newCurrentPage :=
    if option_eqb (currentPage st) index
    then (match newPageOrder with first :: _ => Some first | [] => None end)
    else currentPage st in
  set_pages newPageOrder newSelection newCurrentPage st.

Definition deletePages (indices : list Z) (st : ProjectState) : ProjectState :=
  let indexSet := new_Set indices in
  let newPageOrder := filter (fun i => negb (set_has i indexSet)) (pageOrder st) in
  let newSelection := filter (fun i => negb (set_has i indexSet)) (selection st) in
  let newCurrentPage :=
    match currentPage st with
    | Some cur =>
        if set_has cur indexSet
        then (match newPageOrder with first :: _ => Some first | [] => None end)
        else currentPage st
    | None => currentPage st
    end in
  set_pages newPageOrder newSelection newCurrentPage st.

Definition selectPage (index : Z) (st : ProjectState) : ProjectState :=
  set_pages (pageOrder st) (new_Set [index]) (currentPage st) st.

Definition selectPages (indices : list Z) (st : ProjectState) : ProjectState :=
  set_pages (pageOrder st) (new_Set indices) (currentPage st) st.

Definition selectAllPages (st : ProjectState) : ProjectState :=
  set_pages (pageOrder st) (new_Set (pageOrder st)) (currentPage st) st.

Definition clearSelection (st : ProjectState) : ProjectState :=
  set_pages (pageOrder st) [] (currentPage st) st.

(** [set.delete(x)] *)
Definition set_delete (x : Z) (s : NumSet) : NumSet :=
  filter (fun y => negb (y =? x)) s.

Definition togglePageSelection (index : Z) (st : ProjectState) : ProjectState :=
  let newSelection :=
    if set_has index (selection st)
    then set_delete index (selection st)
    else set_add index (selection st) in
  set_pages (pageOrder st) newSelection (currentPage st) st.

Definition setCurrentPage (index : option Z) (st : ProjectState) : ProjectState :=
  set_pages (pageOrder st) (selection st) index st.

Definition setCropDraft (draft : option CropDraft) (st : ProjectState) : ProjectState :=
  {| fileName := fileName st; fileSize := fileSize st; arrayBuffer := arrayBuffer st;
     pages := pages st; pageOrder := pageOrder st; selection := selection st;
     currentPage := currentPage st; cropDraft := draft;
     isLoading := isLoading st; error := error st;
     renderScale := renderScale st; thumbnailScale := thumbnailScale st |}.

Definition clearCropDraft (st : ProjectState) : ProjectState := setCropDraft None st.

Definition set_scales (render thumbnail : Q) (st : ProjectState) : ProjectState :=
  {| fileName := fileName st; fileSize := fileSize st; arrayBuffer := arrayBuffer st;
     pages := pages st; pageOrder := pageOrder st; selection := selection st;
     currentPage := currentPage st; cropDraft := cropDraft st;
     isLoading := isLoading st; error := error st;
     renderScale := render; thumbnailScale := thumbnail |}.

Definition setRenderScale (scale : Q) (st : ProjectState) : ProjectState :=
  set_scales (Qmax (1 # 10) (Qmin 5 scale)) (thumbnailScale st) st.

Definition setThumbnailScale (scale : Q) (st : ProjectState) : ProjectState :=
  set_scales (renderScale st) (Qmax (1 # 10) (Qmin 1 scale)) st.

Definition set_status (loading : bool) (err : option ErrorMessage)
  (st : ProjectState) : ProjectState :=
  {| fileName := fileName st; fileSize := fileSize st; arrayBuffer := arrayBuffer st;
     pages := pages st; pageOrder := pageOrder st; selection := selection st;
     currentPage := currentPage st; cropDraft := cropDraft st;
     isLoading := loading; error := err;
     renderScale := renderScale st; thumbnailScale := thumbnailScale st |}.

Definition setError (err : option ErrorMessage) (st : ProjectState) : ProjectState :=
  set_status (isLoading st) err st.

Definition clearError (st : ProjectState) : ProjectState := setError None st.

Definition setLoading (loading : bool) (st : ProjectState) : ProjectState :=
  set_status loading (error st) st.

(** [pages.map((_, index) => index)] *)
Definition indices_of {A} (l : list A) : list Z := map Z.of_nat (seq 0 (List.length l)).

(** [openFile].  The file has been read into [content]; [isValidPdf] is
    what [validatePdfBuffer] answers and [meta] what [loadPdfMeta] does
    (the pages, or the message of the error it throws). *)
Definition openFile (file : FileUtil.File) (content : Worker.ArrayBuffer)
  (isValidPdf : bool) (meta : string + list PdfPageMeta)
  (st : ProjectState) : ProjectState :=
  let st := clearError (setLoading true st) in
  let validation := FileUtil.validatePdfFile file in
  let st :=
    if negb (FileUtil.file_valid validation) then
      (* [throw new Error(validation.error)] *)
      setError (Some match FileUtil.file_error validation with
                     | Some why => FileRejected why
                     | None => Thrown EmptyString
                     end) st
    else if negb isValidPdf then setError (Some NotAValidPdf) st
    else match meta with
         | inl message => setError (Some (Thrown message)) st
         | inr loaded =>
             {| fileName := FileUtil.name file;
                fileSize := FileUtil.size file;
                arrayBuffer := Some content;
                pages := loaded;
                pageOrder := indices_of loaded;
                selection := [];
                currentPage :=
                  if (0 <? Z.of_nat (List.length loaded))%Z then Some 0%Z else None;
                cropDraft := None;
                isLoading := isLoading st;
                error := None;
                renderScale := renderScale st;
                thumbnailScale := thumbnailScale st |}
         end in
  setLoading false st.

(** ** Selectors *)

Definition useSelectedPages (st : ProjectState) : list Z :=
  filter (fun index => set_has index (selection st)) (pageOrder st).

Definition useHasFile (st : ProjectState) : bool :=
  match arrayBuffer st with Some _ => true | None => false end.

Definition usePageCount (st : ProjectState) : Z := Z.of_nat (List.length (pageOrder st)).

Definition useCanDelete (st : ProjectState) : bool :=
  ((0 <? Z.of_nat (List.length (selection st)))
   && (Z.of_nat (List.length (selection st)) <? Z.of_nat (List.length (pageOrder st))))%Z.

(** [handleDeleteSelected] of the toolbar. *)
Definition handleDeleteSelected (st : ProjectState) : ProjectState :=
  if useCanDelete st && (0 <? Z.of_nat (List.length (selection st)))%Z
  then clearSelection (deletePages (selection st) st)
  else st.

(** What the state keeps true of its page order, selection and current
    page. *)
Definition consistent (st : ProjectState) : Prop :=
  NoDup (pageOrder st)
  /\ Forall (fun i => (0 <= i < Z.of_nat (List.length (pages st)))%Z) (pageOrder st)
  /\ NoDup (selection st)
  /\ (forall i, In i (selection st) -> In i (pageOrder st))
  /\ (forall cur, currentPage st = Some cur -> In cur (pageOrder st)).

End Store.

(* ================================================================== *)
(** * [components/ThumbnailList.tsx]: moving a thumbnail *)
(* ================================================================== *)

Module ThumbnailList.

(** [xs.splice(start, 1)] *)
Definition splice_remove {A} (start : nat) (xs : list A) : list A :=
  firstn start xs ++ skipn (S start) xs.

(** [xs.splice(start, 0, item)]; a start beyond the end appends. *)
Definition splice_insert {A} (start : nat) (item : A) (xs : list A) : list A :=
  firstn start xs ++ item :: skipn start xs.

(** [moveItem]: the order passed to [setPageOrder].  [None] stands for the
    array that holds [undefined] when [dragIndex] is not a position of the
    order. *)
Definition moveItem (pageOrder : list Z) (dragIndex hoverIndex : nat) : option (list Z) :=
  match nth_error pageOrder dragIndex with
  | Some draggedItem =>
      Some (splice_insert hoverIndex draggedItem (splice_remove dragIndex pageOrder))
  | None => None
  end.

End ThumbnailList.

(* ================================================================== *)
(** * [components/SplitModal.tsx]: the ranges to split into *)
(* ================================================================== *)

Module SplitModal.
Import Range.
Local Open Scope Z_scope.

(** The loop of the mode that splits every [splitSize] pages:
    [for (let i = 0; i < count; i += splitSize)].  It runs as long as the
    fuel lasts; [None] when the fuel runs out first.  [splitSize] is an
    integer here; the input field also accepts a fraction, which is
    outside the model. *)
Fixpoint each_loop (fuel : nat) (i splitSize count : Z) (ranges : list (Z * Z))
  : option (list (Z * Z)) :=
  if i <? count then
    match fuel with
    | O => None
    | S fuel' =>
        let start := i + 1 in
        let end_ := Z.min (i + splitSize) count in
        each_loop fuel' (i + splitSize) splitSize count (ranges ++ [(start, end_)])
    end
  else Some ranges.

Definition eachRanges (fuel : nat) (splitSize count : Z) : option (list (Z * Z)) :=
  each_loop fuel 0 splitSize count [].

(** First and last page of a parsed expression, when it has pages. *)
Definition span (pages1Based : list Z) : list (Z * Z) :=
  match pages1Based with
  | [] => []
  | first :: _ => [(first, last pages1Based first)]
  end.

(** The mode that splits out one range. *)
Definition rangeRanges (pageRange : string) (count : Z) : list (Z * Z) :=
  span (parsePageExpr pageRange count).

(** The mode that splits by preset ranges. *)
Definition presetRanges (presets : list string) (count : Z) : list (Z * Z) :=
  fold_left (fun presetComputed range => presetComputed ++ span (parsePageExpr range count))
            presets [].

End SplitModal.

(* ================================================================== *)
(** * [components/ExportModal.tsx]: export tasks and the crop of a bitmap *)
(* ================================================================== *)

Module ExportModal.
Import Coords Worker.
Local Open Scope Q_scope.

Definition clamp (value min max : Q) : Q := Qmax min (Qmin max value).

(** The region of the bitmap that is drawn. *)
Record Source := mkSource
  { sourceX : Z; sourceY : Z; sourceWidth : Z; sourceHeight : Z }.

(** The source region computed for the result of page [pageIndex], a
    bitmap of [bitmapWidth] x [bitmapHeight] pixels. *)
Definition cropSource (hardCrop : bool) (cropDraft : option CropDraft)
  (pageIndex : Z) (pageMeta : option PdfPageMeta) (scale : Q)
  (bitmapWidth bitmapHeight : Z) : Source :=
  let whole := mkSource 0 0 bitmapWidth bitmapHeight in
  match cropDraft, pageMeta with
  | Some draft, Some meta =>
      if hardCrop && (cd_page draft =? pageIndex)%Z then
        let exportViewport :=
          mkViewportInfo (inject_Z bitmapWidth) (inject_Z bitmapHeight) scale 0 0 in
        let cropRectCanvas := pdfRectToCanvasRect (cd_rect draft) meta exportViewport in
        let maxWidth := bitmapWidth in
        let maxHeight := bitmapHeight in
        let cropX := Qfloor (clamp (cr_x cropRectCanvas) 0 (inject_Z maxWidth)) in
        let cropY := Qfloor (clamp (cr_y cropRectCanvas) 0 (inject_Z maxHeight)) in
        let remainingWidth := (maxWidth - cropX)%Z in
        let remainingHeight := (maxHeight - cropY)%Z in
        if ((1 <? remainingWidth) && (1 <? remainingHeight))%Z then
          let cropW := Qfloor (clamp (cr_w cropRectCanvas) 1 (inject_Z remainingWidth)) in
          let cropH := Qfloor (clamp (cr_h cropRectCanvas) 1 (inject_Z remainingHeight)) in
          if ((0 <? cropW) && (0 <? cropH))%Z then mkSource cropX cropY cropW cropH
          else whole
        else whole
      else whole
  | _, _ => whole
  end.

(** The tasks built for a raster export of the pages [pages0Based]. *)
Definition exportTasks (pages0Based : list Z) (scale : Q) (rasterFormat : Format)
  (quality : option Q) : list RenderTask :=
  map (fun pageIndex =>
         mkRenderTask ("export_" ++ JsString.toString pageIndex) export pageIndex scale
           (Some rasterFormat) quality)
      pages0Based.

End ExportModal.

(* ================================================================== *)
(** * [workers/render.worker.ts]: the document cache *)
(* ================================================================== *)

Module RenderWorker.
Import Worker.
Local Open Scope Z_scope.

(** [ToInt32]: the integer modulo 2^32, read as a signed 32-bit number. *)
Definition to_int32 (z : Z) : Z := (z + 2 ^ 31) mod 2 ^ 32 - 2 ^ 31.

(** One turn of the loop: [((hash << 5) - hash + byte) & 0xffffffff]. *)
Definition hash_step (hash : Z) (byte : Byte.byte) : Z :=
  to_int32 (to_int32 (to_int32 hash * 32) - hash + Z.of_N (Byte.to_N byte)).

(** The value of [hash] after the loop over the first 1000 bytes. *)
Definition hash_value (buffer : ArrayBuffer) : Z :=
  fold_left hash_step (firstn 1000 buffer) 0.

Definition digit36 (d : Z) : ascii :=
  if d <? 10 then ascii_of_N (Z.to_N (48 + d)) else ascii_of_N (Z.to_N (87 + d)).

(** The digits of a non-negative integer in base 36, most significant
    first. *)
Fixpoint digits36 (fuel : nat) (n : Z) (acc : string) : string :=
  let acc' := String (digit36 (n mod 36)) acc in
  match fuel with
  | O => acc'
  | S fuel' => if n / 36 =? 0 then acc' else digits36 fuel' (n / 36) acc'
  end.

(** [n.toString(36)] for an integer [n]. *)
Definition toString36 (n : Z) : string :=
  if n <? 0 then String "-" (digits36 (Z.to_nat (Z.log2 (- n))) (- n) EmptyString)
  else digits36 (Z.to_nat (Z.log2 n)) n EmptyString.

Definition hashArrayBuffer (buffer : ArrayBuffer) : string :=
  toString36 (hash_value buffer).

Section Cache.

Variable Document : Type.

(** [documentCache]: keys in insertion order. *)
Definition Cache := list (string * Document).

Fixpoint cache_get (key : string) (cache : Cache) : option Document :=
  match cache with
  | [] => None
  | (k, doc) :: rest => if String.eqb k key then Some doc else cache_get key rest
  end.

Definition cache_has (key : string) (cache : Cache) : bool :=
  match cache_get key cache with Some _ => true | None => false end.

(** [documentCache.set(key, doc)] for a key that is not in the cache. *)
Definition cache_set (key : string) (doc : Document) (cache : Cache) : Cache :=
  cache ++ [(key, doc)].

(** [getDocument]: [load] is pdf.js's loader (the document, or the message
    of its error).  The result comes with the cache afterwards and with
    the buffers handed to the loader. *)
Definition getDocument (load : ArrayBuffer -> string + Document)
  (cache : Cache) (arrayBuffer : ArrayBuffer)
  : (string + Document) * Cache * list ArrayBuffer :=
  let hash := hashArrayBuffer arrayBuffer in
  match cache_get hash cache with
  | Some doc => (inr doc, cache, [])
  | None =>
      match load arrayBuffer with
      | inr doc => (inr doc, cache_set hash doc cache, [arrayBuffer])
      | inl message => (inl message, cache, [arrayBuffer])
      end
  end.

End Cache.

Arguments cache_get {Document} key cache.
Arguments cache_set {Document} key doc cache.
Arguments getDocument {Document} load cache arrayBuffer.

End RenderWorker.

(* ================================================================== *)
(** * Instrumentation of the coordinator *)
(* ================================================================== *)

Module WorkerLog.
Import Worker.

(** The ids of the messages posted, oldest first. *)
Definition posted_ids (evs : list Event) : list nat :=
  flat_map (fun ev => match ev with EvPostMessage id _ => [id] | _ => [] end) evs.

End WorkerLog.

(* ================================================================== *)
(** * JavaScript numbers as IEEE 754 binary64 values *)
(* ================================================================== *)

(** The modules above compute with exact integers and rationals.  The
    modules below repeat some of the functions with the numbers the code
    really has, binary64 floats with the kernel's arithmetic, so that a
    property can be evaluated, or proved, of the rounded results. *)

Module Binary64.
Local Open Scope float_scope.

(** [Math.max(a, b)]: NaN when an argument is NaN; [+0] counts as larger
    than [-0]. *)
Definition Math_max (a b : float) : float :=
  if is_nan a || is_nan b then nan
  else if a <=? b then (if (a =? b) && negb (get_sign a) then a else b)
  else a.

(** [Math.min(a, b)]: NaN when an argument is NaN; [-0] counts as smaller
    than [+0]. *)
Definition Math_min (a b : float) : float :=
  if is_nan a || is_nan b then nan
  else if a <=? b then (if (a =? b) && get_sign b then b else a)
  else b.

(** The double nearest to an integer, ties to even: the number that
    [parseInt] returns for the digits of that integer. *)
Definition of_Z (z : Z) : float := SF2Prim (binary_normalize prec emax z 0 false).

(** The rational that a finite double stands for. *)
Definition exact (a : float) : option Q :=
  match Prim2SF a with
  | S754_zero _ => Some 0%Q
  | S754_finite s m e =>
      let v := if s then Zneg m else Zpos m in
      Some (if (0 <=? e)%Z then inject_Z (v * 2 ^ e)
            else (v # Pos.pow 2 (Z.to_pos (- e))))
  | _ => None
  end.

(** The integer that a double stands for, when it is one. *)
Definition to_Z (a : float) : option Z :=
  match Prim2SF a with
  | S754_zero _ => Some 0%Z
  | S754_finite s m e =>
      let v := if s then Zneg m else Zpos m in
      if (0 <=? e)%Z then Some (v * 2 ^ e)%Z
      else if (v mod 2 ^ (- e) =? 0)%Z then Some (v / 2 ^ (- e))%Z
      else None
  | _ => None
  end.

(** [n.toString()] for an integer [n] of magnitude at most 2^53, where
    JavaScript prints the decimal digits of the value; [None] for every
    other number (fractions, larger values, NaN and the infinities are
    printed by rules that are not modelled). *)
Definition toString (a : float) : option string :=
  match to_Z a with
  | Some z => if (Z.abs z <=? 2 ^ 53)%Z then Some (JsString.toString z) else None
  | None => None
  end.

End Binary64.

(* ================================================================== *)
(** * [core/coords.ts] on doubles *)
(* ================================================================== *)

Module Coords64.
Import Binary64.
Local Open Scope float_scope.

Record PdfRect := mkPdfRect
  { pr_x : float; pr_y : float; pr_width : float; pr_height : float }.

Record PdfPageMeta := mkPdfPageMeta
  { pm_index : Z;
    pm_width : float;
    pm_height : float;
    pm_rotation : Coords.Rotation;
    pm_cropBox : option PdfRect;
    pm_mediaBox : PdfRect }.

Record CanvasRect := mkCanvasRect
  { cr_x : float; cr_y : float; cr_w : float; cr_h : float }.

Record ViewportInfo := mkViewportInfo
  { vp_width : float; vp_height : float; vp_scale : float;
    vp_offsetX : float; vp_offsetY : float }.

(** [page.cropBox ?? page.mediaBox] *)
Definition baseBox (page : PdfPageMeta) : PdfRect :=
  match pm_cropBox page with
  | Some box => box
  | None => pm_mediaBox page
  end.

Definition canvasRectToPdfRect
  (rectCanvas : CanvasRect) (page : PdfPageMeta) (viewport : ViewportInfo) : PdfRect :=
  let base := baseBox page in
  let scaleX := pr_width base / vp_width viewport in
  let scaleY := pr_height base / vp_height viewport in
  let relativeX := cr_x rectCanvas in
  let relativeY := cr_y rectCanvas in
  let width := cr_w rectCanvas * scaleX in
  let height := cr_h rectCanvas * scaleY in
  let x := pr_x base + relativeX * scaleX in
  let y := pr_y base + (pr_height base - (relativeY + cr_h rectCanvas) * scaleY) in
  {| pr_x := x; pr_y := y; pr_width := width; pr_height := height |}.

Definition pdfRectToCanvasRect
  (rectPdf : PdfRect) (page : PdfPageMeta) (viewport : ViewportInfo) : CanvasRect :=
  let base := baseBox page in
  let scaleX := vp_width viewport / pr_width base in
  let scaleY := vp_height viewport / pr_height base in
  let width := pr_width rectPdf * scaleX in
  let height := pr_height rectPdf * scaleY in
  let x := (pr_x rectPdf - pr_x base) * scaleX in
  let y := (pr_height base - (pr_y rectPdf - pr_y base) - pr_height rectPdf) * scaleY in
  {| cr_x := x; cr_y := y; cr_w := width; cr_h := height |}.

(** The default of the optional [padding] argument. *)
Definition default_padding : float := 20.

Definition calculateViewport
  (page : PdfPageMeta) (containerWidth containerHeight : float) (padding : option float)
  : ViewportInfo :=
  let padding := match padding with Some p => p | None => default_padding end in
  let availableWidth := containerWidth - padding * 2 in
  let availableHeight := containerHeight - padding * 2 in
  let scaleX := availableWidth / pm_width page in
  let scaleY := availableHeight / pm_height page in
  let scale := Math_min (Math_min scaleX scaleY) 2 in
  let width := pm_width page * scale in
  let height := pm_height page * scale in
  let offsetX := (containerWidth - width) / 2 in
  let offsetY := (containerHeight - height) / 2 in
  {| vp_width := width; vp_height := height; vp_scale := scale;
     vp_offsetX := offsetX; vp_offsetY := offsetY |}.

(** The rectangle of rationals that a rectangle of finite doubles stands
    for. *)
Definition pdf_exact (r : PdfRect) : option Coords.PdfRect :=
  match exact (pr_x r), exact (pr_y r), exact (pr_width r), exact (pr_height r) with
  | Some x, Some y, Some w, Some h => Some (Coords.mkPdfRect x y w h)
  | _, _, _, _ => None
  end.

End Coords64.

(* ================================================================== *)
(** * [components/CropOverlay.tsx] on doubles *)
(* ================================================================== *)

Module CropOverlay64.
Import Binary64 Coords64.
Local Open Scope float_scope.

Record CropOverlayProps := mkProps
  { cropRect : PdfRect; page : PdfPageMeta; viewport : ViewportInfo }.

Record DragStart := mkDragStart { ds_x : float; ds_y : float; ds_rect : CanvasRect }.

Record State := mkState
  { isDragging : bool;
    dragHandle : option CropOverlay.ResizeHandle;
    dragStart : option DragStart }.

Record MouseEvent := mkMouseEvent { clientX : float; clientY : float }.

Definition handleMouseDown
  (props : CropOverlayProps) (e : MouseEvent) (handle : CropOverlay.ResizeHandle) : State :=
  let canvasRect := pdfRectToCanvasRect (cropRect props) (page props) (viewport props) in
  {| isDragging := true;
     dragHandle := Some handle;
     dragStart := Some {| ds_x := clientX e; ds_y := clientY e; ds_rect := canvasRect |} |}.

(** The [switch (dragHandle)] of [handleMouseMove]. *)
Definition applyHandle
  (handle : CropOverlay.ResizeHandle) (deltaX deltaY : float) (r : CanvasRect)
  : CanvasRect :=
  let '(mkCanvasRect x y w h) := r in
  match handle with
  | CropOverlay.h_nw => mkCanvasRect (x + deltaX) (y + deltaY) (w - deltaX) (h - deltaY)
  | CropOverlay.h_n => mkCanvasRect x (y + deltaY) w (h - deltaY)
  | CropOverlay.h_ne => mkCanvasRect x (y + deltaY) (w + deltaX) (h - deltaY)
  | CropOverlay.h_e => mkCanvasRect x y (w + deltaX) h
  | CropOverlay.h_se => mkCanvasRect x y (w + deltaX) (h + deltaY)
  | CropOverlay.h_s => mkCanvasRect x y w (h + deltaY)
  | CropOverlay.h_sw => mkCanvasRect (x + deltaX) y (w - deltaX) (h + deltaY)
  | CropOverlay.h_w => mkCanvasRect (x + deltaX) y (w - deltaX) h
  | CropOverlay.h_move => mkCanvasRect (x + deltaX) (y + deltaY) w h
  end.

(** The four clamping assignments, in source order: [w] and [h] read the
    already clamped [x] and [y]. *)
Definition clampToViewport (viewport : ViewportInfo) (r : CanvasRect) : CanvasRect :=
  let x := Math_max 0 (Math_min (cr_x r) (vp_width viewport - 10)) in
  let y := Math_max 0 (Math_min (cr_y r) (vp_height viewport - 10)) in
  let w := Math_max 10 (Math_min (cr_w r) (vp_width viewport - x)) in
  let h := Math_max 10 (Math_min (cr_h r) (vp_height viewport - y)) in
  mkCanvasRect x y w h.

(** The canvas rectangle [newRect] that [handleMouseMove] converts and
    publishes; [None] when the handler returns early. *)
Definition adjustedRect
  (props : CropOverlayProps) (st : State) (e : MouseEvent) : option CanvasRect :=
  if negb (isDragging st) then None
  else match dragStart st, dragHandle st with
       | Some start, Some handle =>
           let deltaX := clientX e - ds_x start in
           let deltaY := clientY e - ds_y start in
           Some (clampToViewport (viewport props)
                   (applyHandle handle deltaX deltaY (ds_rect start)))
       | _, _ => None
       end.

End CropOverlay64.

(* ================================================================== *)
(** * [utils/range.ts] on doubles *)
(* ================================================================== *)

Module Range64.
Import JsString Binary64.
Local Open Scope float_scope.

(** A [Set<number>] in insertion order; membership is SameValueZero. *)
Definition NumSet := list float.

Definition same_value_zero (x y : float) : bool :=
  (x =? y) || (is_nan x && is_nan y).

Definition set_has (x : float) (s : NumSet) : bool := existsb (same_value_zero x) s.

Definition set_add (x : float) (s : NumSet) : NumSet :=
  if set_has x s then s else (s ++ [x])%list.

(** The digits read by [parseInt], as a number; NaN without a digit. *)
Definition digits (s : string) : float :=
  match parse_digits s None with
  | Some z => of_Z z
  | None => nan
  end.

(** [parseInt(s, 10)] *)
Definition parseInt (s : string) : float :=
  match trimStart s with
  | String "-" r => - digits r
  | String "+" r => digits r
  | r => digits r
  end.

(** [for (let i = lo; i <= hi; i++) result.add(i)], for as many turns as
    the fuel allows; [None] when the fuel runs out first. *)
Fixpoint for_loop (fuel : nat) (i hi : float) (result : NumSet) : option NumSet :=
  if i <=? hi then
    match fuel with
    | O => None
    | S fuel' => for_loop fuel' (i + 1) hi (set_add i result)
    end
  else Some result.

(** One side of a range term: an absent or empty side takes the default. *)
Definition side (o : option string) (default : float) : float :=
  match o with
  | Some s => if truthy s then parseInt s else default
  | None => default
  end.

(** The body of the loop over [parts]. *)
Definition process_part (fuel : nat) (maxPage : float) (result : NumSet) (part : string)
  : option NumSet :=
  if includes "-" part then
    let sides := map trim (split "-" part) in
    let start := side (nth_error sides 0) 1 in
    let end_ := side (nth_error sides 1) maxPage in
    if is_nan start || is_nan end_ then Some result
    else for_loop fuel (Math_max 1 start) (Math_min maxPage end_) result
  else
    let page := parseInt part in
    if negb (is_nan page) && (1 <=? page) && (page <=? maxPage)
    then Some (set_add page result)
    else Some result.

(** [xs.sort((a, b) => a - b)] on numbers that are not NaN. *)
Fixpoint insert_sorted (x : float) (l : list float) : list float :=
  match l with
  | [] => [x]
  | y :: l' => if x <=? y then x :: l else y :: insert_sorted x l'
  end.

Definition sort_num (l : list float) : list float := fold_right insert_sorted [] l.

(** [parsePageExpr], each of its loops running on [fuel]. *)
Definition parsePageExpr (fuel : nat) (expr : string) (maxPage : float)
  : option (list float) :=
  if negb (truthy (trim expr)) then Some []
  else
    option_map sort_num
      (fold_left
         (fun acc part =>
            match acc with
            | Some result => process_part fuel maxPage result part
            | None => None
            end)
         (Range.parts_of expr) (Some [])).

(** One finished run [start..end] as [formatPageRange] prints it. *)
Definition fmt_run (start end_ : float) : option string :=
  match toString start, toString end_ with
  | Some a, Some b =>
      Some (if start =? end_ then a
            else if end_ =? start + 1 then (a ++ "," ++ b)%string
            else (a ++ "-" ++ b)%string)
  | _, _ => None
  end.

(** The loop state of [formatPageRange]: [ranges], [start], [end]. *)
Definition fmt_step (st : option (list string) * float * float) (x : float)
  : option (list string) * float * float :=
  let '(ranges, start, end_) := st in
  if x =? end_ + 1 then (ranges, start, x)
  else (match ranges, fmt_run start end_ with
        | Some rs, Some r => Some (rs ++ [r])%list
        | _, _ => None
        end, x, x).

(** [formatPageRange]; [None] when a number is printed that [toString]
    does not model. *)
Definition formatPageRange (pages : list float) : option string :=
  match sort_num pages with
  | [] => Some EmptyString
  | p0 :: rest =>
      let '(ranges, start, end_) := fold_left fmt_step rest (Some [], p0, p0) in
      match ranges, fmt_run start end_ with
      | Some rs, Some r => Some (join "," (rs ++ [r])%list)
      | _, _ => None
      end
  end.

End Range64.

(* ================================================================== *)
(** * Vocabulary of the properties *)
(* ================================================================== *)

Section CropVocabulary.
Import Coords.
Local Open Scope Q_scope.

(** The bounds a published canvas rectangle is expected to satisfy. *)
Definition crop_bounds (viewport : ViewportInfo) (r : CanvasRect) : Prop :=
  0 <= cr_x r /\ 0 <= cr_y r /\
  cr_x r + cr_w r <= vp_width viewport /\
  cr_y r + cr_h r <= vp_height viewport /\
  10 <= cr_w r /\ 10 <= cr_h r.

(** A page and a container that give a viewport only 5 pixels wide. *)
Definition letter_page : PdfPageMeta :=
  mkPdfPageMeta 0 612 792 Rot0 None (mkPdfRect 0 0 612 792).

Definition narrow_props : CropOverlay.CropOverlayProps :=
  CropOverlay.mkProps (mkPdfRect 0 0 612 792) letter_page
    (calculateViewport letter_page 85 1000 (Some 40)).

Definition narrow_drag : CropOverlay.State :=
  CropOverlay.handleMouseDown narrow_props (CropOverlay.mkMouseEvent 3 3)
    CropOverlay.h_move.

(** An A4 page with a crop box, shown in an 800 x 1000 viewport. *)
Definition a4_cropped : PdfPageMeta :=
  mkPdfPageMeta 0 595 842 Rot0 (Some (mkPdfRect 50 60 400 500)) (mkPdfRect 0 0 595 842).

Definition screen_viewport : ViewportInfo := mkViewportInfo 800 1000 2 0 0.

Definition overlay_props : CropOverlay.CropOverlayProps :=
  CropOverlay.mkProps (mkPdfRect 100 120 80 90) a4_cropped screen_viewport.

Definition viewer_env : CanvasViewer.Env :=
  CanvasViewer.mkEnv (Some (0, 0)) (Some screen_viewport) (Some a4_cropped) (Some 0%Z).

Definition viewer_with_draft : CanvasViewer.State :=
  CanvasViewer.mkState false None None (Some (mkCropDraft 0 (mkPdfRect 100 120 80 90))).

End CropVocabulary.

Section WorkerVocabulary.
Import Coords Worker.
Local Open Scope Q_scope.

(** The coordinator no longer uses the worker. *)
Definition degraded (st : WorkerManager) : bool :=
  negb (workerSupported st) || workerFailed st.

(** The event a foreground run of a request leaves in the log. *)
Definition local_event (r : Request) : Event :=
  match r with
  | RenderPage _ p s f => EvLocalRender p s f
  | ExportPages _ tasks => EvLocalExport tasks
  | LoadDocument _ => EvLocalLoad
  end.

Section Rendering.
Variable Bitmap : Type.

(** The rendering of a task: its page and scale, in its format. *)
Definition render_task (E : Engine Bitmap) (buffer : ArrayBuffer) (task : RenderTask)
  : Result (Output Bitmap) :=
  render_as E buffer (task_page task) (task_scale task) (is_svg (task_format task)).

End Rendering.

(** Two engines that can be told apart: the foreground one draws bitmap
    [page], the worker one bitmap [page + 1000]. *)
Definition demo_main : Engine Z :=
  mkEngine Z (fun _ p _ => Ok p) (fun _ _ _ => Ok "<svg/>"%string) (fun _ => Ok 3%Z).

Definition demo_wk : Engine Z :=
  mkEngine Z (fun _ p _ => Ok (p + 1000)%Z) (fun _ _ _ => Ok "<svg/>"%string)
    (fun _ => Ok 3%Z).

Definition png_task (p : Z) : RenderTask :=
  mkRenderTask "t" export p 1 (Some png) None.

Definition svg_task (p : Z) : RenderTask :=
  mkRenderTask "t" export p 1 (Some svg) None.

Definition healthy : Transport := mkTransport true Replies.

End WorkerVocabulary.

Arguments render_task {Bitmap} E buffer task.

Section RangeVocabulary.
Import JsString Range.

(** The pages a term stands for: a plain term stands for its number, a
    range term for the numbers between its two sides (an omitted side is 1
    or [maxPage]); a term whose number or side does not parse stands for
    nothing, and so does any number outside [1, maxPage]. *)
Definition term_denotes (maxPage : Z) (part : string) (p : Z) : Prop :=
  1 <= p <= maxPage /\
  if includes "-" part then
    exists start end_,
      side (nth_error (map trim (split "-" part)) 0) 1 = Some start
      /\ side (nth_error (map trim (split "-" part)) 1) maxPage = Some end_
      /\ start <= p <= end_
  else parseInt part = Some p.

Fixpoint all_chars (p : ascii -> bool) (s : string) : bool :=
  match s with
  | EmptyString => true
  | String c s' => p c && all_chars p s'
  end.

Definition not_ws (c : ascii) : bool := negb (is_ws c).

(** The terms a printed run splits into. *)
Definition run_atoms (r : Z * Z) : list string :=
  if fst r =? snd r then [toString (fst r)]
  else if snd r =? fst r + 1 then [toString (fst r); toString (snd r)]
  else [(toString (fst r) ++ String "-" (toString (snd r)))%string].

Definition fmt_pair (r : Z * Z) : string := fmt_run (fst r) (snd r).

(** A run of pages within [1, maxPage]. *)
Definition good_run (maxPage : Z) (r : Z * Z) : Prop :=
  1 <= fst r /\ fst r <= snd r /\ snd r <= maxPage.

(** The pages a list of runs stands for. *)
Definition expand (runs : list (Z * Z)) : list Z :=
  flat_map (fun r => loop_range (fst r) (snd r)) runs.

(** The loop of [formatPageRange] on pairs instead of printed runs. *)
Definition run_step (st : list (Z * Z) * Z * Z) (x : Z) : list (Z * Z) * Z * Z :=
  let '(runs, start, end_) := st in
  if x =? end_ + 1 then (runs, start, x)
  else ((runs ++ [(start, end_)])%list, x, x).

(** Pushing the last run after the loop. *)
Definition close_runs (st : list (Z * Z) * Z * Z) : list (Z * Z) :=
  let '(runs, start, end_) := st in (runs ++ [(start, end_)])%list.

Definition close_ranges (st : list string * Z * Z) : list string :=
  let '(ranges, start, end_) := st in (ranges ++ [fmt_run start end_])%list.

End RangeVocabulary.

Section DoubleVocabulary.
Import Binary64 Coords64.
Local Open Scope float_scope.

(** What the clamp of the crop overlay gives one field [v]: unless it is
    NaN, it is at least [low], and it is [low] itself or at most [room]. *)
Definition clamped (v low room : float) : Prop :=
  is_nan v = true \/ ((low <=? v) = true /\ (v = low \/ (v <=? room) = true)).

(** The bounds of a clamped rectangle, the differences being the ones
    the code computes. *)
Definition crop_bounds64 (viewport : ViewportInfo) (r : CanvasRect) : Prop :=
  clamped (cr_x r) 0 (vp_width viewport - 10)
  /\ clamped (cr_y r) 0 (vp_height viewport - 10)
  /\ clamped (cr_w r) 10 (vp_width viewport - cr_x r)
  /\ clamped (cr_h r) 10 (vp_height viewport - cr_y r).

(** An A4 page without crop box, and a 700 x 990 viewport. *)
Definition a4_page64 : PdfPageMeta :=
  mkPdfPageMeta 0 595 842 Coords.Rot0 None (mkPdfRect 0 0 595 842).

Definition viewport_700_990 : ViewportInfo := mkViewportInfo 700 990 1 0 0.

(** The function never returns: no amount of fuel gives a result. *)
Definition never_returns {A : Type} (run : nat -> option A) : Prop :=
  ~ exists fuel result, run fuel = Some result.

End DoubleVocabulary.

(* ================================================================== *)
(** * Sample data of the further instances *)
(* ================================================================== *)

Section SampleData.
Import Coords Worker.
Local Open Scope Q_scope.

(** Three loaded pages in their original order, the second one selected
    and current. *)
Definition three_pages : Store.ProjectState :=
  Store.mkProjectState "a.pdf" 3000 (Some []) [a4_cropped; letter_page; letter_page]
    [0; 1; 2]%Z [1]%Z (Some 1%Z) None false None 2 (6 # 10).

(** A buffer of 1000 equal bytes followed by one more byte. *)
Definition long_buffer (tail : Byte.byte) : ArrayBuffer :=
  (repeat Byte.x25 1000 ++ [tail])%list.

(** A loader whose document is the length of the buffer. *)
Definition count_bytes (buffer : ArrayBuffer) : string + Z :=
  inr (Z.of_nat (List.length buffer)).

End SampleData.

(* ================================================================== *)
(** * Properties on doubles *)
(* ================================================================== *)

Section Binary64Facts.
Import Binary64.
Local Open Scope float_scope.

Lemma leb_refl (a : float) : is_nan a = false -> (a <=? a) = true.
Proof.
  unfold is_nan. rewrite negb_false_iff, eqb_spec, leb_spec.
  unfold SFeqb, SFleb.
  destruct (SFcompare (Prim2SF a) (Prim2SF a)) as [[]|]; congruence.
Qed.

Lemma SFcompare_antisym (x y : spec_float) :
  SFcompare y x = option_map CompOpp (SFcompare x y).
Proof.
  destruct x as [sx|sx| |sx mx ex], y as [sy|sy| |sy my ey]; simpl; try reflexivity;
    try (destruct sx; reflexivity); try (destruct sy; reflexivity);
    try (destruct sx, sy; reflexivity).
  destruct sx, sy; simpl; try reflexivity; f_equal;
    rewrite (Z.compare_antisym ex ey); destruct (ex ?= ey)%Z; simpl; try reflexivity;
    rewrite (Pos.compare_cont_antisym _ _ Eq); simpl; try reflexivity.
  now rewrite CompOpp_involutive.
Qed.

Lemma leb_not_gt (a b : float) : (a <=? b) = true -> (b <? a) = false.
Proof.
  rewrite leb_spec, ltb_spec. unfold SFleb, SFltb.
  rewrite (SFcompare_antisym (Prim2SF a) (Prim2SF b)).
  destruct (SFcompare (Prim2SF a) (Prim2SF b)) as [[]|]; simpl; congruence.
Qed.

(** [Math.max] returns NaN, or one of its arguments, which is then at
    least the first. *)
Lemma Math_max_spec (a b : float) :
  is_nan (Math_max a b) = true
  \/ ((a <=? Math_max a b) = true
      /\ (Math_max a b = a \/ (Math_max a b = b /\ is_nan b = false))).
Proof.
  unfold Math_max. destruct (is_nan a) eqn:Na; [left; reflexivity|].
  destruct (is_nan b) eqn:Nb; [left; reflexivity|]. simpl. right.
  destruct (a <=? b) eqn:E.
  - destruct ((a =? b) && negb (get_sign a)).
    + split; [now apply leb_refl | now left].
    + split; [exact E | now right].
  - split; [now apply leb_refl | now left].
Qed.

(** [Math.min] returns NaN, or a number that is at most the second
    argument. *)
Lemma Math_min_spec (a b : float) :
  is_nan (Math_min a b) = true \/ (Math_min a b <=? b) = true.
Proof.
  unfold Math_min. destruct (is_nan a) eqn:Na; [left; reflexivity|].
  destruct (is_nan b) eqn:Nb; [left; reflexivity|]. simpl. right.
  destruct (a <=? b) eqn:E.
  - destruct ((a =? b) && get_sign b); [now apply leb_refl | exact E].
  - now apply leb_refl.
Qed.

(** One field of the clamp: [Math.max(low, Math.min(v, room))]. *)
Lemma clamp_field (v low room : float) :
  clamped (Math_max low (Math_min v room)) low room.
Proof.
  unfold clamped.
  destruct (Math_max_spec low (Math_min v room)) as [N|[Hge [E|[E Nb]]]];
    [left; exact N | right; split; [exact Hge | left; exact E] |].
  right. split; [exact Hge|]. right. rewrite E.
  destruct (Math_min_spec v room) as [N|H]; [congruence | exact H].
Qed.

Lemma clampToViewport_bounds64 (viewport : Coords64.ViewportInfo)
  (r : Coords64.CanvasRect) :
  crop_bounds64 viewport (CropOverlay64.clampToViewport viewport r).
Proof.
  unfold crop_bounds64, CropOverlay64.clampToViewport; simpl.
  repeat split; apply clamp_field.
Qed.

End Binary64Facts.

Section Coords64Facts.
Import Binary64 Coords64.
Local Open Scope float_scope.

(** C8. On the code's doubles, for every page, container and padding
    (NaN, zero and infinite values included): [calculateViewport] takes as
    scale [Math.min] of the horizontal fit ratio, the vertical fit ratio
    and 2, each ratio as the division computes it; the scale is never
    greater than 2, being NaN or at most 2; and a 10 x 10 point page in a
    2000 x 2000 pixel container with the default padding gets scale
    exactly 2. *)
Theorem calculateViewport_scale (page : PdfPageMeta)
  (containerWidth containerHeight : float) (padding : option float) :
  let p := match padding with Some p => p | None => 20 end in
  let scale := vp_scale (calculateViewport page containerWidth containerHeight padding) in
  scale = Math_min (Math_min ((containerWidth - p * 2) / pm_width page)
                             ((containerHeight - p * 2) / pm_height page)) 2
  /\ (2 <? scale) = false
  /\ (is_nan scale = true \/ (scale <=? 2) = true)
  /\ (forall index rotation cropBox mediaBox,
        vp_scale (calculateViewport
                    (mkPdfPageMeta index 10 10 rotation cropBox mediaBox)
                    2000 2000 None) = 2).
Proof.
  intros p scale.
  assert (E : scale = Math_min (Math_min ((containerWidth - p * 2) / pm_width page)
                                         ((containerHeight - p * 2) / pm_height page)) 2)
    by reflexivity.
  split; [exact E|].
  assert (H : is_nan scale = true \/ (scale <=? 2) = true)
    by (rewrite E; apply Math_min_spec).
  split; [|split; [exact H|]].
  - destruct H as [N|H]; [|now apply leb_not_gt].
    unfold is_nan in N. apply negb_true_iff in N.
    rewrite ltb_spec. rewrite eqb_spec in N. unfold SFltb. unfold SFeqb in N.
    destruct (Prim2SF scale) as [s|s| |s m e]; simpl in *;
      try reflexivity; try discriminate.
    + destruct s; discriminate.
    + rewrite Z.compare_refl, Pos.compare_cont_refl in N. destruct s; discriminate.
  - intros. reflexivity.
Qed.

End Coords64Facts.

(* ================================================================== *)
(** * Properties of the coordinate transform *)
(* ================================================================== *)

Section CoordsFacts.
Import Coords.
Local Open Scope Q_scope.

Lemma Qltb_lt (a b : Q) : Qltb a b = true <-> a < b.
Proof.
  unfold Qltb. rewrite negb_true_iff. split.
  - intros H. apply Qnot_le_lt. intros Hle.
    apply Qle_bool_iff in Hle. congruence.
  - intros H. destruct (Qle_bool b a) eqn:E; [|reflexivity].
    apply Qle_bool_iff in E. exfalso. exact (Qlt_not_le _ _ H E).
Qed.

Lemma Qltb_ge (a b : Q) : Qltb a b = false <-> b <= a.
Proof.
  unfold Qltb. rewrite negb_false_iff. apply Qle_bool_iff.
Qed.

Lemma Qabs_twice (q : Q) : Qabs (Qabs q) = Qabs q.
Proof. destruct q as [n d]. simpl. now rewrite Z.abs_idemp. Qed.

(** PDF to canvas and back is the identity whenever neither the base box
    nor the viewport is degenerate. *)
Lemma pdf_canvas_pdf (r : PdfRect) (page : PdfPageMeta) (viewport : ViewportInfo) :
  ~ pr_width (baseBox page) == 0 -> ~ pr_height (baseBox page) == 0 ->
  ~ vp_width viewport == 0 -> ~ vp_height viewport == 0 ->
  PdfRect_eq (canvasRectToPdfRect (pdfRectToCanvasRect r page viewport) page viewport) r.
Proof.
  intros Hbw Hbh Hvw Hvh.
  unfold PdfRect_eq, canvasRectToPdfRect, pdfRectToCanvasRect; simpl.
  repeat split; field; auto.
Qed.

Lemma canvas_pdf_canvas (c : CanvasRect) (page : PdfPageMeta) (viewport : ViewportInfo) :
  ~ pr_width (baseBox page) == 0 -> ~ pr_height (baseBox page) == 0 ->
  ~ vp_width viewport == 0 -> ~ vp_height viewport == 0 ->
  CanvasRect_eq (pdfRectToCanvasRect (canvasRectToPdfRect c page viewport) page viewport) c.
Proof.
  intros Hbw Hbh Hvw Hvh.
  unfold CanvasRect_eq, canvasRectToPdfRect, pdfRectToCanvasRect; simpl.
  repeat split; field; auto.
Qed.

Lemma Qpos_nonzero (q : Q) : 0 < q -> ~ q == 0.
Proof. intros H E. rewrite E in H. exact (Qlt_irrefl _ H). Qed.



(** C10. [normalizeRect] always returns non-negative [w] and [h], and
    normalizing twice is the same as normalizing once. *)
Theorem normalizeRect_idempotent (r : CanvasRect) :
  0 <= cr_w (normalizeRect r) /\ 0 <= cr_h (normalizeRect r) /\
  normalizeRect (normalizeRect r) = normalizeRect r.
Proof.
  split; [apply Qabs_nonneg|]. split; [apply Qabs_nonneg|].
  unfold normalizeRect; simpl.
  assert (Hw : Qltb (Qabs (cr_w r)) 0 = false) by (apply Qltb_ge, Qabs_nonneg).
  assert (Hh : Qltb (Qabs (cr_h r)) 0 = false) by (apply Qltb_ge, Qabs_nonneg).
  rewrite Hw, Hh, !Qabs_twice. reflexivity.
Qed.

End CoordsFacts.

(* ================================================================== *)
(** * Properties of the crop editor *)
(* ================================================================== *)

Section CropFacts.
Import Coords.
Local Open Scope Q_scope.

(** One axis of [clampToViewport]. *)
Lemma clamp_axis (pos len size : Q) :
  10 <= size ->
  let pos' := Qmax 0 (Qmin pos (size - 10)) in
  let len' := Qmax 10 (Qmin len (size - pos')) in
  0 <= pos' /\ pos' + len' <= size /\ 10 <= len'.
Proof.
  intros Hsize pos' len'.
  assert (H0 : 0 <= pos') by apply Q.le_max_l.
  assert (H1 : pos' <= size - 10).
  { apply Q.max_lub; [lra | apply Q.le_min_r]. }
  assert (H2 : len' <= size - pos').
  { apply Q.max_lub; [lra | apply Q.le_min_r]. }
  assert (H3 : 10 <= len') by apply Q.le_max_l.
  repeat split; lra.
Qed.

Lemma clampToViewport_bounds (viewport : ViewportInfo) (r : CanvasRect) :
  10 <= vp_width viewport -> 10 <= vp_height viewport ->
  crop_bounds viewport (CropOverlay.clampToViewport viewport r).
Proof.
  intros Hw Hh.
  destruct (clamp_axis (cr_x r) (cr_w r) (vp_width viewport) Hw) as (X0 & X1 & X2).
  destruct (clamp_axis (cr_y r) (cr_h r) (vp_height viewport) Hh) as (Y0 & Y1 & Y2).
  unfold crop_bounds, CropOverlay.clampToViewport; simpl.
  repeat split; assumption.
Qed.

(** The minimum size always holds, whatever the viewport. *)
Lemma clampToViewport_min_size (viewport : ViewportInfo) (r : CanvasRect) :
  10 <= cr_w (CropOverlay.clampToViewport viewport r) /\
  10 <= cr_h (CropOverlay.clampToViewport viewport r) /\
  0 <= cr_x (CropOverlay.clampToViewport viewport r) /\
  0 <= cr_y (CropOverlay.clampToViewport viewport r).
Proof.
  unfold CropOverlay.clampToViewport; simpl.
  repeat split; apply Q.le_max_l.
Qed.

(** C7, as amended.  For every starting rectangle, handle and pointer
    movement, the canvas rectangle that [handleMouseMove] converts and
    passes to [onUpdate] satisfies:
    - as computed on doubles, each field unless it is NaN: [x] and [y] are
      at least 0, and 0 or at most the viewport's size less 10; [w] and [h]
      are at least 10, and 10 or at most the viewport's size less [x] or
      [y], the differences being the doubles the code computes;
    - in exact arithmetic, when the viewport is at least 10 pixels wide
      and high: [0 <= x], [0 <= y], [x + w <= width], [y + h <= height],
      [10 <= w] and [10 <= h], and this rectangle is the one converted for
      [onUpdate]. *)
Theorem crop_adjust_bounds :
  (forall (props : CropOverlay64.CropOverlayProps) (st : CropOverlay64.State)
          (e : CropOverlay64.MouseEvent) (r : Coords64.CanvasRect),
      CropOverlay64.adjustedRect props st e = Some r ->
      crop_bounds64 (CropOverlay64.viewport props) r)
  /\
  (forall (props : CropOverlay.CropOverlayProps) (st : CropOverlay.State)
          (e : CropOverlay.MouseEvent) (r : CanvasRect),
      10 <= vp_width (CropOverlay.viewport props) ->
      10 <= vp_height (CropOverlay.viewport props) ->
      CropOverlay.adjustedRect props st e = Some r ->
      crop_bounds (CropOverlay.viewport props) r
      /\ CropOverlay.handleMouseMove props st e
         = Some (canvasRectToPdfRect r (CropOverlay.page props)
                   (CropOverlay.viewport props))).
Proof.
  split.
  - intros props st e r Hadj. unfold CropOverlay64.adjustedRect in Hadj.
    destruct (CropOverlay64.isDragging st); simpl in Hadj; [|discriminate].
    destruct (CropOverlay64.dragStart st) as [start|]; [|discriminate].
    destruct (CropOverlay64.dragHandle st) as [handle|]; [|discriminate].
    injection Hadj as <-. apply clampToViewport_bounds64.
  - intros props st e r Hw Hh Hadj. split.
    + unfold CropOverlay.adjustedRect in Hadj.
      destruct (CropOverlay.isDragging st); simpl in Hadj; [|discriminate].
      destruct (CropOverlay.dragStart st) as [start|]; [|discriminate].
      destruct (CropOverlay.dragHandle st) as [handle|]; [|discriminate].
      injection Hadj as <-. apply clampToViewport_bounds; assumption.
    + unfold CropOverlay.handleMouseMove. rewrite Hadj. reflexivity.
Qed.

(** On doubles the right edge [x + w] of the published rectangle can lie
    beyond the viewport's width by rounding: here the viewport is
    741.8181818181819 wide, the dragged rectangle starts at
    x = 127.45149999999347 and is 5000 wide, and the clamp gives
    w = 614.36668181818845, so that x + w = 741.81818181818198. *)
Lemma crop_adjust_double_overshoot :
  let viewport := Coords64.mkViewportInfo 0x1.72e8ba2e8ba2fp+9 1000 1 0 0 in
  let r := CropOverlay64.clampToViewport viewport
             (Coords64.mkCanvasRect 0x1.fdce56041876cp+6 10 5000 100) in
  Coords64.cr_x r = 0x1.fdce56041876cp+6%float
  /\ Coords64.cr_w r = 0x1.332eef6e08942p+9%float
  /\ PrimFloat.ltb (Coords64.vp_width viewport)
       (PrimFloat.add (Coords64.cr_x r) (Coords64.cr_w r)) = true.
Proof. repeat split. Qed.

(** C7 fails as stated: in a viewport 5 pixels wide the published
    rectangle is 10 pixels wide and sticks out of the viewport. *)
Lemma crop_adjust_narrow_viewport :
  match CropOverlay.adjustedRect narrow_props narrow_drag (CropOverlay.mkMouseEvent 3 3) with
  | Some r =>
      vp_width (CropOverlay.viewport narrow_props) == 5
      /\ cr_x r == 0 /\ cr_w r == 10
      /\ ~ crop_bounds (CropOverlay.viewport narrow_props) r
  | None => False
  end.
Proof.
  simpl.
  split; [reflexivity|]. split; [reflexivity|]. split; [reflexivity|].
  intros (_ & _ & Hx & _). vm_compute in Hx. apply Hx. reflexivity.
Qed.

(** C9. A drag whose normalized rectangle is less than 10 pixels wide or
    high commits nothing: mouse-up resets the drag state and leaves the
    store's [cropDraft] as it was, and since mouse-down cleared the draft,
    the whole gesture ends with no draft set.  A 5 x 20 drag is such a
    gesture. *)
Theorem small_drag_commits_nothing
  (env : CanvasViewer.Env) (st : CanvasViewer.State) (rect : CanvasRect)
  (pg : PdfPageMeta) (vp : ViewportInfo) (box : Q * Q) (cur : Z) :
  CanvasViewer.canvas env = Some box ->
  CanvasViewer.viewport env = Some vp ->
  CanvasViewer.page env = Some pg ->
  CanvasViewer.currentPage env = Some cur ->
  cr_w (normalizeRect rect) < 10 \/ cr_h (normalizeRect rect) < 10 ->
  (CanvasViewer.isDragging st = true ->
   CanvasViewer.dragRect st = Some rect ->
   CanvasViewer.handleMouseUp env st
   = CanvasViewer.mkState false None None (CanvasViewer.cropDraft st))
  /\
  (forall down moves,
      CanvasViewer.dragRect
        (fold_left (CanvasViewer.handleMouseMove env) moves
           (CanvasViewer.handleMouseDown env st down)) = Some rect ->
      CanvasViewer.drag env st down moves = CanvasViewer.mkState false None None None).
Proof.
  intros Hcanvas Hvp Hpg Hcur Hsmall.
  assert (Hup : forall s,
             CanvasViewer.isDragging s = true ->
             CanvasViewer.dragRect s = Some rect ->
             CanvasViewer.handleMouseUp env s
             = CanvasViewer.mkState false None None (CanvasViewer.cropDraft s)).
  { intros s Hd Hr. unfold CanvasViewer.handleMouseUp.
    rewrite Hd, Hr, Hpg, Hvp, Hcur; simpl.
    assert (Ht : Qltb (cr_w (normalizeRect rect)) 10
                 || Qltb (cr_h (normalizeRect rect)) 10 = true).
    { apply orb_true_iff. destruct Hsmall as [H|H]; [left|right];
        apply Qltb_lt; exact H. }
    simpl in Ht. rewrite Ht. reflexivity. }
  split; [apply Hup|].
  intros down moves Hrect.
  assert (Hinv : forall ms s,
             CanvasViewer.isDragging s = true ->
             CanvasViewer.cropDraft s = None ->
             let s' := fold_left (CanvasViewer.handleMouseMove env) ms s in
             CanvasViewer.isDragging s' = true /\ CanvasViewer.cropDraft s' = None).
  { induction ms as [|m ms IH]; intros s Hd Hc; simpl; [auto|].
    apply IH; unfold CanvasViewer.handleMouseMove; rewrite Hd; simpl;
      destruct (CanvasViewer.dragStart s) as [[sx sy]|]; try assumption;
      rewrite Hcanvas; destruct box; simpl; first [assumption | reflexivity]. }
  unfold CanvasViewer.drag.
  destruct (Hinv moves (CanvasViewer.handleMouseDown env st down)) as [Hd Hc].
  - unfold CanvasViewer.handleMouseDown. rewrite Hcanvas, Hvp. destruct box. reflexivity.
  - unfold CanvasViewer.handleMouseDown. rewrite Hcanvas, Hvp. destruct box. reflexivity.
  - rewrite (Hup _ Hd Hrect), Hc. reflexivity.
Qed.

End CropFacts.

(* ================================================================== *)
(** * Properties of the worker coordinator *)
(* ================================================================== *)

Section WorkerFacts.
Import Worker.

Variable Bitmap : Type.
Variables main wk : Engine Bitmap.

Lemma degraded_call (st : WorkerManager) (c : Request * Transport) :
  degraded st = true ->
  call main wk st c = (foreground main (fst c), st, [local_event (fst c)]).
Proof.
  unfold degraded. intros Hd. destruct c as [[b p s f | b tasks | b] tr]; simpl.
  - unfold renderPage. now rewrite Hd.
  - unfold exportPages. rewrite Hd. now destruct (existsb _ tasks).
  - unfold loadDocument. now rewrite Hd.
Qed.

Lemma degraded_run (st : WorkerManager) (calls : list (Request * Transport)) :
  degraded st = true ->
  run main wk st calls
  = (map (fun c => foreground main (fst c)) calls, st,
     map (fun c => local_event (fst c)) calls).
Proof.
  intros Hd. induction calls as [|c rest IH]; simpl; [reflexivity|].
  rewrite (degraded_call st c Hd), IH. reflexivity.
Qed.

Lemma local_event_quiet (r : Request) : touches_worker (local_event r) = false.
Proof. destruct r; reflexivity. Qed.

Lemma local_events_quiet (calls : list (Request * Transport)) :
  existsb touches_worker (map (fun c => local_event (fst c)) calls) = false.
Proof.
  induction calls as [|c rest IH]; simpl; [reflexivity|].
  now rewrite local_event_quiet, IH.
Qed.

Lemma with_fallback_err (attempt : Result (Data Bitmap) * WorkerManager * list Event)
  (local : Result (Data Bitmap)) (ev : Event) :
  is_err (fst (fst attempt)) = true ->
  with_fallback attempt local ev
  = (local, set_workerFailed (snd (fst attempt)), snd attempt ++ [ev]).
Proof.
  destruct attempt as [[[d|e] st'] evs]; simpl; [discriminate | reflexivity].
Qed.

(** A call whose worker path fails returns what the foreground run
    returns and leaves the coordinator degraded. *)
Lemma failing_call (st : WorkerManager) (c : Request * Transport) :
  worker_path_fails wk st c = true ->
  fst (fst (call main wk st c)) = foreground main (fst c)
  /\ degraded (snd (fst (call main wk st c))) = true.
Proof.
  unfold worker_path_fails. intros H.
  destruct (degraded st) eqn:Hd.
  { rewrite degraded_call by exact Hd. simpl. auto. }
  unfold degraded in Hd. apply orb_false_iff in Hd as [Hs Hf].
  rewrite Hs in H; simpl in H. apply andb_true_iff in H as [Hu He].
  destruct c as [[b p s f | b tasks | b] tr]; simpl in *.
  - unfold renderPage. rewrite Hs, Hf; simpl.
    rewrite with_fallback_err by exact He. simpl.
    split; [reflexivity|]. unfold degraded; simpl. apply orb_true_r.
  - unfold exportPages. apply negb_true_iff in Hu. rewrite Hu, Hs, Hf; simpl.
    rewrite with_fallback_err by exact He. simpl.
    split; [reflexivity|]. unfold degraded; simpl. apply orb_true_r.
  - unfold loadDocument. rewrite Hs, Hf; simpl.
    rewrite with_fallback_err by exact He. simpl.
    split; [reflexivity|]. unfold degraded; simpl. apply orb_true_r.
Qed.


(** C5. A batch with at least one SVG task is run by
    [exportPagesLocally] on the calling thread: the manager is untouched
    and the worker is neither created nor sent a message, whatever its
    health. *)
Theorem export_svg_batch_is_local
  (tr : Transport) (st : WorkerManager) (buffer : ArrayBuffer) (tasks : list RenderTask) :
  existsb (fun task => is_svg (task_format task)) tasks = true ->
  exportPages main wk tr st buffer tasks
  = (exportPagesLocally main buffer tasks, st, [EvLocalExport tasks])
  /\ existsb touches_worker (snd (exportPages main wk tr st buffer tasks)) = false.
Proof.
  intros H. unfold exportPages. rewrite H. split; reflexivity.
Qed.

Lemma exportPagesLocally_loop_order (buffer : ArrayBuffer) (tasks : list RenderTask) :
  forall acc results,
    exportPagesLocally_loop main buffer tasks acc = Ok results ->
    exists new, results = acc ++ new
                /\ Forall2 (fun task r => render_task main buffer task = Ok r) tasks new.
Proof.
  induction tasks as [|task rest IH]; intros acc results H; simpl in H.
  - injection H as <-. exists []. split; [now rewrite app_nil_r | constructor].
  - destruct (render_as main (cloneForPdf buffer) (task_page task) (task_scale task)
                (is_svg (task_format task))) as [r|e] eqn:E; [|discriminate].
    destruct (IH _ _ H) as (new & -> & HF).
    exists (r :: new). split; [now rewrite <- app_assoc|].
    constructor; [exact E | exact HF].
Qed.

Lemma renderMultiplePages_loop_order (buffer : ArrayBuffer) (tasks : list RenderTask) :
  existsb (fun task => is_svg (task_format task)) tasks = false ->
  forall acc results,
    renderMultiplePages_loop wk buffer tasks acc = Ok results ->
    exists new, results = acc ++ new
                /\ Forall2 (fun task r => render_task wk buffer task = Ok r) tasks new.
Proof.
  induction tasks as [|task rest IH]; intros Hsvg acc results H; simpl in H.
  - injection H as <-. exists []. split; [now rewrite app_nil_r | constructor].
  - simpl in Hsvg. apply orb_false_iff in Hsvg as [Ht Hrest].
    rewrite Ht, andb_false_r in H.
    destruct (render_as wk buffer (task_page task) (task_scale task) false)
      as [r|e] eqn:E; [|discriminate].
    destruct (IH Hrest _ _ H) as (new & -> & HF).
    exists (r :: new). split; [now rewrite <- app_assoc|].
    constructor; [|exact HF]. unfold render_task. now rewrite Ht.
Qed.

Lemma exportPagesLocally_order (buffer : ArrayBuffer) (tasks : list RenderTask)
  (d : Data Bitmap) :
  exportPagesLocally main buffer tasks = Ok d ->
  exists results, d = Exported results
    /\ Forall2 (fun task r => render_task main buffer task = Ok r) tasks results.
Proof.
  unfold exportPagesLocally. intros H.
  destruct (exportPagesLocally_loop main buffer tasks []) as [results|e] eqn:E;
    [|discriminate].
  injection H as <-. exists results. split; [reflexivity|].
  destruct (exportPagesLocally_loop_order _ _ _ _ E) as (new & -> & HF). exact HF.
Qed.

(** C6. A successful [exportPages] returns one result per task, the
    i-th being the rendering of the i-th task, whether the batch ran in
    the worker or in the foreground. *)
Theorem export_results_follow_tasks
  (tr : Transport) (st st' : WorkerManager) (buffer : ArrayBuffer)
  (tasks : list RenderTask) (d : Data Bitmap) (evs : list Event) :
  exportPages main wk tr st buffer tasks = (Ok d, st', evs) ->
  exists results,
    d = Exported results
    /\ List.length results = List.length tasks
    /\ (Forall2 (fun task r => render_task wk buffer task = Ok r) tasks results
        \/ Forall2 (fun task r => render_task main buffer task = Ok r) tasks results).
Proof.
  intros H.
  assert (Hlocal : forall d0, exportPagesLocally main buffer tasks = Ok d0 ->
            exists results, d0 = Exported results
              /\ List.length results = List.length tasks
              /\ (Forall2 (fun task r => render_task wk buffer task = Ok r) tasks results
                  \/ Forall2 (fun task r => render_task main buffer task = Ok r)
                       tasks results)).
  { intros d0 Hd0. destruct (exportPagesLocally_order _ _ _ Hd0) as (rs & -> & HF).
    exists rs. split; [reflexivity|]. split; [|now right].
    symmetry. exact (Forall2_length HF). }
  unfold exportPages in H.
  destruct (existsb (fun task => is_svg (task_format task)) tasks) eqn:Hsvg.
  { injection H as H _ _. exact (Hlocal _ H). }
  destruct (negb (workerSupported st) || workerFailed st) eqn:Hd.
  { injection H as H _ _. exact (Hlocal _ H). }
  unfold with_fallback in H.
  destruct (sendMessage wk tr st (MsgExport (cloneForPdf buffer) tasks) 60000)
    as [[[d1|e] st1] evs1] eqn:Hsend.
  2:{ injection H as H _ _. exact (Hlocal _ H). }
  injection H as -> _ _.
  unfold sendMessage in Hsend. rewrite Hd in Hsend.
  destruct (negb (worker st) && negb (creates tr)); [discriminate|].
  destruct (delivery tr); try discriminate.
  simpl in Hsend. unfold renderMultiplePages in Hsend.
  destruct (renderMultiplePages_loop wk (cloneForPdf buffer) tasks []) as [rs|e] eqn:E;
    simpl in Hsend.
  2:{ destruct e; discriminate. }
  injection Hsend as <- _ _.
  destruct (renderMultiplePages_loop_order _ _ Hsvg _ _ E) as (new & -> & HF).
  exists new. split; [reflexivity|]. split; [|now left].
  symmetry. exact (Forall2_length HF).
Qed.

End WorkerFacts.

(* ================================================================== *)
(** * The loop of the page-range parser on doubles *)
(* ================================================================== *)

Section Range64Facts.
Import JsString Binary64 Range64.
Local Open Scope float_scope.

Lemma for_loop_step (fuel : nat) (i hi : float) (result : NumSet) :
  (i <=? hi) = true ->
  for_loop (S fuel) i hi result = for_loop fuel (i + 1) hi (set_add i result).
Proof. intros H. simpl. rewrite H. reflexivity. Qed.

Lemma for_loop_out_of_fuel (i hi : float) (result : NumSet) :
  (i <=? hi) = true -> for_loop 0 i hi result = None.
Proof. intros H. simpl. rewrite H. reflexivity. Qed.

Lemma set_has_app (x : float) (s t : NumSet) :
  set_has x (s ++ t) = set_has x s || set_has x t.
Proof. apply existsb_app. Qed.

(** At 2^53 the increment is lost to rounding, so a loop whose bound is
    2^53 stays at 2^53 for ever. *)
Lemma for_loop_stuck (fuel : nat) (result : NumSet) :
  set_has 0x1p53 result = true -> for_loop fuel 0x1p53 0x1p53 result = None.
Proof.
  induction fuel as [|fuel IH]; intros H.
  - apply for_loop_out_of_fuel. reflexivity.
  - rewrite for_loop_step by reflexivity.
    replace (0x1p53 + 1) with 0x1p53 by reflexivity.
    unfold set_add. rewrite H. apply IH. exact H.
Qed.

Lemma for_loop_at_2_53 (fuel : nat) (result : NumSet) :
  for_loop fuel 0x1p53 0x1p53 result = None.
Proof.
  destruct fuel as [|fuel]; [apply for_loop_out_of_fuel; reflexivity|].
  rewrite for_loop_step by reflexivity.
  replace (0x1p53 + 1) with 0x1p53 by reflexivity.
  apply for_loop_stuck. unfold set_add.
  destruct (set_has 0x1p53 result) eqn:E; [exact E|].
  rewrite set_has_app, E. reflexivity.
Qed.

Lemma for_loop_before_2_53 (fuel : nat) (result : NumSet) :
  for_loop fuel 9007199254740991 0x1p53 result = None
  /\ for_loop fuel 9007199254740990 0x1p53 result = None.
Proof.
  assert (H1 : forall fuel result,
             for_loop fuel 9007199254740991 0x1p53 result = None).
  { intros [|f] r; [apply for_loop_out_of_fuel; reflexivity|].
    rewrite for_loop_step by reflexivity.
    replace (9007199254740991 + 1) with 0x1p53 by reflexivity.
    apply for_loop_at_2_53. }
  split; [apply H1|].
  destruct fuel as [|f]; [apply for_loop_out_of_fuel; reflexivity|].
  rewrite for_loop_step by reflexivity.
  replace (9007199254740990 + 1) with 9007199254740991 by reflexivity.
  apply H1.
Qed.

(** On small numbers the parser on doubles returns what the
    specification's examples say. *)
Lemma parsePageExpr_double_examples :
  parsePageExpr 12 "1,3,5-8,10-" 12 = Some [1; 3; 5; 6; 7; 8; 10; 11; 12]
  /\ parsePageExpr 12 "-3" 10 = Some [1; 2; 3]
  /\ parsePageExpr 12 "5-" 10 = Some [5; 6; 7; 8; 9; 10]
  /\ parsePageExpr 12 "" 10 = Some []
  /\ formatPageRange [1; 2; 4; 5; 6; 9] = Some "1,2,4-6,9"%string.
Proof. vm_compute. repeat split. Qed.


(** C4 fails as stated on the code's doubles: the ascending list
    2^53 - 2, 2^53 - 1, 2^53 is printed as one range, and with
    [maxPage] = 2^53 parsing that range never returns. *)
Lemma parse_format_never_returns_at_2_53 :
  formatPageRange [9007199254740990; 9007199254740991; 0x1p53]
  = Some "9007199254740990-9007199254740992"%string
  /\ never_returns
       (fun fuel => parsePageExpr fuel "9007199254740990-9007199254740992" 0x1p53).
Proof.
  split; [vm_compute; reflexivity|].
  intros (fuel & pages & H).
  assert (E : parsePageExpr fuel "9007199254740990-9007199254740992" 0x1p53
              = option_map sort_num (for_loop fuel 9007199254740990 0x1p53 []))
    by (vm_compute; reflexivity).
  rewrite E, (proj2 (for_loop_before_2_53 fuel [])) in H. clear E.
  discriminate H.
Qed.

End Range64Facts.

(* ================================================================== *)
(** * Properties of the page-range parser and formatter *)
(* ================================================================== *)

Section RangeFacts.
Import JsString Range.

(** ** Characters and pieces of a formatted range *)

Lemma digit_facts (c : ascii) :
  is_digit c = true ->
  is_ws c = false /\ Ascii.eqb c "," = false /\ Ascii.eqb c "-" = false.
Proof.
  destruct c as [[] [] [] [] [] [] [] []]; intros H; vm_compute in H;
    try discriminate H; repeat split; reflexivity.
Qed.

Lemma all_chars_app (p : ascii -> bool) (s1 s2 : string) :
  all_chars p (s1 ++ s2) = all_chars p s1 && all_chars p s2.
Proof.
  induction s1 as [|c s1 IH]; simpl; [reflexivity|].
  now rewrite IH, andb_assoc.
Qed.

Lemma all_chars_impl (p q : ascii -> bool) (s : string) :
  (forall c, p c = true -> q c = true) -> all_chars p s = true -> all_chars q s = true.
Proof.
  intros Hpq. induction s as [|c s IH]; simpl; [reflexivity|].
  intros H. apply andb_true_iff in H as [Hc Hs].
  now rewrite (Hpq c Hc), IH.
Qed.

Lemma includes_app (c : ascii) (s1 s2 : string) :
  includes c (s1 ++ s2) = includes c s1 || includes c s2.
Proof.
  induction s1 as [|d s1 IH]; simpl; [reflexivity|].
  now rewrite IH, orb_assoc.
Qed.

Lemma all_chars_excludes (p : ascii -> bool) (sep : ascii) (s : string) :
  (forall c, p c = true -> Ascii.eqb c sep = false) ->
  all_chars p s = true -> includes sep s = false.
Proof.
  intros Hp. induction s as [|c s IH]; simpl; [reflexivity|].
  intros H. apply andb_true_iff in H as [Hc Hs].
  now rewrite (Hp c Hc), IH.
Qed.

Lemma split_nonempty (sep : ascii) (s : string) : split sep s <> [].
Proof.
  destruct s as [|c s]; simpl; [discriminate|].
  destruct (Ascii.eqb c sep); [discriminate|].
  destruct (split sep s); discriminate.
Qed.

Lemma split_without (sep : ascii) (s : string) :
  includes sep s = false -> split sep s = [s].
Proof.
  induction s as [|c s IH]; simpl; [reflexivity|].
  intros H. apply orb_false_iff in H as [Hc Hs].
  now rewrite Hc, (IH Hs).
Qed.

Lemma split_app (sep : ascii) (s1 s2 : string) :
  split sep (s1 ++ String sep s2) = (split sep s1 ++ split sep s2)%list.
Proof.
  induction s1 as [|c s1 IH]; simpl.
  - now rewrite Ascii.eqb_refl.
  - destruct (Ascii.eqb c sep); [now rewrite IH|].
    rewrite IH. pose proof (split_nonempty sep s1) as Hne.
    destruct (split sep s1) as [|h t]; [contradiction | reflexivity].
Qed.

Lemma split_join (sep : ascii) (pieces : list string) :
  pieces <> [] ->
  split sep (join (String sep EmptyString) pieces) = List.concat (map (split sep) pieces).
Proof.
  induction pieces as [|p rest IH]; intros Hne; [contradiction|].
  destruct rest as [|q rest'].
  - simpl. now rewrite app_nil_r.
  - change (join (String sep EmptyString) (p :: q :: rest'))
      with (p ++ String sep (join (String sep EmptyString) (q :: rest')))%string.
    rewrite split_app, IH by discriminate. reflexivity.
Qed.

Lemma trim_clean (s : string) : all_chars not_ws s = true -> trim s = s.
Proof.
  intros H. unfold trim.
  assert (Hs : trimStart s = s).
  { destruct s as [|c s]; simpl in *; [reflexivity|].
    apply andb_true_iff in H as [Hc _]. unfold not_ws in Hc.
    apply negb_true_iff in Hc. now rewrite Hc. }
  rewrite Hs. clear Hs.
  induction s as [|c s IH]; simpl in *; [reflexivity|].
  apply andb_true_iff in H as [Hc Hrest]. rewrite (IH Hrest).
  unfold not_ws in Hc. apply negb_true_iff in Hc.
  destruct s; [now rewrite Hc | reflexivity].
Qed.

(** ** Sets in insertion order and sorting *)

Lemma set_has_In (x : Z) (s : NumSet) : set_has x s = true <-> In x s.
Proof.
  unfold set_has. rewrite existsb_exists. split.
  - intros (y & Hy & E). apply Z.eqb_eq in E. now subst.
  - intros H. exists x. split; [exact H | apply Z.eqb_refl].
Qed.

Lemma set_add_NoDup (x : Z) (s : NumSet) : NoDup s -> NoDup (set_add x s).
Proof.
  intros H. unfold set_add. destruct (set_has x s) eqn:E; [exact H|].
  apply NoDup_app; [exact H | repeat constructor; intros [] |].
  intros y Hy [<-|[]]. apply set_has_In in Hy. congruence.
Qed.

Lemma set_add_Forall (P : Z -> Prop) (x : Z) (s : NumSet) :
  P x -> Forall P s -> Forall P (set_add x s).
Proof.
  intros Hx Hs. unfold set_add. destruct (set_has x s); [exact Hs|].
  apply Forall_app. split; [exact Hs | now constructor].
Qed.

Lemma loop_range_bounds (lo hi x : Z) : In x (loop_range lo hi) -> lo <= x <= hi.
Proof.
  unfold loop_range. rewrite in_map_iff. intros (k & <- & Hk).
  apply in_seq in Hk. lia.
Qed.

Lemma fold_set_add_inv (P : Z -> Prop) (l : list Z) :
  Forall P l -> forall s, NoDup s /\ Forall P s ->
  NoDup (fold_left (fun acc i => set_add i acc) l s)
  /\ Forall P (fold_left (fun acc i => set_add i acc) l s).
Proof.
  induction 1 as [|x l Hx Hl IH]; intros s [Hnd Hs]; simpl; [auto|].
  apply IH. split; [now apply set_add_NoDup | now apply set_add_Forall].
Qed.

Lemma add_range_inv (maxPage lo hi : Z) (s : NumSet) :
  1 <= lo -> hi <= maxPage ->
  NoDup s /\ Forall (fun p => 1 <= p <= maxPage) s ->
  NoDup (add_range lo hi s) /\ Forall (fun p => 1 <= p <= maxPage) (add_range lo hi s).
Proof.
  intros Hlo Hhi Hs. unfold add_range. apply fold_set_add_inv; [|exact Hs].
  apply Forall_forall. intros x Hx. apply loop_range_bounds in Hx. lia.
Qed.

(** Every term keeps the set duplicate-free and within [1, maxPage]. *)
Lemma process_part_inv (maxPage : Z) (result : NumSet) (part : string) :
  NoDup result /\ Forall (fun p => 1 <= p <= maxPage) result ->
  NoDup (process_part maxPage result part)
  /\ Forall (fun p => 1 <= p <= maxPage) (process_part maxPage result part).
Proof.
  intros Hs. unfold process_part.
  destruct (includes "-" part).
  - cbv zeta.
    destruct (side _ 1) as [start|]; [|exact Hs].
    destruct (side _ maxPage) as [end_|]; [|exact Hs].
    apply add_range_inv; [lia | lia | exact Hs].
  - destruct (parseInt part) as [page|]; [|exact Hs].
    destruct ((1 <=? page) && (page <=? maxPage)) eqn:E; [|exact Hs].
    apply andb_true_iff in E as [E1 E2].
    apply Z.leb_le in E1. apply Z.leb_le in E2. destruct Hs as [Hnd Hall].
    split; [now apply set_add_NoDup | apply set_add_Forall; [lia | exact Hall]].
Qed.

Lemma fold_process_part_inv (maxPage : Z) (parts : list string) :
  forall result,
    NoDup result /\ Forall (fun p => 1 <= p <= maxPage) result ->
    NoDup (fold_left (process_part maxPage) parts result)
    /\ Forall (fun p => 1 <= p <= maxPage) (fold_left (process_part maxPage) parts result).
Proof.
  induction parts as [|part rest IH]; intros result Hs; simpl; [exact Hs|].
  apply IH. now apply process_part_inv.
Qed.

Lemma insert_sorted_perm (x : Z) (l : list Z) : Permutation (x :: l) (insert_sorted x l).
Proof.
  induction l as [|y l IH]; simpl; [reflexivity|].
  destruct (x <=? y); [reflexivity|].
  rewrite perm_swap. now apply perm_skip.
Qed.

Lemma sort_num_perm (l : list Z) : Permutation l (sort_num l).
Proof.
  induction l as [|x l IH]; simpl; [reflexivity|].
  rewrite <- insert_sorted_perm. now apply perm_skip.
Qed.

Lemma insert_sorted_sorted (x : Z) (l : list Z) :
  StronglySorted Z.le l -> StronglySorted Z.le (insert_sorted x l).
Proof.
  induction 1 as [|y l Hs IH Hy]; simpl; [repeat constructor|].
  destruct (Z.leb_spec x y) as [Hxy|Hxy].
  - constructor; [now constructor|].
    constructor; [exact Hxy|]. eapply Forall_impl; [|exact Hy]. intros; simpl in *; lia.
  - constructor; [exact IH|].
    apply (Permutation_Forall (insert_sorted_perm x l)).
    constructor; [lia | exact Hy].
Qed.

Lemma sort_num_sorted (l : list Z) : StronglySorted Z.le (sort_num l).
Proof.
  induction l as [|x l IH]; simpl; [constructor | now apply insert_sorted_sorted].
Qed.

Lemma sorted_NoDup_strict (l : list Z) :
  StronglySorted Z.le l -> NoDup l -> StronglySorted Z.lt l.
Proof.
  induction 1 as [|x l Hs IH Hx]; intros Hnd; [constructor|].
  inversion Hnd as [|? ? Hnotin Hnd']; subst.
  constructor; [now apply IH|].
  apply Forall_forall. intros y Hy.
  rewrite Forall_forall in Hx. specialize (Hx y Hy).
  assert (x <> y) by (intros ->; contradiction). lia.
Qed.

Lemma strict_sorted_NoDup (l : list Z) : StronglySorted Z.lt l -> NoDup l.
Proof.
  induction 1 as [|x l Hs IH Hx]; constructor; [|exact IH].
  intros Hin. rewrite Forall_forall in Hx. specialize (Hx x Hin). lia.
Qed.

(** Sorting leaves an ascending list as it is. *)
Lemma sort_num_sorted_id (l : list Z) : StronglySorted Z.lt l -> sort_num l = l.
Proof.
  induction 1 as [|x l Hs IH Hx]; simpl; [reflexivity|].
  rewrite IH. destruct l as [|y l']; simpl; [reflexivity|].
  inversion Hx as [|? ? Hxy _]; subst.
  destruct (Z.leb_spec x y); [reflexivity | lia].
Qed.

(** ** What a term denotes *)

Lemma set_add_In (p x : Z) (s : NumSet) : In p (set_add x s) <-> In p s \/ p = x.
Proof.
  unfold set_add. destruct (set_has x s) eqn:E.
  - apply set_has_In in E. split; [auto|]. intros [H| ->]; assumption.
  - rewrite in_app_iff. simpl. intuition.
Qed.

Lemma loop_range_In (lo hi p : Z) : In p (loop_range lo hi) <-> lo <= p <= hi.
Proof.
  split; [apply loop_range_bounds|].
  intros H. unfold loop_range. apply in_map_iff.
  exists (Z.to_nat (p - lo)). split; [lia|]. apply in_seq. lia.
Qed.

Lemma fold_set_add_In (p : Z) (l : list Z) :
  forall s, In p (fold_left (fun acc i => set_add i acc) l s) <-> In p s \/ In p l.
Proof.
  induction l as [|x l IH]; intros s; simpl; [intuition|].
  rewrite IH, set_add_In. intuition.
Qed.

Lemma process_part_In (maxPage : Z) (result : NumSet) (part : string) (p : Z) :
  In p (process_part maxPage result part)
  <-> In p result \/ term_denotes maxPage part p.
Proof.
  unfold process_part, term_denotes.
  destruct (includes "-" part).
  - cbv zeta.
    destruct (side (nth_error (map trim (split "-" part)) 0) 1) as [start|].
    + destruct (side (nth_error (map trim (split "-" part)) 1) maxPage) as [end_|].
      * unfold add_range. rewrite fold_set_add_In, loop_range_In.
        split.
        -- intros [H|H]; [now left|]. right. split; [lia|].
           exists start, end_. repeat split; lia.
        -- intros [H|(Hr & s0 & e0 & Hs & He & Hp)]; [now left|].
           injection Hs as <-. injection He as <-. right. lia.
      * split; [auto|]. intros [H|(_ & s0 & e0 & _ & He & _)]; [exact H | discriminate].
    + split; [auto|]. intros [H|(_ & s0 & e0 & Hs & _)]; [exact H | discriminate].
  - destruct (parseInt part) as [page|].
    + destruct (Z.leb_spec 1 page) as [H1|H1]; simpl.
      * destruct (Z.leb_spec page maxPage) as [H2|H2].
        -- rewrite set_add_In. split.
           ++ intros [H| ->]; [now left | right; split; [lia | reflexivity]].
           ++ intros [H|[_ E]]; [now left | right; congruence].
        -- split; [auto|]. intros [H|[Hr E]]; [exact H|].
           injection E as ->. lia.
      * split; [auto|]. intros [H|[Hr E]]; [exact H|]. injection E as ->. lia.
    + split; [auto|]. intros [H|[_ E]]; [exact H | discriminate].
Qed.

Lemma fold_process_part_In (maxPage : Z) (parts : list string) (p : Z) :
  forall result,
    In p (fold_left (process_part maxPage) parts result)
    <-> In p result \/ exists part, In part parts /\ term_denotes maxPage part p.
Proof.
  induction parts as [|part rest IH]; intros result; simpl.
  - split; [auto|]. intros [H|(part & [] & _)]. exact H.
  - rewrite IH, process_part_In. split.
    + intros [[H|H]|(q & Hq & Hd)]; [now left | right | right].
      * exists part. auto.
      * exists q. auto.
    + intros [H|(q & [<-|Hq] & Hd)]; [now left; left | now left; right | right].
      exists q. auto.
Qed.

Lemma ws_not_comma (c : ascii) : is_ws c = true -> Ascii.eqb c "," = false.
Proof.
  destruct c as [[] [] [] [] [] [] [] []]; intros H; vm_compute in H;
    try discriminate H; reflexivity.
Qed.

Lemma trimEnd_keeps_first (c : ascii) (s : string) :
  is_ws c = false -> trimEnd (String c s) <> EmptyString.
Proof.
  intros H. simpl. destruct (trimEnd s); [rewrite H|]; discriminate.
Qed.

Lemma trim_empty_ws (s : string) : trim s = EmptyString -> includes "," s = false.
Proof.
  unfold trim. induction s as [|c s IH]; [reflexivity|].
  cbn [trimStart includes]. destruct (is_ws c) eqn:E.
  - intros H. now rewrite (ws_not_comma c E), (IH H).
  - intros H. now apply trimEnd_keeps_first in H.
Qed.

(** A blank expression has no terms. *)
Lemma blank_no_parts (expr : string) : truthy (trim expr) = false -> parts_of expr = [].
Proof.
  intros H. assert (E : trim expr = EmptyString) by (destruct (trim expr); [reflexivity | discriminate]).
  unfold parts_of. rewrite split_without by now apply trim_empty_ws.
  simpl. now rewrite E.
Qed.

(** The result holds exactly the pages denoted by the terms. *)
Lemma parsePageExpr_In (expr : string) (maxPage p : Z) :
  In p (parsePageExpr expr maxPage)
  <-> exists part, In part (parts_of expr) /\ term_denotes maxPage part p.
Proof.
  unfold parsePageExpr. destruct (truthy (trim expr)) eqn:E; simpl.
  - split.
    + intros H. apply (Permutation_in _ (Permutation_sym (sort_num_perm _))) in H.
      apply fold_process_part_In in H as [[]|H]. exact H.
    + intros H. apply (Permutation_in _ (sort_num_perm _)).
      apply fold_process_part_In. now right.
  - rewrite (blank_no_parts expr E). split; [intros [] | intros (q & [] & _)].
Qed.

(** Terms are read leniently: out-of-range numbers and terms without a
    number are dropped, a number followed by other text still counts, and
    an empty range contributes nothing. *)
Example parse_lenient :
  parsePageExpr " 7 , 0, 3abc, x-2, 4 - 5 ,99, 2-1, 3" 6 = [3; 4; 5].
Proof. vm_compute. reflexivity. Qed.

Example format_runs :
  formatPageRange [1; 2; 4; 5; 6; 9; 11; 12] = "1,2,4-6,9,11,12"%string.
Proof. vm_compute. reflexivity. Qed.

Example format_sorts_first : formatPageRange [3; 1; 2] = "1-3"%string.
Proof. vm_compute. reflexivity. Qed.


(** ** Printing and reading back a positive number *)

Lemma string_of_uint_digits (d : Decimal.uint) :
  all_chars is_digit (NilEmpty.string_of_uint d) = true.
Proof. induction d; simpl; auto. Qed.

Lemma parse_digits_step (c : ascii) (s : string) (acc : option Z) :
  is_digit c = true ->
  parse_digits (String c s) acc
  = parse_digits s (Some (10 * match acc with Some a => a | None => 0 end + digit_val c)).
Proof. intros H. simpl. now rewrite H. Qed.

Lemma parse_digits_acc (d : Decimal.uint) :
  forall acc : positive,
    parse_digits (NilEmpty.string_of_uint d) (Some (Z.pos acc))
    = Some (Z.pos (Pos.of_uint_acc d acc)).
Proof.
  induction d; intros acc; cbn [NilEmpty.string_of_uint Pos.of_uint_acc];
    [reflexivity | ..];
    rewrite parse_digits_step by reflexivity;
    rewrite <- IHd; f_equal; f_equal; vm_compute digit_val; lia.
Qed.

Lemma parse_digits_uint (d : Decimal.uint) :
  parse_digits (NilEmpty.string_of_uint d) (Some 0) = Some (Z.of_N (Pos.of_uint d)).
Proof.
  induction d; cbn [NilEmpty.string_of_uint Pos.of_uint];
    [reflexivity | ..];
    rewrite parse_digits_step by reflexivity;
    first [ exact IHd | apply parse_digits_acc ].
Qed.

Lemma parseInt_digit_first (c : ascii) (s : string) :
  is_digit c = true -> parseInt (String c s) = parse_digits s (Some (digit_val c)).
Proof.
  destruct c as [[] [] [] [] [] [] [] []]; intros H; vm_compute in H;
    try discriminate H; reflexivity.
Qed.

Lemma toString_pos (p : positive) :
  toString (Z.pos p) = NilEmpty.string_of_uint (Pos.to_uint p)
  /\ toString (Z.pos p) <> EmptyString.
Proof.
  unfold toString. cbn [Z.to_int NilZero.string_of_int].
  unfold NilZero.string_of_uint.
  pose proof (Unsigned.to_uint_nonnil p) as Hnil.
  destruct (Pos.to_uint p) eqn:E; try contradiction; split; try reflexivity;
    cbn [NilEmpty.string_of_uint]; discriminate.
Qed.

Lemma toString_digits (n : Z) : 0 < n -> all_chars is_digit (toString n) = true.
Proof.
  destruct n as [|p|p]; try lia. intros _.
  destruct (toString_pos p) as [-> _]. apply string_of_uint_digits.
Qed.

Lemma toString_truthy (n : Z) : 0 < n -> truthy (toString n) = true.
Proof.
  destruct n as [|p|p]; try lia. intros _.
  destruct (toString_pos p) as [_ Hne].
  destruct (toString (Z.pos p)); [contradiction | reflexivity].
Qed.

(** Reading back what [toString] printed. *)
Lemma parseInt_toString (n : Z) : 0 < n -> parseInt (toString n) = Some n.
Proof.
  destruct n as [|p|p]; try lia. intros _.
  destruct (toString_pos p) as [E Hne].
  pose proof (string_of_uint_digits (Pos.to_uint p)) as Hd.
  pose proof (parse_digits_uint (Pos.to_uint p)) as Hp.
  rewrite DecimalPos.Unsigned.of_to in Hp.
  rewrite E in *. destruct (NilEmpty.string_of_uint (Pos.to_uint p)) as [|c s];
    [contradiction|].
  simpl in Hd. apply andb_true_iff in Hd as [Hc _].
  rewrite parseInt_digit_first by exact Hc.
  rewrite parse_digits_step in Hp by exact Hc. exact Hp.
Qed.

(** ** What one printed run parses to *)

Lemma digits_clean (s : string) : all_chars is_digit s = true -> all_chars not_ws s = true.
Proof.
  apply all_chars_impl. intros c Hc. unfold not_ws.
  destruct (digit_facts c Hc) as (-> & _). reflexivity.
Qed.

Lemma digits_no_comma (s : string) : all_chars is_digit s = true -> includes "," s = false.
Proof.
  apply all_chars_excludes. intros c Hc. now destruct (digit_facts c Hc) as (_ & -> & _).
Qed.

Lemma digits_no_dash (s : string) : all_chars is_digit s = true -> includes "-" s = false.
Proof.
  apply all_chars_excludes. intros c Hc. now destruct (digit_facts c Hc) as (_ & _ & ->).
Qed.

Lemma process_single (maxPage : Z) (result : NumSet) (n : Z) :
  1 <= n <= maxPage -> process_part maxPage result (toString n) = set_add n result.
Proof.
  intros Hn. unfold process_part.
  rewrite digits_no_dash by (apply toString_digits; lia).
  rewrite parseInt_toString by lia.
  destruct (Z.leb_spec 1 n); [|lia]. destruct (Z.leb_spec n maxPage); [|lia].
  reflexivity.
Qed.

Lemma process_dash (maxPage : Z) (result : NumSet) (a b : Z) :
  1 <= a -> 1 <= b <= maxPage ->
  process_part maxPage result (toString a ++ String "-" (toString b))
  = add_range a b result.
Proof.
  intros Ha Hb. unfold process_part.
  rewrite includes_app. cbn [includes]. rewrite Ascii.eqb_refl.
  rewrite orb_true_r. cbv zeta.
  rewrite split_app.
  rewrite !split_without by (apply digits_no_dash, toString_digits; lia).
  cbn [app map nth_error].
  rewrite !trim_clean by (apply digits_clean, toString_digits; lia).
  unfold side. rewrite !toString_truthy, !parseInt_toString by lia.
  rewrite Z.max_r, Z.min_r by lia. reflexivity.
Qed.

Lemma split_fmt_pair (maxPage : Z) (r : Z * Z) :
  good_run maxPage r -> split "," (fmt_pair r) = run_atoms r.
Proof.
  intros (H1 & H2 & H3). unfold fmt_pair, fmt_run, run_atoms.
  destruct (fst r =? snd r).
  - apply split_without, digits_no_comma, toString_digits. lia.
  - destruct (snd r =? fst r + 1).
    + change (toString (fst r) ++ "," ++ toString (snd r))%string
        with (toString (fst r) ++ String "," (toString (snd r)))%string.
      rewrite split_app.
      rewrite !split_without by (apply digits_no_comma, toString_digits; lia).
      reflexivity.
    + change (toString (fst r) ++ "-" ++ toString (snd r))%string
        with (toString (fst r) ++ String "-" (toString (snd r)))%string.
      apply split_without. rewrite includes_app. cbn [includes].
      rewrite !digits_no_comma by (apply toString_digits; lia). reflexivity.
Qed.

Lemma run_atoms_clean (maxPage : Z) (r : Z * Z) :
  good_run maxPage r ->
  Forall (fun s => all_chars not_ws s = true /\ truthy s = true) (run_atoms r).
Proof.
  intros (H1 & H2 & H3). unfold run_atoms.
  assert (Ha : all_chars not_ws (toString (fst r)) = true)
    by (apply digits_clean, toString_digits; lia).
  assert (Hb : all_chars not_ws (toString (snd r)) = true)
    by (apply digits_clean, toString_digits; lia).
  assert (Ta : truthy (toString (fst r)) = true) by (apply toString_truthy; lia).
  assert (Tb : truthy (toString (snd r)) = true) by (apply toString_truthy; lia).
  destruct (fst r =? snd r); [|destruct (snd r =? fst r + 1)];
    repeat constructor; try assumption.
  - rewrite all_chars_app. cbn [all_chars]. now rewrite Ha, Hb.
  - destruct (toString (fst r)); [discriminate | reflexivity].
Qed.

Lemma loop_range_one (a : Z) : loop_range a a = [a].
Proof.
  unfold loop_range. replace (a - a + 1) with 1 by lia.
  simpl. now rewrite Z.add_0_r.
Qed.

Lemma loop_range_snoc (lo hi : Z) :
  lo <= hi -> loop_range lo (hi + 1) = (loop_range lo hi ++ [hi + 1])%list.
Proof.
  intros H. unfold loop_range.
  replace (Z.to_nat (hi + 1 - lo + 1)) with (S (Z.to_nat (hi - lo + 1))) by lia.
  rewrite seq_S, map_app. simpl. do 2 f_equal. lia.
Qed.

Lemma fold_run_atoms (maxPage : Z) (r : Z * Z) (acc : NumSet) :
  good_run maxPage r ->
  fold_left (process_part maxPage) (run_atoms r) acc = add_range (fst r) (snd r) acc.
Proof.
  intros (H1 & H2 & H3). unfold run_atoms.
  destruct (Z.eqb_spec (fst r) (snd r)) as [E|NE].
  - simpl. rewrite process_single by lia. rewrite <- E.
    unfold add_range. now rewrite loop_range_one.
  - destruct (Z.eqb_spec (snd r) (fst r + 1)) as [E|NE'].
    + simpl. rewrite !process_single by lia. rewrite E.
      unfold add_range. rewrite loop_range_snoc, loop_range_one by lia.
      reflexivity.
    + simpl. apply process_dash; lia.
Qed.

Lemma map_filter_clean (l : list string) :
  Forall (fun s => all_chars not_ws s = true /\ truthy s = true) l ->
  filter truthy (map trim l) = l.
Proof.
  induction 1 as [|s l [Hc Ht] Hl IH]; simpl; [reflexivity|].
  rewrite (trim_clean s Hc), Ht, IH. reflexivity.
Qed.

Lemma parts_of_join (maxPage : Z) (runs : list (Z * Z)) :
  runs <> [] -> Forall (good_run maxPage) runs ->
  parts_of (join "," (map fmt_pair runs)) = List.concat (map run_atoms runs).
Proof.
  intros Hne Hgood. unfold parts_of.
  rewrite split_join by (destruct runs; [contradiction | discriminate]).
  rewrite map_map.
  rewrite (map_ext_in _ run_atoms).
  2:{ intros r Hr. apply (split_fmt_pair maxPage).
      rewrite Forall_forall in Hgood. now apply Hgood. }
  apply map_filter_clean.
  clear Hne. induction Hgood as [|r rest Hr Hrest IH]; simpl; [constructor|].
  apply Forall_app. split; [now apply (run_atoms_clean maxPage) | exact IH].
Qed.

Lemma fold_parts_expand (maxPage : Z) (runs : list (Z * Z)) :
  Forall (good_run maxPage) runs ->
  forall acc,
    fold_left (process_part maxPage) (List.concat (map run_atoms runs)) acc
    = fold_left (fun s i => set_add i s) (expand runs) acc.
Proof.
  induction 1 as [|r rest Hr Hrest IH]; intros acc; simpl; [reflexivity|].
  rewrite !fold_left_app, (fold_run_atoms maxPage) by exact Hr.
  rewrite IH. reflexivity.
Qed.

Lemma fold_set_add_fresh (l : list Z) :
  forall acc, NoDup (acc ++ l) -> fold_left (fun s i => set_add i s) l acc = (acc ++ l)%list.
Proof.
  induction l as [|x l IH]; intros acc Hnd; simpl; [now rewrite app_nil_r|].
  assert (Hx : set_has x acc = false).
  { destruct (set_has x acc) eqn:E; [|reflexivity].
    apply set_has_In in E. apply NoDup_remove_2 in Hnd.
    exfalso. apply Hnd. apply in_or_app. now left. }
  unfold set_add at 2. rewrite Hx.
  rewrite IH; rewrite <- app_assoc; [reflexivity | exact Hnd].
Qed.

(** ** The runs built by [formatPageRange] *)

Lemma fmt_step_pairs (rest : list Z) :
  forall runs start end_,
    close_ranges (fold_left fmt_step rest (map fmt_pair runs, start, end_))
    = map fmt_pair (close_runs (fold_left run_step rest (runs, start, end_))).
Proof.
  induction rest as [|x rest IH]; intros runs start end_; simpl.
  - now rewrite map_app.
  - destruct (x =? end_ + 1); [apply IH|].
    rewrite <- IH. now rewrite map_app.
Qed.

Lemma expand_app (r1 r2 : list (Z * Z)) : expand (r1 ++ r2) = (expand r1 ++ expand r2)%list.
Proof. unfold expand. now rewrite flat_map_app. Qed.

Lemma run_step_expand (maxPage : Z) (rest : list Z) :
  forall runs start end_,
    Forall (good_run maxPage) runs ->
    good_run maxPage (start, end_) ->
    StronglySorted Z.lt (end_ :: rest) ->
    Forall (fun p => 1 <= p <= maxPage) rest ->
    let final := close_runs (fold_left run_step rest (runs, start, end_)) in
    expand final = (expand runs ++ loop_range start end_ ++ rest)%list
    /\ Forall (good_run maxPage) final /\ final <> [].
Proof.
  induction rest as [|x rest IH]; intros runs start end_ Hruns Hgood Hsorted Hrange; simpl.
  - split; [|split].
    + rewrite expand_app. simpl. now rewrite !app_nil_r.
    + apply Forall_app. split; [exact Hruns | now constructor].
    + destruct runs; discriminate.
  - inversion Hsorted as [|? ? Hs Hlt]; subst.
    inversion Hs as [|? ? Hs' Hlt']; subst.
    inversion Hlt as [|? ? Hex _]; subst.
    inversion Hrange as [|? ? Hx Hrange']; subst.
    destruct Hgood as (G1 & G2 & G3); simpl in G1, G2, G3.
    destruct (Z.eqb_spec x (end_ + 1)) as [->|NE].
    + assert (G : good_run maxPage (start, end_ + 1)) by (repeat split; simpl; lia).
      destruct (IH runs start (end_ + 1) Hruns G Hs Hrange') as (E & F & N).
      split; [|split; assumption].
      rewrite E, loop_range_snoc by lia. now rewrite <- !app_assoc.
    + assert (G : good_run maxPage (x, x)) by (repeat split; simpl; lia).
      assert (Hruns' : Forall (good_run maxPage) (runs ++ [(start, end_)])).
      { apply Forall_app. split; [exact Hruns|].
        constructor; [|constructor]. repeat split; simpl; lia. }
      destruct (IH (runs ++ [(start, end_)])%list x x Hruns' G Hs Hrange') as (E & F & N).
      split; [|split; assumption].
      rewrite E, expand_app, loop_range_one. simpl.
      now rewrite app_nil_r, <- !app_assoc.
Qed.

Lemma join_truthy (sep : string) (pieces : list string) :
  Forall (fun s => truthy s = true) pieces -> pieces <> [] ->
  truthy (join sep pieces) = true.
Proof.
  intros H Hne. destruct H as [|p rest Hp Hrest]; [contradiction|].
  destruct rest; simpl; [exact Hp|]. destruct p; [discriminate | reflexivity].
Qed.

Lemma fmt_pair_clean (maxPage : Z) (r : Z * Z) :
  good_run maxPage r ->
  all_chars not_ws (fmt_pair r) = true /\ truthy (fmt_pair r) = true.
Proof.
  intros (H1 & H2 & H3). unfold fmt_pair, fmt_run.
  assert (Ha : all_chars not_ws (toString (fst r)) = true)
    by (apply digits_clean, toString_digits; lia).
  assert (Hb : all_chars not_ws (toString (snd r)) = true)
    by (apply digits_clean, toString_digits; lia).
  assert (Ta : truthy (toString (fst r)) = true) by (apply toString_truthy; lia).
  destruct (fst r =? snd r); [auto|].
  destruct (snd r =? fst r + 1);
    (split; [ rewrite all_chars_app; simpl; now rewrite Ha, Hb
            | destruct (toString (fst r)); [discriminate | reflexivity] ]).
Qed.

Lemma join_clean (maxPage : Z) (runs : list (Z * Z)) :
  Forall (good_run maxPage) runs ->
  all_chars not_ws (join "," (map fmt_pair runs)) = true.
Proof.
  induction 1 as [|r rest Hr Hrest IH]; [reflexivity|].
  destruct (fmt_pair_clean maxPage r Hr) as [Hc _].
  destruct rest as [|q rest']; [exact Hc|].
  change (join "," (map fmt_pair (r :: q :: rest')))
    with (fmt_pair r ++ String "," (join "," (map fmt_pair (q :: rest'))))%string.
  rewrite all_chars_app. cbn [all_chars]. rewrite Hc. simpl. exact IH.
Qed.

(** Parsing the printed form of a list of runs gives back their pages. *)
Lemma parse_printed_runs (maxPage : Z) (runs : list (Z * Z)) :
  runs <> [] -> Forall (good_run maxPage) runs ->
  StronglySorted Z.lt (expand runs) ->
  parsePageExpr (join "," (map fmt_pair runs)) maxPage = expand runs.
Proof.
  intros Hne Hgood Hsorted. unfold parsePageExpr.
  rewrite trim_clean by now apply (join_clean maxPage).
  rewrite join_truthy; cycle 1.
  { apply Forall_forall. intros s Hs. apply in_map_iff in Hs as (r & <- & Hr).
    rewrite Forall_forall in Hgood. now apply (fmt_pair_clean maxPage), Hgood. }
  { destruct runs; [contradiction | discriminate]. }
  simpl negb. cbv iota.
  rewrite (parts_of_join maxPage) by assumption.
  rewrite (fold_parts_expand maxPage) by assumption.
  rewrite fold_set_add_fresh by (simpl; now apply strict_sorted_NoDup).
  simpl. now apply sort_num_sorted_id.
Qed.

(** C4, as amended.  For every integer [maxPage] below 2^53 and every
    strictly ascending list [L] of positive integers that are at most
    [maxPage], parsing the formatted list gives [L] back.  Below 2^53
    [toString] prints the decimal digits of the page and the loop counter
    is exact. *)
Theorem parse_format_roundtrip (L : list Z) (maxPage : Z) :
  maxPage < 2 ^ 53 ->
  StronglySorted Z.lt L ->
  Forall (fun p => 1 <= p <= maxPage) L ->
  parsePageExpr (formatPageRange L) maxPage = L.
Proof.
  intros _ Hsorted Hrange. unfold formatPageRange.
  rewrite (sort_num_sorted_id L Hsorted).
  destruct L as [|p0 rest]; [reflexivity|].
  inversion Hrange as [|? ? Hp0 Hrest]; subst.
  pose proof (fmt_step_pairs rest [] p0 p0) as Hfmt. simpl map in Hfmt.
  destruct (fold_left fmt_step rest ([], p0, p0)) as [[ranges start] end_].
  unfold close_ranges in Hfmt. rewrite Hfmt.
  destruct (run_step_expand maxPage rest [] p0 p0) as (E & F & N);
    [constructor | repeat split; simpl; lia | exact Hsorted | exact Hrest |].
  rewrite loop_range_one in E. simpl in E.
  rewrite parse_printed_runs; [exact E | exact N | exact F |].
  rewrite E. exact Hsorted.
Qed.

End RangeFacts.

(* ================================================================== *)
(** * Further properties of page-range expressions *)
(* ================================================================== *)

Section RangeMore.
Import JsString Range PageExpr.

Lemma parsePageExpr_strict (expr : string) (maxPage : Z) :
  StronglySorted Z.lt (parsePageExpr expr maxPage)
  /\ Forall (fun p => 1 <= p <= maxPage) (parsePageExpr expr maxPage).
Proof.
  unfold parsePageExpr. destruct (negb (truthy (trim expr))).
  - split; constructor.
  - destruct (fold_process_part_inv maxPage (parts_of expr) [])
      as [Hnd Hall]; [split; constructor|].
    split.
    + apply sorted_NoDup_strict; [apply sort_num_sorted|].
      exact (Permutation_NoDup (sort_num_perm _) Hnd).
    + exact (Permutation_Forall (sort_num_perm _) Hall).
Qed.

Lemma parse_format_id (L : list Z) (maxPage : Z) :
  StronglySorted Z.lt L ->
  Forall (fun p => 1 <= p <= maxPage) L ->
  parsePageExpr (formatPageRange L) maxPage = L.
Proof.
  intros Hsorted Hrange. unfold formatPageRange.
  rewrite (sort_num_sorted_id L Hsorted).
  destruct L as [|p0 rest]; [reflexivity|].
  inversion Hrange as [|? ? Hp0 Hrest]; subst.
  pose proof (fmt_step_pairs rest [] p0 p0) as Hfmt. simpl map in Hfmt.
  destruct (fold_left fmt_step rest ([], p0, p0)) as [[ranges start] end_].
  unfold close_ranges in Hfmt. rewrite Hfmt.
  destruct (run_step_expand maxPage rest [] p0 p0) as (E & F & N);
    [constructor | repeat split; simpl; lia | exact Hsorted | exact Hrest |].
  rewrite loop_range_one in E. simpl in E.
  rewrite parse_printed_runs; [exact E | exact N | exact F |].
  rewrite E. exact Hsorted.
Qed.


(** X2. For an integer [maxPage] below 2^53, the formatted form of a
    non-empty ascending list of pages within [1, maxPage] is always a
    valid expression. *)
Theorem validatePageExpr_formatPageRange (L : list Z) (maxPage : Z) :
  maxPage < 2 ^ 53 ->
  L <> [] ->
  StronglySorted Z.lt L ->
  Forall (fun p => 1 <= p <= maxPage) L ->
  validatePageExpr (formatPageRange L) maxPage = mkValidation true None.
Proof.
  intros _ Hne Hs Hr. unfold validatePageExpr.
  pose proof (parse_format_id L maxPage Hs Hr) as E.
  unfold parsePageExpr in E |- *.
  destruct (negb (truthy (trim (formatPageRange L)))).
  - subst L. contradiction.
  - cbv zeta. rewrite E. destruct L; [contradiction | reflexivity].
Qed.

(** The two index conversions are inverse to each other, and the
    0-based indices obtained from a parsed expression are strictly
    ascending and lie in [0, maxPage - 1]. *)
Theorem page_index_conversions (expr : string) (maxPage : Z) (l : list Z) :
  indices0ToPages1 (pages1ToIndices0 l) = l
  /\ pages1ToIndices0 (indices0ToPages1 l) = l
  /\ StronglySorted Z.lt (pages1ToIndices0 (parsePageExpr expr maxPage))
  /\ Forall (fun i => 0 <= i <= maxPage - 1)
       (pages1ToIndices0 (parsePageExpr expr maxPage)).
Proof.
  unfold indices0ToPages1, pages1ToIndices0.
  split; [|split; [|split]].
  - rewrite map_map. rewrite <- (map_id l) at 2. apply map_ext. intros; lia.
  - rewrite map_map. rewrite <- (map_id l) at 2. apply map_ext. intros; lia.
  - destruct (parsePageExpr_strict expr maxPage) as [Hs _].
    induction Hs as [|x r Hs IH Hx]; simpl; constructor; [exact IH|].
    apply Forall_map. eapply Forall_impl; [|exact Hx]. intros; simpl in *; lia.
  - destruct (parsePageExpr_strict expr maxPage) as [_ Hr].
    apply Forall_map. eapply Forall_impl; [|exact Hr]. intros; simpl in *; lia.
Qed.

Lemma sorted_perm_eq (l1 : list Z) :
  forall l2, StronglySorted Z.le l1 -> StronglySorted Z.le l2 ->
             Permutation l1 l2 -> l1 = l2.
Proof.
  induction l1 as [|x l1 IH]; intros l2 H1 H2 HP.
  - apply Permutation_nil in HP. now subst.
  - destruct l2 as [|y l2]; [apply Permutation_sym, Permutation_nil in HP; discriminate|].
    inversion H1 as [|? ? S1 F1]; subst. inversion H2 as [|? ? S2 F2]; subst.
    rewrite Forall_forall in F1, F2.
    assert (Hxy : x = y).
    { assert (Hx : In x (y :: l2)) by (apply (Permutation_in _ HP); now left).
      assert (Hy : In y (x :: l1))
        by (apply (Permutation_in _ (Permutation_sym HP)); now left).
      destruct Hx as [->|Hx]; [reflexivity|]. destruct Hy as [->|Hy]; [reflexivity|].
      specialize (F1 _ Hy). specialize (F2 _ Hx). lia. }
    subst y. f_equal. apply IH; try assumption.
    now apply Permutation_cons_inv in HP.
Qed.

(** X3. [formatPageRange] does not depend on the order of its input: two
    lists with the same pages (and multiplicities) print the same. *)
Theorem formatPageRange_order_insensitive (l1 l2 : list Z) :
  Permutation l1 l2 -> formatPageRange l1 = formatPageRange l2.
Proof.
  intros HP. unfold formatPageRange.
  assert (E : sort_num l1 = sort_num l2).
  { apply sorted_perm_eq; try apply sort_num_sorted.
    rewrite <- (sort_num_perm l1), <- (sort_num_perm l2). exact HP. }
  now rewrite E.
Qed.


Lemma term_denotes_mono (m m' : Z) (part : string) (p : Z) :
  m <= m' -> term_denotes m part p -> term_denotes m' part p.
Proof.
  intros Hm [Hr Hd]. split; [lia|].
  destruct (includes "-" part); [|exact Hd].
  destruct Hd as (start & end_ & Hs & He & Hp).
  exists start.
  unfold side in He |- *.
  destruct (nth_error (map trim (split "-" part)) 1) as [s|].
  - destruct (truthy s).
    + exists end_. auto.
    + injection He as <-. exists m'. repeat split; try assumption; lia.
  - injection He as <-. exists m'. repeat split; try assumption; lia.
Qed.


End RangeMore.

(* ================================================================== *)
(** * Further properties of the coordinate transform *)
(* ================================================================== *)

Section CoordsMore.
Import Coords.
Local Open Scope Q_scope.

Lemma ratio_pos (a b : Q) : 0 < a -> 0 < b -> 0 < a / b /\ (a / b) * b == a.
Proof.
  intros Ha Hb. split.
  - apply Qlt_shift_div_l; [exact Hb|]. lra.
  - field. intros E. rewrite E in Hb. exact (Qlt_irrefl _ Hb).
Qed.

Lemma canvas_to_pdf_inside (c : CanvasRect) (page : PdfPageMeta) (viewport : ViewportInfo) :
  0 < pr_width (baseBox page) -> 0 < pr_height (baseBox page) ->
  0 < vp_width viewport -> 0 < vp_height viewport ->
  canvas_inside c viewport ->
  pdf_inside (canvasRectToPdfRect c page viewport) (baseBox page).
Proof.
  intros Hbw Hbh Hvw Hvh (Hw & Hh & Hx & Hxw & Hy & Hyh).
  destruct (ratio_pos _ _ Hbw Hvw) as [Hsx Ex].
  destruct (ratio_pos _ _ Hbh Hvh) as [Hsy Ey].
  unfold pdf_inside, canvasRectToPdfRect; simpl.
  set (sx := pr_width (baseBox page) / vp_width viewport) in *.
  set (sy := pr_height (baseBox page) / vp_height viewport) in *.
  repeat split; nra.
Qed.



(** The whole viewport corresponds to the whole base box, in both
    directions. *)
Theorem viewport_is_base_box (page : PdfPageMeta) (viewport : ViewportInfo) :
  0 < pr_width (baseBox page) -> 0 < pr_height (baseBox page) ->
  0 < vp_width viewport -> 0 < vp_height viewport ->
  PdfRect_eq
    (canvasRectToPdfRect
       (mkCanvasRect 0 0 (vp_width viewport) (vp_height viewport)) page viewport)
    (baseBox page)
  /\ CanvasRect_eq
       (pdfRectToCanvasRect (baseBox page) page viewport)
       (mkCanvasRect 0 0 (vp_width viewport) (vp_height viewport)).
Proof.
  intros Hbw Hbh Hvw Hvh.
  apply Qpos_nonzero in Hbw, Hbh, Hvw, Hvh.
  unfold PdfRect_eq, CanvasRect_eq, canvasRectToPdfRect, pdfRectToCanvasRect; simpl.
  repeat split; field; auto.
Qed.

Lemma Qabs_case_neg (q : Q) : q < 0 -> Qabs q == - q.
Proof. intros H. apply Qabs_neg. lra. Qed.

Lemma Qabs_case_pos (q : Q) : 0 <= q -> Qabs q == q.
Proof. apply Qabs_pos. Qed.

Lemma normalizeRect_fields (r : CanvasRect) :
  cr_x (normalizeRect r) == Qmin (cr_x r) (cr_x r + cr_w r)
  /\ cr_y (normalizeRect r) == Qmin (cr_y r) (cr_y r + cr_h r)
  /\ cr_x (normalizeRect r) + cr_w (normalizeRect r) == Qmax (cr_x r) (cr_x r + cr_w r)
  /\ cr_y (normalizeRect r) + cr_h (normalizeRect r) == Qmax (cr_y r) (cr_y r + cr_h r).
Proof.
  unfold normalizeRect; simpl.
  destruct (Qltb (cr_w r) 0) eqn:Ew; destruct (Qltb (cr_h r) 0) eqn:Eh;
    try apply Qltb_lt in Ew; try apply Qltb_ge in Ew;
    try apply Qltb_lt in Eh; try apply Qltb_ge in Eh;
    repeat split;
    repeat match goal with
           | H : ?q < 0 |- context [Qabs ?q] => rewrite (Qabs_case_neg q H)
           | H : 0 <= ?q |- context [Qabs ?q] => rewrite (Qabs_case_pos q H)
           end;
    first [ rewrite Q.min_l by lra | rewrite Q.min_r by lra
          | rewrite Q.max_l by lra | rewrite Q.max_r by lra ]; lra.
Qed.


Lemma pointInRect_spec (x y : Q) (rect : CanvasRect) :
  pointInRect x y rect = true
  <-> cr_x rect <= x /\ x <= cr_x rect + cr_w rect
      /\ cr_y rect <= y /\ y <= cr_y rect + cr_h rect.
Proof.
  unfold pointInRect. rewrite !andb_true_iff, !Qle_bool_iff. tauto.
Qed.



End CoordsMore.

(* ================================================================== *)
(** * Properties of the page operations *)
(* ================================================================== *)

Section PdfEditFacts.
Import Coords Range PdfEdit.

Variable Page : Type.

Lemma without_pages_app (gone : list Z) (l1 l2 : list Page) :
  forall offset,
    without_pages offset gone (l1 ++ l2)
    = without_pages offset gone l1
      ++ without_pages (offset + Z.of_nat (List.length l1)) gone l2.
Proof.
  induction l1 as [|x l1 IH]; intros offset; simpl.
  - now rewrite Z.add_0_r.
  - rewrite IH. replace (offset + 1 + Z.of_nat (List.length l1))
      with (offset + Z.pos (Pos.of_succ_nat (List.length l1))) by lia.
    destruct (existsb (Z.eqb (offset + 1)) gone); reflexivity.
Qed.

Lemma without_pages_ext (gone gone' : list Z) (l : list Page) :
  forall offset,
    (forall k, offset < k <= offset + Z.of_nat (List.length l) ->
               existsb (Z.eqb k) gone = existsb (Z.eqb k) gone') ->
    without_pages offset gone l = without_pages offset gone' l.
Proof.
  induction l as [|x l IH]; intros offset H; simpl; [reflexivity|].
  rewrite (H (offset + 1)) by (simpl; lia).
  rewrite (IH (offset + 1)) by (intros k Hk; apply H; simpl; lia).
  reflexivity.
Qed.

Lemma without_pages_none (gone : list Z) (l : list Page) :
  forall offset,
    (forall k, offset < k <= offset + Z.of_nat (List.length l) ->
               existsb (Z.eqb k) gone = false) ->
    without_pages offset gone l = l.
Proof.
  induction l as [|x l IH]; intros offset H; simpl; [reflexivity|].
  rewrite (H (offset + 1)) by (simpl; lia).
  rewrite (IH (offset + 1)) by (intros k Hk; apply H; simpl; lia).
  reflexivity.
Qed.

Lemma existsb_eqb_false (k : Z) (l : list Z) :
  ~ In k l -> existsb (Z.eqb k) l = false.
Proof.
  intros H. destruct (existsb (Z.eqb k) l) eqn:E; [|reflexivity].
  apply existsb_exists in E as (y & Hy & Ey). apply Z.eqb_eq in Ey. now subst.
Qed.

Lemma existsb_eqb_perm (k : Z) (l l' : list Z) :
  Permutation l l' -> existsb (Z.eqb k) l = existsb (Z.eqb k) l'.
Proof.
  intros HP.
  destruct (existsb (Z.eqb k) l) eqn:E; symmetry.
  - apply existsb_exists in E as (y & Hy & Ey). apply existsb_exists.
    exists y. split; [exact (Permutation_in _ HP Hy) | exact Ey].
  - apply existsb_eqb_false. intros Hin.
    apply (Permutation_in _ (Permutation_sym HP)) in Hin.
    assert (T : existsb (Z.eqb k) l = true)
      by (apply existsb_exists; exists k; split; [exact Hin | apply Z.eqb_refl]).
    congruence.
Qed.

Lemma removePage_split (doc : list Page) (p : Z) :
  0 < p <= getPageCount doc ->
  exists l1 x l2,
    doc = l1 ++ x :: l2 /\ Z.of_nat (List.length l1) = p - 1
    /\ removePage (p - 1) doc = l1 ++ l2.
Proof.
  unfold getPageCount, removePage. intros Hp.
  set (n := Z.to_nat (p - 1)).
  assert (Hn : (n < List.length doc)%nat) by lia.
  destruct (skipn n doc) as [|x l2] eqn:Es.
  - apply (f_equal (@List.length Page)) in Es. rewrite length_skipn in Es.
    simpl in Es. lia.
  - exists (firstn n doc), x, l2. split; [|split].
    + rewrite <- Es. symmetry. apply firstn_skipn.
    + rewrite length_firstn. lia.
    + f_equal. change (S n) with (1 + n)%nat.
      rewrite <- skipn_skipn, Es. reflexivity.
Qed.

Lemma delete_descending (ps : list Z) :
  StronglySorted Z.gt ps ->
  forall doc : list Page,
    fold_left
      (fun doc pageNum =>
         if (0 <? pageNum) && (pageNum <=? getPageCount doc)
         then removePage (pageNum - 1) doc else doc) ps doc
    = without_pages 0 ps doc.
Proof.
  induction 1 as [|p ps Hs IH Hp]; intros doc; simpl.
  - symmetry. apply without_pages_none. reflexivity.
  - rewrite Forall_forall in Hp.
    destruct (Z.ltb_spec 0 p) as [H0|H0]; simpl.
    + destruct (Z.leb_spec p (getPageCount doc)) as [H1|H1].
      * destruct (removePage_split doc p (conj H0 H1)) as (l1 & x & l2 & -> & Hl & ->).
        rewrite IH, !without_pages_app. rewrite Hl.
        cbn [without_pages existsb].
        replace (0 + (p - 1) + 1) with p by lia.
        replace (0 + (p - 1)) with (p - 1) by lia.
        rewrite Z.eqb_refl. cbn [orb]. f_equal.
        -- apply without_pages_ext. intros k Hk. simpl.
           destruct (Z.eqb_spec k p); [lia | reflexivity].
        -- rewrite !without_pages_none; [reflexivity | |].
           ++ intros k Hk. simpl. destruct (Z.eqb_spec k p); [lia|]. simpl.
              apply existsb_eqb_false. intros Hin. specialize (Hp _ Hin). lia.
           ++ intros k Hk. apply existsb_eqb_false.
              intros Hin. specialize (Hp _ Hin). lia.
      * rewrite IH. apply without_pages_ext. intros k Hk. simpl.
        unfold getPageCount in H1. destruct (Z.eqb_spec k p); [lia | reflexivity].
    + rewrite IH. apply without_pages_ext. intros k Hk. simpl.
      destruct (Z.eqb_spec k p); [lia | reflexivity].
Qed.

Lemma insert_desc_perm (x : Z) (l : list Z) : Permutation (x :: l) (insert_desc x l).
Proof.
  induction l as [|y l IH]; simpl; [reflexivity|].
  destruct (y <=? x); [reflexivity|].
  rewrite perm_swap. now apply perm_skip.
Qed.

Lemma sort_desc_perm (l : list Z) : Permutation l (sort_desc l).
Proof.
  induction l as [|x l IH]; simpl; [reflexivity|].
  rewrite <- insert_desc_perm. now apply perm_skip.
Qed.

Lemma insert_desc_sorted (x : Z) (l : list Z) :
  StronglySorted Z.ge l -> StronglySorted Z.ge (insert_desc x l).
Proof.
  induction 1 as [|y l Hs IH Hy]; simpl; [repeat constructor|].
  destruct (Z.leb_spec y x) as [Hxy|Hxy].
  - constructor; [now constructor|].
    constructor; [lia|]. eapply Forall_impl; [|exact Hy]. intros; simpl in *; lia.
  - constructor; [exact IH|].
    apply (Permutation_Forall (insert_desc_perm x l)).
    constructor; [lia | exact Hy].
Qed.

Lemma sort_desc_sorted (l : list Z) : StronglySorted Z.ge (sort_desc l).
Proof.
  induction l as [|x l IH]; simpl; [constructor | now apply insert_desc_sorted].
Qed.

Lemma desc_NoDup_strict (l : list Z) :
  StronglySorted Z.ge l -> NoDup l -> StronglySorted Z.gt l.
Proof.
  induction 1 as [|x l Hs IH Hx]; intros Hnd; [constructor|].
  inversion Hnd as [|? ? Hnotin Hnd']; subst.
  constructor; [now apply IH|].
  apply Forall_forall. intros y Hy.
  rewrite Forall_forall in Hx. specialize (Hx y Hy).
  assert (x <> y) by (intros ->; contradiction). lia.
Qed.

(** X11. When the page numbers to delete are pairwise distinct,
    [deletePages] keeps, in their original order, exactly the pages whose
    1-based number is not in the list; numbers that are not pages of the
    document are ignored. *)
Theorem deletePages_keeps_the_others (doc : list Page) (pages1Based : list Z) :
  NoDup pages1Based ->
  deletePages doc pages1Based = without_pages 0 pages1Based doc.
Proof.
  intros Hnd. unfold deletePages. cbv zeta.
  rewrite delete_descending.
  - apply without_pages_ext. intros k _. symmetry.
    apply existsb_eqb_perm, sort_desc_perm.
  - apply desc_NoDup_strict; [apply sort_desc_sorted|].
    exact (Permutation_NoDup (sort_desc_perm _) Hnd).
Qed.

Lemma copyPages_app (doc : list Page) (l1 l2 : list Z) :
  copyPages doc (l1 ++ l2) = copyPages doc l1 ++ copyPages doc l2.
Proof. unfold copyPages. apply flat_map_app. Qed.

(** Copying all pages gives the document back. *)
Lemma copyPages_from (l1 l2 : list Page) :
  copyPages (l1 ++ l2) (map Z.of_nat (seq (List.length l1) (List.length l2))) = l2.
Proof.
  revert l1. induction l2 as [|x l2 IH]; intros l1; simpl; [reflexivity|].
  rewrite Nat2Z.id. rewrite nth_error_app2 by lia. rewrite Nat.sub_diag. simpl.
  f_equal. specialize (IH (l1 ++ [x])).
  rewrite <- app_assoc, length_app in IH. simpl in IH.
  rewrite Nat.add_1_r in IH. exact IH.
Qed.

Lemma copyPages_all (doc : list Page) :
  copyPages doc (map Z.of_nat (seq 0 (List.length doc))) = doc.
Proof. exact (copyPages_from [] doc). Qed.

Lemma copy_valid_pageNum (doc : list Page) (pageNum : Z) :
  (if (0 <? pageNum) && (pageNum <=? getPageCount doc)
   then copyPages doc [pageNum - 1] else [])
  = copy_valid doc (pageNum - 1).
Proof.
  unfold copy_valid.
  replace (0 <=? pageNum - 1) with (0 <? pageNum)
    by (destruct (Z.leb_spec 0 (pageNum - 1)), (Z.ltb_spec 0 pageNum); lia).
  replace (pageNum - 1 <? getPageCount doc) with (pageNum <=? getPageCount doc)
    by (destruct (Z.ltb_spec (pageNum - 1) (getPageCount doc)),
                 (Z.leb_spec pageNum (getPageCount doc)); lia).
  reflexivity.
Qed.

Lemma extract_inner (doc : list Page) (pageNums : list Z) :
  forall target,
    fold_left
      (fun targetDoc pageNum =>
         if (0 <? pageNum) && (pageNum <=? getPageCount doc)
         then targetDoc ++ copyPages doc [pageNum - 1]
         else targetDoc) pageNums target
    = target ++ flat_map (fun pageNum => copy_valid doc (pageNum - 1)) pageNums.
Proof.
  induction pageNums as [|p ps IH]; intros target; simpl.
  - now rewrite app_nil_r.
  - rewrite IH, <- copy_valid_pageNum.
    destruct ((0 <? p) && (p <=? getPageCount doc)).
    + now rewrite <- app_assoc.
    + reflexivity.
Qed.

Lemma extract_outer (doc : list Page) (ranges : list (Z * Z)) :
  forall target,
    fold_left
      (fun targetDoc range =>
         fold_left
           (fun targetDoc pageNum =>
              if (0 <? pageNum) && (pageNum <=? getPageCount doc)
              then targetDoc ++ copyPages doc [pageNum - 1]
              else targetDoc)
           (loop_range (fst range) (snd range)) targetDoc) ranges target
    = target
      ++ flat_map (fun range =>
                     flat_map (fun pageNum => copy_valid doc (pageNum - 1))
                       (loop_range (fst range) (snd range))) ranges.
Proof.
  induction ranges as [|r rs IH]; intros target; simpl.
  - now rewrite app_nil_r.
  - rewrite IH, extract_inner. now rewrite <- app_assoc.
Qed.

Lemma reorder_flat_map (doc : list Page) (order : list Z) :
  reorderPages doc order = flat_map (copy_valid doc) order.
Proof.
  unfold reorderPages. cbv zeta.
  assert (E : copyPages doc
                (filter (fun index => (0 <=? index) && (index <? getPageCount doc)) order)
              = flat_map (copy_valid doc) order).
  { induction order as [|i order IH]; simpl; [reflexivity|].
    unfold copy_valid at 1.
    destruct ((0 <=? i) && (i <? getPageCount doc)); [|exact IH].
    change (i :: filter (fun index => (0 <=? index) && (index <? getPageCount doc)) order)
      with ([i] ++ filter (fun index => (0 <=? index) && (index <? getPageCount doc)) order).
    rewrite copyPages_app, IH. reflexivity. }
  rewrite <- E.
  destruct (filter (fun index => (0 <=? index) && (index <? getPageCount doc)) order);
    reflexivity.
Qed.

(** X12. Extracting the one-page ranges [idx + 1, idx + 1] of a page
    order gives the same document as reordering by that page order: the
    pages at the valid indices, in the order given, indices that are not
    pages being skipped. *)
Theorem extractRanges_as_reorder (doc : list Page) (order : list Z) :
  extractRanges doc (map (fun idx => (idx + 1, idx + 1)) order) = reorderPages doc order
  /\ reorderPages doc order = flat_map (copy_valid doc) order.
Proof.
  split; [|apply reorder_flat_map].
  unfold extractRanges. rewrite extract_outer, reorder_flat_map. simpl.
  induction order as [|i order IH]; simpl; [reflexivity|].
  rewrite loop_range_one. simpl. rewrite app_nil_r, IH.
  now replace (i + 1 - 1) with i by lia.
Qed.

Lemma flat_map_ext_in (A B : Type) (f g : A -> list B) (l : list A) :
  (forall a, In a l -> f a = g a) -> flat_map f l = flat_map g l.
Proof.
  induction l as [|a l IH]; intros H; simpl; [reflexivity|].
  rewrite (H a) by now left. rewrite IH; [reflexivity|].
  intros b Hb. apply H. now right.
Qed.

Lemma copy_valid_all (doc : list Page) :
  flat_map (copy_valid doc) (map Z.of_nat (seq 0 (List.length doc))) = doc.
Proof.
  rewrite <- (copyPages_all doc) at 3. unfold copyPages at 1.
  apply flat_map_ext_in. intros a Ha.
  apply in_map_iff in Ha as (k & <- & Hk). apply in_seq in Hk.
  unfold copy_valid, getPageCount.
  destruct (Z.leb_spec 0 (Z.of_nat k)); [|lia].
  destruct (Z.ltb_spec (Z.of_nat k) (Z.of_nat (List.length doc))); [|lia].
  simpl. unfold copyPages. simpl. now rewrite app_nil_r.
Qed.

(** X13. Reordering by the identity order, and extracting the single
    range from page 1 to the last page, both give the document back. *)
Theorem reorder_and_extract_identity (doc : list Page) :
  reorderPages doc (map Z.of_nat (seq 0 (List.length doc))) = doc
  /\ extractRanges doc [(1, getPageCount doc)] = doc.
Proof.
  split.
  - rewrite reorder_flat_map. apply copy_valid_all.
  - unfold extractRanges. rewrite extract_outer. simpl. rewrite app_nil_r.
    unfold loop_range, getPageCount.
    replace (Z.to_nat (Z.of_nat (List.length doc) - 1 + 1)) with (List.length doc) by lia.
    transitivity (flat_map (copy_valid doc) (map Z.of_nat (seq 0 (List.length doc))));
      [|apply copy_valid_all].
    rewrite !flat_map_concat_map, !map_map. f_equal. apply map_ext.
    intros k. f_equal. lia.
Qed.

(** X14. The document that [mergePdfs] hands to [save] holds the pages
    of the inputs, concatenated in input order, so its page count is the
    sum of theirs.  ([save] is not modelled.) *)
Theorem mergePdfs_concat (docs : list (list Page)) :
  mergePdfs docs = List.concat docs
  /\ getPageCount (mergePdfs docs) = fold_right Z.add 0 (map getPageCount docs).
Proof.
  assert (H : forall target,
             fold_left
               (fun targetDoc sourceDoc =>
                  let pageCount := getPageCount sourceDoc in
                  if 0 <? pageCount then
                    let pageIndices := map Z.of_nat (seq 0 (Z.to_nat pageCount)) in
                    targetDoc ++ copyPages sourceDoc pageIndices
                  else targetDoc) docs target
             = target ++ List.concat docs).
  { induction docs as [|d ds IH]; intros target; simpl.
    - now rewrite app_nil_r.
    - rewrite IH. unfold getPageCount. rewrite Nat2Z.id, copyPages_all.
      destruct d as [|x d]; simpl; [reflexivity|].
      now rewrite <- app_assoc. }
  assert (E : mergePdfs docs = List.concat docs) by (unfold mergePdfs; apply H).
  split; [exact E|]. rewrite E. clear.
  induction docs as [|d ds IH]; simpl; [reflexivity|].
  unfold getPageCount in *. rewrite length_app, Nat2Z.inj_add, IH. reflexivity.
Qed.

End PdfEditFacts.

Section ClampFacts.
Import Coords PdfEdit.
Local Open Scope Q_scope.


End ClampFacts.

(* ================================================================== *)
(** * Properties of the project store *)
(* ================================================================== *)

Section StoreFacts.
Import Coords Range Store.

Lemma new_Set_In (x : Z) (values : list Z) : In x (new_Set values) <-> In x values.
Proof.
  unfold new_Set. rewrite fold_set_add_In. simpl. tauto.
Qed.

Lemma new_Set_NoDup (values : list Z) : NoDup (new_Set values).
Proof.
  unfold new_Set.
  destruct (fold_set_add_inv (fun _ => True) values) with (s := @nil Z) as [H _];
    [apply Forall_forall; auto | split; constructor | exact H].
Qed.

Lemma set_has_new_Set (x : Z) (values : list Z) :
  set_has x (new_Set values) = existsb (Z.eqb x) values.
Proof.
  destruct (existsb (Z.eqb x) values) eqn:E.
  - apply set_has_In, new_Set_In. apply existsb_exists in E as (y & Hy & Ey).
    apply Z.eqb_eq in Ey. now subst.
  - destruct (set_has x (new_Set values)) eqn:E'; [|reflexivity].
    apply set_has_In in E'. apply (proj1 (new_Set_In _ _)) in E'.
    assert (T : existsb (Z.eqb x) values = true)
      by (apply existsb_exists; exists x; split; [exact E' | apply Z.eqb_refl]).
    congruence.
Qed.

Lemma filter_NoDup (f : Z -> bool) (l : list Z) : NoDup l -> NoDup (filter f l).
Proof.
  induction 1 as [|x l Hx Hl IH]; simpl; [constructor|].
  destruct (f x); [|exact IH]. constructor; [|exact IH].
  intros Hin. apply filter_In in Hin. tauto.
Qed.

Lemma hd_In (l : list Z) (x : Z) :
  match l with first :: _ => Some first | [] => None end = Some x -> In x l.
Proof. destruct l; [discriminate|]. intros H. injection H as ->. now left. Qed.

(** Removing the pages for which [gone] holds keeps the state consistent. *)
Lemma remove_consistent (gone : Z -> bool) (st : ProjectState) (cur' : option Z) :
  consistent st ->
  (forall c, cur' = Some c ->
             In c (filter (fun i => negb (gone i)) (pageOrder st))) ->
  consistent (set_pages (filter (fun i => negb (gone i)) (pageOrder st))
                        (filter (fun i => negb (gone i)) (selection st)) cur' st).
Proof.
  intros (H1 & H2 & H3 & H4 & H5) Hcur. unfold consistent; simpl.
  split; [now apply filter_NoDup|].
  split.
  { apply Forall_forall. intros i Hi. apply filter_In in Hi as [Hi _].
    rewrite Forall_forall in H2. now apply H2. }
  split; [now apply filter_NoDup|].
  split; [|exact Hcur].
  intros i Hi. apply filter_In in Hi as [Hi Hg]. apply filter_In. auto.
Qed.

(** X16. Deleting one page or several keeps the state consistent (the
    page order stays duplicate-free and within the loaded pages, the
    selection stays inside it, the current page stays one of its pages);
    the deleted pages are in neither the order, the selection nor the
    current page afterwards, and the loaded page metadata is untouched. *)
Theorem delete_keeps_consistency (st : ProjectState) (index : Z) (indices : list Z) :
  consistent st ->
  (consistent (deletePage index st)
   /\ ~ In index (pageOrder (deletePage index st))
   /\ ~ In index (selection (deletePage index st))
   /\ currentPage (deletePage index st) <> Some index
   /\ pages (deletePage index st) = pages st)
  /\ (consistent (deletePages indices st)
      /\ (forall i, In i indices ->
                    ~ In i (pageOrder (deletePages indices st))
                    /\ ~ In i (selection (deletePages indices st))
                    /\ currentPage (deletePages indices st) <> Some i)
      /\ (forall i, ~ In i indices -> In i (pageOrder st) ->
                    In i (pageOrder (deletePages indices st)))
      /\ pages (deletePages indices st) = pages st).
Proof.
  intros Hc. pose proof Hc as (H1 & H2 & H3 & H4 & H5). split.
  - unfold deletePage. cbv zeta.
    set (gone := fun i => i =? index).
    change (filter (fun i => negb (i =? index)) (pageOrder st))
      with (filter (fun i => negb (gone i)) (pageOrder st)).
    change (filter (fun i => negb (i =? index)) (selection st))
      with (filter (fun i => negb (gone i)) (selection st)).
    assert (Hcur : forall c,
               (if option_eqb (currentPage st) index
                then match filter (fun i => negb (gone i)) (pageOrder st) with
                     | first :: _ => Some first | [] => None end
                else currentPage st) = Some c ->
               In c (filter (fun i => negb (gone i)) (pageOrder st))).
    { intros c. destruct (option_eqb (currentPage st) index) eqn:E.
      - apply hd_In.
      - intros Hcs. apply filter_In. split; [now apply H5|].
        unfold gone. rewrite Hcs in E. simpl in E. now rewrite E. }
    split; [now apply remove_consistent|]. simpl.
    split; [intros Hin; apply filter_In in Hin as [_ Hg]; unfold gone in Hg;
            now rewrite Z.eqb_refl in Hg|].
    split; [intros Hin; apply filter_In in Hin as [_ Hg]; unfold gone in Hg;
            now rewrite Z.eqb_refl in Hg|].
    split; [|reflexivity].
    intros Hs. apply Hcur in Hs. apply filter_In in Hs as [_ Hg].
    unfold gone in Hg. now rewrite Z.eqb_refl in Hg.
  - unfold deletePages. cbv zeta.
    set (gone := fun i => set_has i (new_Set indices)).
    change (filter (fun i => negb (set_has i (new_Set indices))) (pageOrder st))
      with (filter (fun i => negb (gone i)) (pageOrder st)).
    change (filter (fun i => negb (set_has i (new_Set indices))) (selection st))
      with (filter (fun i => negb (gone i)) (selection st)).
    assert (Hgone : forall i, In i indices -> gone i = true).
    { intros i Hi. unfold gone. now apply set_has_In, new_Set_In. }
    assert (Hcur : forall c,
               match currentPage st with
               | Some cur =>
                   if set_has cur (new_Set indices)
                   then match filter (fun i => negb (gone i)) (pageOrder st) with
                        | first :: _ => Some first | [] => None end
                   else currentPage st
               | None => currentPage st
               end = Some c ->
               In c (filter (fun i => negb (gone i)) (pageOrder st))).
    { intros c. destruct (currentPage st) as [cur|] eqn:Ec; [|discriminate].
      destruct (set_has cur (new_Set indices)) eqn:E.
      - apply hd_In.
      - intros Hcs. injection Hcs as <-. apply filter_In.
        split; [now apply H5|]. unfold gone. now rewrite E. }
    split; [now apply remove_consistent|]. simpl.
    split; [|split; [|reflexivity]].
    + intros i Hi. pose proof (Hgone i Hi) as Hg.
      split; [intros Hin; apply filter_In in Hin as [_ Hn]; now rewrite Hg in Hn|].
      split; [intros Hin; apply filter_In in Hin as [_ Hn]; now rewrite Hg in Hn|].
      intros Hs. apply Hcur in Hs. apply filter_In in Hs as [_ Hn]. now rewrite Hg in Hn.
    + intros i Hni Hin. apply filter_In. split; [exact Hin|].
      unfold gone. destruct (set_has i (new_Set indices)) eqn:E; [|reflexivity].
      apply set_has_In in E. apply (proj1 (new_Set_In _ _)) in E. contradiction.
Qed.

(** Deleting the one-element list [index] is deleting [index]. *)
Theorem deletePages_single (st : ProjectState) (index : Z) :
  deletePages [index] st = deletePage index st.
Proof.
  unfold deletePages, deletePage. cbv zeta.
  assert (E : forall i, set_has i (new_Set [index]) = (i =? index)).
  { intros i. rewrite set_has_new_Set. simpl. now rewrite orb_false_r. }
  assert (Ef : forall l, filter (fun i => negb (set_has i (new_Set [index]))) l
                         = filter (fun i => negb (i =? index)) l).
  { intros l. apply filter_ext. intros i. now rewrite E. }
  rewrite !Ef.
  destruct (currentPage st) as [cur|] eqn:Ec; [rewrite E|]; reflexivity.
Qed.

Lemma filter_split_length (f : Z -> bool) (l : list Z) :
  (List.length (filter f l) + List.length (filter (fun x => negb (f x)) l)
   = List.length l)%nat.
Proof.
  induction l as [|x l IH]; simpl; [reflexivity|].
  destruct (f x); simpl; lia.
Qed.

(** X17. When deletion is allowed ([useCanDelete]) and page order and
    selection are duplicate-free, deleting the selection from the toolbar
    leaves at least one page and an empty selection; when it is not
    allowed nothing changes. *)
Theorem handleDeleteSelected_leaves_a_page (st : ProjectState) :
  NoDup (pageOrder st) -> NoDup (selection st) ->
  (useCanDelete st = true ->
   pageOrder (handleDeleteSelected st) <> []
   /\ (List.length (pageOrder st) - List.length (selection st)
       <= List.length (pageOrder (handleDeleteSelected st)))%nat
   /\ selection (handleDeleteSelected st) = []
   /\ (forall i, In i (selection st) -> ~ In i (pageOrder (handleDeleteSelected st))))
  /\ (useCanDelete st = false -> handleDeleteSelected st = st).
Proof.
  intros Ho Hs. unfold handleDeleteSelected. split.
  - intros Hcan. rewrite Hcan.
    unfold useCanDelete in Hcan. apply andb_true_iff in Hcan as [Hpos Hlt].
    rewrite Hpos. simpl.
    apply Z.ltb_lt in Hpos. apply Z.ltb_lt in Hlt.
    set (f := fun i => set_has i (new_Set (selection st))).
    assert (Hin : (List.length (filter f (pageOrder st)) <= List.length (selection st))%nat).
    { apply NoDup_incl_length; [now apply filter_NoDup|].
      intros i Hi. apply filter_In in Hi as [_ Hi].
      unfold f in Hi. apply set_has_In in Hi. now apply (proj1 (new_Set_In _ _)) in Hi. }
    pose proof (filter_split_length f (pageOrder st)) as Hlen.
    assert (Hge : (List.length (pageOrder st) - List.length (selection st)
                   <= List.length (filter (fun x => negb (f x)) (pageOrder st)))%nat) by lia.
    split; [|split; [exact Hge|split; [reflexivity|]]].
    + intros E. unfold f in Hge. rewrite E in Hge. simpl in Hge. lia.
    + intros i Hi Hin'. apply filter_In in Hin' as [_ Hn].
      assert (T : set_has i (new_Set (selection st)) = true)
        by now apply set_has_In, new_Set_In.
      now rewrite T in Hn.
  - intros Hcan. now rewrite Hcan.
Qed.

Lemma set_delete_In (i x : Z) (s : NumSet) :
  In i (set_delete x s) <-> In i s /\ i <> x.
Proof.
  unfold set_delete. rewrite filter_In, negb_true_iff, Z.eqb_neq. tauto.
Qed.

(** X18. Toggling a page flips its membership in the selection and no
    other; toggling it twice gives a selection with the same pages. *)
Theorem togglePageSelection_flips (st : ProjectState) (index i : Z) :
  (In index (selection (togglePageSelection index st)) <-> ~ In index (selection st))
  /\ (i <> index ->
      (In i (selection (togglePageSelection index st)) <-> In i (selection st)))
  /\ (In i (selection (togglePageSelection index (togglePageSelection index st)))
      <-> In i (selection st))
  /\ (NoDup (selection st) -> NoDup (selection (togglePageSelection index st))).
Proof.
  assert (Hone : forall s x j,
             In j (if set_has x s then set_delete x s else set_add x s)
             <-> (if Z.eqb j x then ~ In x s else In j s)).
  { intros s x j. destruct (set_has x s) eqn:E.
    - apply set_has_In in E. rewrite set_delete_In.
      destruct (Z.eqb_spec j x) as [->|N]; tauto.
    - assert (N : ~ In x s) by (intros H; apply set_has_In in H; congruence).
      rewrite set_add_In. destruct (Z.eqb_spec j x) as [->|N']; tauto. }
  unfold togglePageSelection; simpl.
  split; [|split; [|split]].
  - rewrite Hone, Z.eqb_refl. tauto.
  - intros N. rewrite Hone. apply Z.eqb_neq in N. now rewrite N.
  - rewrite Hone. destruct (Z.eqb_spec i index) as [->|N].
    + rewrite Hone, Z.eqb_refl.
      destruct (set_has index (selection st)) eqn:E.
      * apply set_has_In in E. tauto.
      * split; [intros H | intros H; apply set_has_In in H; congruence].
        exfalso. apply H. intros H'. apply set_has_In in H'. congruence.
    + rewrite Hone. apply Z.eqb_neq in N. now rewrite N.
  - intros Hnd. destruct (set_has index (selection st));
      [now apply filter_NoDup | now apply set_add_NoDup].
Qed.

Lemma indices_of_In (A : Type) (l : list A) (i : Z) :
  In i (indices_of l) <-> (0 <= i < Z.of_nat (List.length l))%Z.
Proof.
  unfold indices_of. rewrite in_map_iff. split.
  - intros (k & <- & Hk). apply in_seq in Hk. lia.
  - intros H. exists (Z.to_nat i). split; [lia|]. apply in_seq. lia.
Qed.

Lemma indices_of_NoDup (A : Type) (l : list A) : NoDup (indices_of l).
Proof.
  unfold indices_of. generalize (seq_NoDup (List.length l) 0).
  induction 1 as [|k ks Hk Hks IH]; simpl; constructor; [|exact IH].
  intros Hin. apply in_map_iff in Hin as (j & Ej & Hj).
  apply Nat2Z.inj in Ej. now subst.
Qed.

(** X19. [openFile] always ends with [isLoading] off.  When it reports no
    error the new document is installed with the identity page order, an
    empty selection, no crop draft and the first page (if any) current,
    and the state is consistent; when it reports an error the document in
    the store is left exactly as it was. *)
Theorem openFile_outcome (file : FileUtil.File) (content : Worker.ArrayBuffer)
  (isValidPdf : bool) (meta : string + list PdfPageMeta) (st : ProjectState) :
  let st' := openFile file content isValidPdf meta st in
  isLoading st' = false
  /\ (error st' = None ->
      exists loaded, meta = inr loaded
        /\ FileUtil.file_valid (FileUtil.validatePdfFile file) = true
        /\ isValidPdf = true
        /\ pages st' = loaded /\ pageOrder st' = indices_of loaded
        /\ selection st' = [] /\ cropDraft st' = None
        /\ arrayBuffer st' = Some content
        /\ (forall cur, currentPage st' = Some cur -> cur = 0%Z /\ loaded <> [])
        /\ consistent st')
  /\ (error st' <> None ->
      pages st' = pages st /\ pageOrder st' = pageOrder st
      /\ selection st' = selection st /\ currentPage st' = currentPage st
      /\ cropDraft st' = cropDraft st /\ arrayBuffer st' = arrayBuffer st
      /\ fileName st' = fileName st /\ fileSize st' = fileSize st).
Proof.
  intros st'. unfold st', openFile. cbv zeta.
  destruct (FileUtil.file_valid (FileUtil.validatePdfFile file)) eqn:Ev; simpl.
  2:{ split; [reflexivity|]. split; [discriminate|]. intros _. repeat split. }
  destruct isValidPdf; simpl.
  2:{ split; [reflexivity|]. split; [discriminate|]. intros _. repeat split. }
  destruct meta as [message|loaded]; simpl.
  { split; [reflexivity|]. split; [discriminate|]. intros _. repeat split. }
  split; [reflexivity|]. split; [|intros H; now contradiction H].
  intros _. exists loaded. repeat split; try reflexivity.
  - destruct loaded; simpl in H; [discriminate|]. now injection H as <-.
  - destruct loaded; simpl in H; [discriminate | discriminate].
  - apply indices_of_NoDup.
  - apply Forall_forall. intros i Hi. now apply indices_of_In in Hi.
  - constructor.
  - intros i [].
  - intros cur Hcur. apply indices_of_In.
    destruct loaded; simpl in Hcur; [discriminate|]. injection Hcur as <-.
    simpl. lia.
Qed.

(** The render scale is always set within [0.1, 5] and the
    thumbnail scale within [0.1, 1]; a requested scale inside the interval
    is taken as it is. *)
Theorem scales_are_clamped (scale : Q) (st : ProjectState) :
  ((1 # 10) <= renderScale (setRenderScale scale st) <= 5)%Q
  /\ ((1 # 10) <= thumbnailScale (setThumbnailScale scale st) <= 1)%Q
  /\ (((1 # 10) <= scale <= 5)%Q -> (renderScale (setRenderScale scale st) == scale)%Q)
  /\ (((1 # 10) <= scale <= 1)%Q -> (thumbnailScale (setThumbnailScale scale st) == scale)%Q).
Proof.
  unfold setRenderScale, setThumbnailScale; simpl.
  split; [|split; [|split]].
  - split; [apply Q.le_max_l|]. apply Q.max_lub; [discriminate | apply Q.le_min_l].
  - split; [apply Q.le_max_l|]. apply Q.max_lub; [discriminate | apply Q.le_min_l].
  - intros [H1 H2]. rewrite Q.min_r by exact H2. now apply Q.max_r.
  - intros [H1 H2]. rewrite Q.min_r by exact H2. now apply Q.max_r.
Qed.

End StoreFacts.

(* ================================================================== *)
(** * Moving thumbnails and splitting *)
(* ================================================================== *)

Section ReorderFacts.
Import Range ThumbnailList SplitModal.

Lemma firstn_exact (A : Type) (a r : list A) : firstn (List.length a) (a ++ r) = a.
Proof. induction a as [|x a IH]; simpl; [now destruct r | now rewrite IH]. Qed.

Lemma skipn_exact (A : Type) (a r : list A) : skipn (List.length a) (a ++ r) = r.
Proof. induction a as [|x a IH]; simpl; [reflexivity | exact IH]. Qed.

Lemma splice_remove_at (A : Type) (a b : list A) (x : A) :
  splice_remove (List.length a) (a ++ x :: b) = a ++ b.
Proof.
  unfold splice_remove. rewrite firstn_exact. f_equal.
  change (S (List.length a)) with (1 + List.length a)%nat.
  rewrite <- skipn_skipn, skipn_exact. reflexivity.
Qed.

Lemma splice_insert_at (A : Type) (a b : list A) (x : A) :
  splice_insert (List.length a) x (a ++ b) = a ++ x :: b.
Proof. unfold splice_insert. now rewrite firstn_exact, skipn_exact. Qed.

(** X20. Moving the thumbnail at a position of the page order to another
    position rearranges the order without losing or duplicating a page,
    puts the moved page at the target position, and is undone by moving it
    back; a drag position outside the order does not give a page order. *)
Theorem moveItem_rearranges (pageOrder : list Z) (dragIndex hoverIndex : nat) :
  (dragIndex < List.length pageOrder)%nat ->
  (hoverIndex < List.length pageOrder)%nat ->
  exists newOrder,
    moveItem pageOrder dragIndex hoverIndex = Some newOrder
    /\ Permutation pageOrder newOrder
    /\ List.length newOrder = List.length pageOrder
    /\ (NoDup pageOrder -> NoDup newOrder)
    /\ nth_error newOrder hoverIndex = nth_error pageOrder dragIndex
    /\ moveItem newOrder hoverIndex dragIndex = Some pageOrder
    /\ moveItem pageOrder (List.length pageOrder) hoverIndex = None.
Proof.
  intros Hi Hj.
  destruct (nth_error pageOrder dragIndex) as [x|] eqn:Ex;
    [|apply nth_error_None in Ex; lia].
  destruct (nth_error_split _ _ Ex) as (a & b & -> & Ha). subst dragIndex.
  rewrite length_app in Hj. simpl in Hj.
  unfold moveItem at 1. rewrite Ex, splice_remove_at.
  set (c := firstn hoverIndex (a ++ b)). set (d := skipn hoverIndex (a ++ b)).
  assert (Ecd : c ++ d = a ++ b) by apply firstn_skipn.
  assert (Hc : List.length c = hoverIndex).
  { unfold c. rewrite length_firstn, length_app. lia. }
  assert (HP : Permutation (a ++ x :: b) (c ++ x :: d)).
  { rewrite <- !Permutation_middle. apply perm_skip. now rewrite Ecd. }
  exists (c ++ x :: d). unfold splice_insert. fold c d.
  split; [reflexivity|]. split; [exact HP|].
  split; [symmetry; exact (Permutation_length HP)|].
  split; [intros Hnd; exact (Permutation_NoDup HP Hnd)|].
  assert (En : nth_error (c ++ x :: d) hoverIndex = Some x).
  { rewrite nth_error_app2 by lia. rewrite Hc, Nat.sub_diag. reflexivity. }
  split; [exact En|]. split.
  - unfold moveItem. rewrite En. rewrite <- Hc at 1. rewrite splice_remove_at, Ecd.
    now rewrite splice_insert_at.
  - unfold moveItem.
    assert (E : nth_error (a ++ x :: b) (List.length (a ++ x :: b)) = None)
      by (apply nth_error_None; lia).
    now rewrite E.
Qed.

Lemma seq_from (n m : nat) : seq n m = map (Nat.add n) (seq 0 m).
Proof.
  induction n as [|n IH]; simpl.
  - symmetry. apply map_id.
  - rewrite <- seq_shift, IH, map_map. reflexivity.
Qed.

Lemma each_loop_runs (splitSize count : Z) :
  1 <= splitSize ->
  forall (fuel : nat) (i : Z) (ranges : list (Z * Z)),
    0 <= i -> (Z.to_nat (count - i) <= fuel)%nat ->
    exists more,
      each_loop fuel i splitSize count ranges = Some (ranges ++ more)
      /\ expand more = loop_range (i + 1) count
      /\ Forall (fun r => i + 1 <= fst r /\ fst r <= snd r /\ snd r <= count
                          /\ snd r - fst r + 1 <= splitSize) more.
Proof.
  intros Hs. induction fuel as [|fuel IH]; intros i ranges Hi Hf.
  - simpl. destruct (Z.ltb_spec i count) as [Hlt|Hge]; [lia|].
    exists []. rewrite app_nil_r. split; [reflexivity|]. split; [|constructor].
    unfold loop_range. replace (Z.to_nat (count - (i + 1) + 1)) with 0%nat by lia.
    reflexivity.
  - simpl. destruct (Z.ltb_spec i count) as [Hlt|Hge].
    + destruct (IH (i + splitSize) (ranges ++ [(i + 1, Z.min (i + splitSize) count)]))
        as (more & E & Hex & Hall); [lia | lia |].
      exists ((i + 1, Z.min (i + splitSize) count) :: more).
      split; [rewrite E; now rewrite <- app_assoc|]. split.
      * unfold expand in *. simpl. rewrite Hex. unfold loop_range.
        destruct (Z.min_spec (i + splitSize) count) as [[Hm ->]|[Hm ->]].
        -- replace (Z.to_nat (count - (i + 1) + 1))
             with (Z.to_nat (i + splitSize - (i + 1) + 1)
                   + Z.to_nat (count - (i + splitSize + 1) + 1))%nat by lia.
           rewrite seq_app, map_app. f_equal. simpl.
           rewrite (seq_from (Z.to_nat (i + splitSize - (i + 1) + 1))), map_map.
           apply map_ext. intros; lia.
        -- replace (Z.to_nat (count - (i + splitSize + 1) + 1)) with 0%nat by lia.
           simpl. now rewrite app_nil_r.
      * constructor; [simpl; lia|].
        eapply Forall_impl; [|exact Hall]. intros r Hr; simpl in *; lia.
    + exists []. rewrite app_nil_r. split; [reflexivity|]. split; [|constructor].
      unfold loop_range. replace (Z.to_nat (count - (i + 1) + 1)) with 0%nat by lia.
      reflexivity.
Qed.

Lemma each_loop_diverges (splitSize count : Z) :
  splitSize <= 0 -> 
  forall (fuel : nat) (i : Z) (ranges : list (Z * Z)),
    i < count -> i <= 0 -> 0 < count ->
    each_loop fuel i splitSize count ranges = None.
Proof.
  intros Hs. induction fuel as [|fuel IH]; intros i ranges Hlt Hi Hc; simpl;
    destruct (Z.ltb_spec i count); try lia; [reflexivity|].
  apply IH; lia.
Qed.


Lemma last_In (l : list Z) (d : Z) : l <> [] -> In (last l d) l.
Proof.
  induction l as [|x l IH]; intros Hne; [contradiction|].
  destruct l as [|y l]; [now left|]. right. apply IH. discriminate.
Qed.

Lemma sorted_last_max (l : list Z) (d : Z) :
  StronglySorted Z.lt l -> forall p, In p l -> p <= last l d.
Proof.
  induction 1 as [|x l Hs IH Hx]; intros p Hp; [destruct Hp|].
  destruct l as [|y l]; [destruct Hp as [->|[]]; simpl; lia|].
  change (last (x :: y :: l) d) with (last (y :: l) d).
  destruct Hp as [->|Hp]; [|now apply IH].
  rewrite Forall_forall in Hx.
  assert (Hy : In (last (y :: l) d) (y :: l)) by (apply last_In; discriminate).
  specialize (Hx _ Hy). lia.
Qed.

Lemma span_spec (pages1Based : list Z) (count : Z) (r : Z * Z) :
  StronglySorted Z.lt pages1Based ->
  Forall (fun p => 1 <= p <= count) pages1Based ->
  In r (span pages1Based) ->
  1 <= fst r /\ fst r <= snd r /\ snd r <= count
  /\ In (fst r) pages1Based /\ In (snd r) pages1Based
  /\ (forall p, In p pages1Based -> fst r <= p <= snd r).
Proof.
  intros Hs Hr Hin. destruct pages1Based as [|first rest]; [destruct Hin|].
  change (In r [(first, last (first :: rest) first)]) in Hin.
  assert (Hl : In (last (first :: rest) first) (first :: rest))
    by (apply last_In; discriminate).
  assert (Hmax := sorted_last_max (first :: rest) first Hs).
  remember (last (first :: rest) first) as greatest eqn:Eg. clear Eg.
  destruct Hin as [<-|[]]. cbn [fst snd].
  rewrite Forall_forall in Hr.
  assert (Hmin : forall p, In p (first :: rest) -> first <= p).
  { intros p [->|Hp]; [lia|]. inversion Hs as [|? ? _ Hx]; subst.
    rewrite Forall_forall in Hx. specialize (Hx _ Hp). lia. }
  pose proof (Hr _ Hl) as R1. pose proof (Hr first (or_introl eq_refl)) as R2.
  pose proof (Hmax first (or_introl eq_refl)) as R3.
  split; [lia|]. split; [lia|]. split; [lia|].
  split; [now left|]. split; [exact Hl|].
  intros p Hp. split; [now apply Hmin | now apply Hmax].
Qed.

(** X22. The single-range and preset modes split along the span of each
    expression: every range produced runs from the least to the greatest
    page of an expression, lies within 1 to [count], and contains all the
    pages of that expression; an expression without pages produces no
    range. *)
Theorem split_ranges_span (pageRange : string) (presets : list string) (count : Z) :
  (parsePageExpr pageRange count = [] -> rangeRanges pageRange count = [])
  /\ (forall r, In r (rangeRanges pageRange count) ->
        1 <= fst r /\ fst r <= snd r /\ snd r <= count
        /\ In (fst r) (parsePageExpr pageRange count)
        /\ In (snd r) (parsePageExpr pageRange count)
        /\ (forall p, In p (parsePageExpr pageRange count) -> fst r <= p <= snd r))
  /\ (forall r, In r (presetRanges presets count) ->
        exists preset,
          In preset presets
          /\ 1 <= fst r /\ fst r <= snd r /\ snd r <= count
          /\ In (fst r) (parsePageExpr preset count)
          /\ In (snd r) (parsePageExpr preset count)
          /\ (forall p, In p (parsePageExpr preset count) -> fst r <= p <= snd r)).
Proof.
  split; [|split].
  - unfold rangeRanges. now intros ->.
  - intros r Hin. destruct (parsePageExpr_strict pageRange count) as [Hs Hr].
    exact (span_spec _ count r Hs Hr Hin).
  - unfold presetRanges.
    assert (H : forall acc r,
               In r (fold_left (fun presetComputed range =>
                                  presetComputed ++ span (parsePageExpr range count))
                               presets acc) ->
               In r acc \/ exists preset, In preset presets
                                          /\ In r (span (parsePageExpr preset count))).
    { induction presets as [|q qs IH]; intros acc r Hin; simpl in Hin; [now left|].
      apply IH in Hin as [Hin|(preset & Hp & Hr)].
      - apply in_app_or in Hin as [Hin|Hin]; [now left|]. right. exists q. split; [now left | exact Hin].
      - right. exists preset. split; [now right | exact Hr]. }
    intros r Hin. apply H in Hin as [[]|(preset & Hp & Hr)].
    exists preset. split; [exact Hp|].
    destruct (parsePageExpr_strict preset count) as [Hs Hrange].
    exact (span_spec _ count r Hs Hrange Hr).
Qed.

End ReorderFacts.

(* ================================================================== *)
(** * Further properties of the crop editor *)
(* ================================================================== *)

Section CropMore.
Import Coords.
Local Open Scope Q_scope.


(** X24. A drag whose normalized rectangle is at least 10 pixels wide and
    high commits, on mouse-up, the draft for the current page with the
    converted rectangle, replacing any earlier draft, and ends the drag;
    mouse-up outside a drag and mouse-down before the viewport exists
    change nothing. *)
Theorem large_drag_commits
  (env : CanvasViewer.Env) (st : CanvasViewer.State) (rect : CanvasRect)
  (pg : PdfPageMeta) (vp : ViewportInfo) (box : Q * Q) (cur : Z) :
  CanvasViewer.canvas env = Some box ->
  CanvasViewer.viewport env = Some vp ->
  CanvasViewer.page env = Some pg ->
  CanvasViewer.currentPage env = Some cur ->
  10 <= cr_w (normalizeRect rect) -> 10 <= cr_h (normalizeRect rect) ->
  (forall down moves,
      CanvasViewer.dragRect
        (fold_left (CanvasViewer.handleMouseMove env) moves
           (CanvasViewer.handleMouseDown env st down)) = Some rect ->
      CanvasViewer.drag env st down moves
      = CanvasViewer.mkState false None None
          (Some (mkCropDraft cur (canvasRectToPdfRect (normalizeRect rect) pg vp))))
  /\ (CanvasViewer.isDragging st = false -> CanvasViewer.handleMouseUp env st = st)
  /\ (forall env' down,
        CanvasViewer.viewport env' = None ->
        CanvasViewer.handleMouseDown env' st down = st).
Proof.
  intros Hcanvas Hvp Hpg Hcur Hw Hh. split; [|split].
  - intros down moves Hrect.
    assert (Hinv : forall ms s,
               CanvasViewer.isDragging s = true ->
               CanvasViewer.isDragging
                 (fold_left (CanvasViewer.handleMouseMove env) ms s) = true).
    { induction ms as [|m ms IH]; intros s Hd; simpl; [exact Hd|].
      apply IH. unfold CanvasViewer.handleMouseMove. rewrite Hd; simpl.
      destruct (CanvasViewer.dragStart s) as [[sx sy]|]; try assumption.
      rewrite Hcanvas. destruct box. reflexivity. }
    unfold CanvasViewer.drag, CanvasViewer.handleMouseUp.
    rewrite Hinv, Hrect, Hpg, Hvp, Hcur.
    + simpl.
      assert (E1 : Qltb (cr_w (normalizeRect rect)) 10 = false) by now apply Qltb_ge.
      assert (E2 : Qltb (cr_h (normalizeRect rect)) 10 = false) by now apply Qltb_ge.
      simpl in E1, E2. rewrite E1, E2. reflexivity.
    + unfold CanvasViewer.handleMouseDown. rewrite Hcanvas, Hvp. destruct box. reflexivity.
  - intros Hd. unfold CanvasViewer.handleMouseUp. now rewrite Hd.
  - intros env' down Hv. unfold CanvasViewer.handleMouseDown. rewrite Hv.
    destruct (CanvasViewer.canvas env') as [[? ?]|]; reflexivity.
Qed.

End CropMore.

(* ================================================================== *)
(** * The crop of an exported bitmap *)
(* ================================================================== *)

Section ExportFacts.
Import Coords ExportModal.

Lemma clamp_floor (value : Q) (lo hi : Z) :
  (lo <= hi)%Z ->
  (lo <= Qfloor (clamp value (inject_Z lo) (inject_Z hi)) <= hi)%Z.
Proof.
  intros H. unfold clamp.
  assert (Hq : (inject_Z lo <= inject_Z hi)%Q) by (rewrite <- Zle_Qle; exact H).
  split.
  - rewrite <- (Qfloor_Z lo) at 1. apply Qfloor_resp_le. apply Q.le_max_l.
  - rewrite <- (Qfloor_Z hi) at 2. apply Qfloor_resp_le.
    apply Q.max_lub; [exact Hq | apply Q.le_min_l].
Qed.

(** X25. The region of the bitmap that the export draws always lies
    inside the bitmap and is at least one pixel wide and high, whatever
    the crop draft; without hard crop, or for another page, it is the
    whole bitmap. *)
Theorem cropSource_inside_bitmap (hardCrop : bool) (cropDraft : option CropDraft)
  (pageIndex : Z) (pageMeta : option PdfPageMeta) (scale : Q)
  (bitmapWidth bitmapHeight : Z) :
  (1 <= bitmapWidth)%Z -> (1 <= bitmapHeight)%Z ->
  let s := cropSource hardCrop cropDraft pageIndex pageMeta scale
             bitmapWidth bitmapHeight in
  (0 <= sourceX s /\ 0 <= sourceY s /\ 1 <= sourceWidth s /\ 1 <= sourceHeight s
   /\ sourceX s + sourceWidth s <= bitmapWidth
   /\ sourceY s + sourceHeight s <= bitmapHeight)%Z
  /\ (hardCrop = false -> s = mkSource 0 0 bitmapWidth bitmapHeight)
  /\ (forall draft, cropDraft = Some draft -> cd_page draft <> pageIndex ->
                    s = mkSource 0 0 bitmapWidth bitmapHeight).
Proof.
  intros Hw Hh s.
  assert (Hwhole : (0 <= 0 /\ 0 <= 0 /\ 1 <= bitmapWidth /\ 1 <= bitmapHeight
                    /\ 0 + bitmapWidth <= bitmapWidth
                    /\ 0 + bitmapHeight <= bitmapHeight)%Z) by lia.
  split; [|split].
  - unfold s, cropSource.
    destruct cropDraft as [draft|]; [|exact Hwhole].
    destruct pageMeta as [meta|]; [|exact Hwhole].
    destruct (hardCrop && (cd_page draft =? pageIndex)%Z); [|exact Hwhole].
    cbv zeta.
    set (c := pdfRectToCanvasRect (cd_rect draft) meta
                (mkViewportInfo (inject_Z bitmapWidth) (inject_Z bitmapHeight) scale 0 0)).
    pose proof (clamp_floor (cr_x c) 0 bitmapWidth ltac:(lia)) as Hx.
    pose proof (clamp_floor (cr_y c) 0 bitmapHeight ltac:(lia)) as Hy.
    change (inject_Z 0) with 0%Q in Hx, Hy.
    set (cropX := Qfloor (clamp (cr_x c) 0 (inject_Z bitmapWidth))) in *.
    set (cropY := Qfloor (clamp (cr_y c) 0 (inject_Z bitmapHeight))) in *.
    destruct (Z.ltb_spec 1 (bitmapWidth - cropX)) as [Rw|Rw]; [|exact Hwhole].
    destruct (Z.ltb_spec 1 (bitmapHeight - cropY)) as [Rh|Rh]; [|exact Hwhole].
    cbn [andb].
    pose proof (clamp_floor (cr_w c) 1 (bitmapWidth - cropX) ltac:(lia)) as Hcw.
    pose proof (clamp_floor (cr_h c) 1 (bitmapHeight - cropY) ltac:(lia)) as Hch.
    change (inject_Z 1) with 1%Q in Hcw, Hch.
    set (cropW := Qfloor (clamp (cr_w c) 1 (inject_Z (bitmapWidth - cropX)))) in *.
    set (cropH := Qfloor (clamp (cr_h c) 1 (inject_Z (bitmapHeight - cropY)))) in *.
    destruct ((0 <? cropW)%Z && (0 <? cropH)%Z); [|exact Hwhole].
    simpl. lia.
  - intros ->. unfold s, cropSource.
    destruct cropDraft; [destruct pageMeta|]; reflexivity.
  - intros draft -> Hne. unfold s, cropSource.
    destruct pageMeta; [|reflexivity].
    apply Z.eqb_neq in Hne. rewrite Hne, andb_false_r. reflexivity.
Qed.

End ExportFacts.

(* ================================================================== *)
(** * Further properties of the worker coordinator *)
(* ================================================================== *)

Section WorkerMore.
Import Coords Range Worker WorkerLog ExportModal.

Variable Bitmap : Type.
Variables main wk : Engine Bitmap.

Lemma sendMessage_ids (tr : Transport) (st : WorkerManager) (msg : WorkerMessage)
  (timeout : Z) :
  let '(_, st', evs) := sendMessage wk tr st msg timeout in
  (messageId st <= messageId st')%nat
  /\ workerFailed st' = workerFailed st
  /\ workerSupported st' = workerSupported st
  /\ (posted_ids evs = [] \/ (posted_ids evs = [S (messageId st)]
                              /\ messageId st' = S (messageId st))).
Proof.
  unfold sendMessage.
  destruct (negb (workerSupported st) || workerFailed st); [simpl; auto|].
  destruct (negb (worker st) && negb (creates tr)); [simpl; auto|].
  assert (E : posted_ids
                ((if worker st then [] else [EvNewWorker])
                 ++ [EvPostMessage (S (messageId st)) timeout])
              = [S (messageId st)])
    by (destruct (worker st); reflexivity).
  destruct (delivery tr); try (simpl; rewrite E; auto 6).
  destruct (onmessage wk msg) as [d|[]]; simpl; rewrite E; auto 6.
Qed.

Lemma call_ids (st : WorkerManager) (c : Request * Transport) :
  let '(_, st', evs) := call main wk st c in
  (messageId st <= messageId st')%nat
  /\ Forall (fun id => (messageId st < id <= messageId st')%nat) (posted_ids evs)
  /\ StronglySorted lt (posted_ids evs).
Proof.
  destruct c as [r tr].
  assert (Hlocal : forall ev,
             touches_worker ev = false ->
             (messageId st <= messageId st)%nat
             /\ Forall (fun id => (messageId st < id <= messageId st)%nat)
                  (posted_ids [ev])
             /\ StronglySorted lt (posted_ids [ev])).
  { intros ev Hev. destruct ev; try discriminate; repeat constructor. }
  assert (Hfb : forall msg timeout local ev,
             touches_worker ev = false ->
             let '(_, st', evs) :=
               with_fallback (sendMessage wk tr st msg timeout) local ev in
             (messageId st <= messageId st')%nat
             /\ Forall (fun id => (messageId st < id <= messageId st')%nat)
                  (posted_ids evs)
             /\ StronglySorted lt (posted_ids evs)).
  { intros msg timeout local ev Hev.
    pose proof (sendMessage_ids tr st msg timeout) as H.
    destruct (sendMessage wk tr st msg timeout) as [[[d|e] st1] evs1];
      destruct H as (H1 & _ & _ & H2); cbn [with_fallback].
    - split; [exact H1|]. destruct H2 as [->|[-> E]].
      + split; constructor.
      + split; [repeat constructor; lia | repeat constructor].
    - cbn [messageId set_workerFailed].
      split; [exact H1|]. unfold posted_ids in *. rewrite flat_map_app.
      assert (En : flat_map
                     (fun ev0 => match ev0 with EvPostMessage id _ => [id] | _ => [] end)
                     [ev] = []) by (destruct ev; try discriminate; reflexivity).
      rewrite En, app_nil_r. destruct H2 as [->|[-> E]].
      + split; constructor.
      + split; [repeat constructor; lia | repeat constructor]. }
  destruct r as [b p s f | b tasks | b]; cbn [call].
  - unfold renderPage. destruct (negb (workerSupported st) || workerFailed st).
    + apply Hlocal. reflexivity.
    + apply Hfb. reflexivity.
  - unfold exportPages.
    destruct (existsb (fun task => is_svg (task_format task)) tasks);
      [apply Hlocal; reflexivity|].
    destruct (negb (workerSupported st) || workerFailed st).
    + apply Hlocal. reflexivity.
    + apply Hfb. reflexivity.
  - unfold loadDocument. destruct (negb (workerSupported st) || workerFailed st).
    + apply Hlocal. reflexivity.
    + apply Hfb. reflexivity.
Qed.

Lemma sorted_app_lt (l1 l2 : list nat) (m : nat) :
  StronglySorted lt l1 -> StronglySorted lt l2 ->
  Forall (fun id => (id <= m)%nat) l1 -> Forall (fun id => (m < id)%nat) l2 ->
  StronglySorted lt (l1 ++ l2).
Proof.
  intros H1 H2 F1 F2. induction H1 as [|x l1 Hs IH Hx]; simpl; [exact H2|].
  inversion F1 as [|? ? Fx F1']; subst.
  constructor; [now apply IH|]. apply Forall_app. split; [exact Hx|].
  eapply Forall_impl; [|exact F2]. intros; simpl in *; lia.
Qed.

(** X26. Over any sequence of calls the ids of the posted messages are
    strictly increasing, so no two messages of a coordinator share an id,
    and all of them are greater than the id counter before the calls. *)
Theorem message_ids_increase (st : WorkerManager) (calls : list (Request * Transport)) :
  let '(_, st', evs) := run main wk st calls in
  StronglySorted lt (posted_ids evs)
  /\ NoDup (posted_ids evs)
  /\ Forall (fun id => (messageId st < id <= messageId st')%nat) (posted_ids evs)
  /\ (messageId st <= messageId st')%nat.
Proof.
  revert st. induction calls as [|c rest IH]; intros st; simpl.
  - repeat constructor.
  - pose proof (call_ids st c) as Hc.
    destruct (call main wk st c) as [[r st1] evs1].
    specialize (IH st1). destruct (run main wk st1 rest) as [[rs st2] evs2].
    destruct Hc as (C1 & C2 & C3). destruct IH as (I1 & _ & I3 & I4).
    assert (Hs : StronglySorted lt (posted_ids (evs1 ++ evs2))).
    { unfold posted_ids in *. rewrite flat_map_app.
      apply (sorted_app_lt _ _ (messageId st1)); try assumption.
      - eapply Forall_impl; [|exact C2]. intros; simpl in *; lia.
      - eapply Forall_impl; [|exact I3]. intros; simpl in *; lia. }
    split; [exact Hs|]. split.
    + clear - Hs. induction Hs as [|x l Hs' IHs Hx]; constructor; [|exact IHs].
      intros Hin. rewrite Forall_forall in Hx. specialize (Hx _ Hin). lia.
    + split; [|lia]. unfold posted_ids in *. rewrite flat_map_app.
      apply Forall_app. split.
      * eapply Forall_impl; [|exact C2]. intros; simpl in *; lia.
      * eapply Forall_impl; [|exact I3]. intros; simpl in *; lia.
Qed.

(** X27. While the worker is supported and has not failed, a request
    that needs no DOM and whose message is answered with success is served
    by the worker alone: the result is the worker's answer, nothing runs in
    the foreground, no pending entry is left and the coordinator stays
    healthy. *)
Theorem healthy_worker_serves (st : WorkerManager) (r : Request) (tr : Transport)
  (data : Data Bitmap) :
  degraded st = false ->
  uses_worker r = true ->
  (worker st = true \/ creates tr = true) ->
  delivery tr = Replies ->
  onmessage wk (fst (message_of r)) = Ok data ->
  let '(result, st', evs) := call main wk st (r, tr) in
  result = Ok data
  /\ degraded st' = false
  /\ forallb touches_worker evs = true
  /\ posted_ids evs = [S (messageId st)]
  /\ worker st' = true
  /\ (~ In (S (messageId st)) (pendingMessages st) ->
      pendingMessages st' = pendingMessages st).
Proof.
  intros Hd Hu Hw Hdel Hmsg.
  assert (Hsend : forall msg timeout,
             onmessage wk msg = Ok data ->
             sendMessage wk tr st msg timeout
             = (Ok data,
                delete_pending (S (messageId st))
                  (mkWorkerManager true (S (messageId st))
                     (S (messageId st) :: pendingMessages st)
                     (workerSupported st) (workerFailed st)),
                (if worker st then [] else [EvNewWorker])
                ++ [EvPostMessage (S (messageId st)) timeout])).
  { intros msg timeout Hm. unfold sendMessage. unfold degraded in Hd. rewrite Hd.
    assert (Hc : negb (worker st) && negb (creates tr) = false)
      by (destruct Hw as [-> | ->]; [reflexivity | apply andb_false_r]).
    rewrite Hc, Hdel, Hm. reflexivity. }
  assert (Hpost : forall msg timeout local ev,
             onmessage wk msg = Ok data ->
             let '(result, st', evs) :=
               with_fallback (sendMessage wk tr st msg timeout) local ev in
             result = Ok data
             /\ degraded st' = false
             /\ forallb touches_worker evs = true
             /\ posted_ids evs = [S (messageId st)]
             /\ worker st' = true
             /\ (~ In (S (messageId st)) (pendingMessages st) ->
                 pendingMessages st' = pendingMessages st)).
  { intros msg timeout local ev Hm. rewrite (Hsend msg timeout Hm). simpl.
    split; [reflexivity|]. split; [exact Hd|].
    split; [destruct (worker st); reflexivity|].
    split; [destruct (worker st); reflexivity|].
    split; [reflexivity|].
    intros Hnot. rewrite Nat.eqb_refl. simpl.
    clear - Hnot. induction (pendingMessages st) as [|k ks IH]; simpl; [reflexivity|].
    destruct (Nat.eqb_spec k (S (messageId st))) as [->|N]; simpl.
    - exfalso. apply Hnot. now left.
    - f_equal. apply IH. intros Hin. apply Hnot. now right. }
  unfold degraded in Hd.
  destruct r as [b p s f | b tasks | b]; simpl in *.
  - unfold renderPage. rewrite Hd. now apply Hpost.
  - unfold exportPages. apply negb_true_iff in Hu. rewrite Hu, Hd. now apply Hpost.
  - unfold loadDocument. rewrite Hd. now apply Hpost.
Qed.

(** X28. Called while no request is pending, [cleanup] releases the
    worker, can be repeated without further effect, and leaves the id
    counter and the failure flag alone: a healthy coordinator creates a
    new worker for its next request.  (With requests pending, [cleanup]
    rejects them and their callers then set [workerFailed]; that case is
    not covered.) *)
Theorem cleanup_releases_worker (st : WorkerManager) (r : Request) (tr : Transport) :
  pendingMessages st = [] ->
  cleanup (cleanup st) = cleanup st
  /\ isAvailable (cleanup st) = false
  /\ getPendingTaskCount (cleanup st) = 0%nat
  /\ messageId (cleanup st) = messageId st
  /\ degraded (cleanup st) = degraded st
  /\ (degraded st = false -> uses_worker r = true ->
      exists rest, snd (call main wk (cleanup st) (r, tr)) = EvNewWorker :: rest).
Proof.
  intros _. repeat split.
  intros Hd Hu. unfold degraded in Hd.
  assert (Hsend : forall msg timeout,
             exists rest, snd (sendMessage wk tr (cleanup st) msg timeout)
                          = EvNewWorker :: rest).
  { intros msg timeout. unfold sendMessage. simpl. rewrite Hd. simpl.
    destruct (creates tr); simpl; [|eauto].
    destruct (delivery tr); simpl; eauto.
    destruct (onmessage wk msg) as [d|[]]; simpl; eauto. }
  assert (Hfb : forall msg timeout local ev,
             exists rest,
               snd (with_fallback (sendMessage wk tr (cleanup st) msg timeout) local ev)
               = EvNewWorker :: rest).
  { intros msg timeout local ev. destruct (Hsend msg timeout) as (rest & E).
    destruct (sendMessage wk tr (cleanup st) msg timeout) as [[[d|e] st1] evs1];
      cbn [with_fallback snd] in *; rewrite E.
    - exists rest. reflexivity.
    - exists (rest ++ [ev])%list. reflexivity. }
  destruct r as [b p s f | b tasks | b]; simpl in *.
  - unfold renderPage. simpl. rewrite Hd. apply Hfb.
  - unfold exportPages. simpl. apply negb_true_iff in Hu. rewrite Hu, Hd. apply Hfb.
  - unfold loadDocument. simpl. rewrite Hd. apply Hfb.
Qed.

Lemma exportPages_in_order
  (tr : Transport) (st st' : WorkerManager) (buffer : ArrayBuffer)
  (tasks : list RenderTask) (d : Data Bitmap) (evs : list Event) :
  exportPages main wk tr st buffer tasks = (Ok d, st', evs) ->
  exists results,
    d = Exported results
    /\ (Forall2 (fun task r => render_task wk buffer task = Ok r) tasks results
        \/ Forall2 (fun task r => render_task main buffer task = Ok r) tasks results).
Proof.
  intros H.
  assert (Hlocal : forall d0, exportPagesLocally main buffer tasks = Ok d0 ->
            exists results, d0 = Exported results
              /\ (Forall2 (fun task r => render_task wk buffer task = Ok r) tasks results
                  \/ Forall2 (fun task r => render_task main buffer task = Ok r)
                       tasks results)).
  { intros d0 Hd0.
    destruct (exportPagesLocally_order Bitmap main _ _ _ Hd0) as (rs & -> & HF).
    exists rs. split; [reflexivity | now right]. }
  unfold exportPages in H.
  destruct (existsb (fun task => is_svg (task_format task)) tasks) eqn:Hsvg.
  { injection H as H _ _. exact (Hlocal _ H). }
  destruct (negb (workerSupported st) || workerFailed st) eqn:Hd.
  { injection H as H _ _. exact (Hlocal _ H). }
  unfold with_fallback in H.
  destruct (sendMessage wk tr st (MsgExport (cloneForPdf buffer) tasks) 60000)
    as [[[d1|e] st1] evs1] eqn:Hsend.
  2:{ injection H as H _ _. exact (Hlocal _ H). }
  injection H as -> _ _.
  unfold sendMessage in Hsend. rewrite Hd in Hsend.
  destruct (negb (worker st) && negb (creates tr)); [discriminate|].
  destruct (delivery tr); try discriminate.
  simpl in Hsend. unfold renderMultiplePages in Hsend.
  destruct (renderMultiplePages_loop wk (cloneForPdf buffer) tasks []) as [rs|e] eqn:E;
    simpl in Hsend.
  2:{ destruct e; discriminate. }
  injection Hsend as <- _ _.
  destruct (renderMultiplePages_loop_order Bitmap wk _ _ Hsvg _ _ E) as (new & -> & HF).
  exists new. split; [reflexivity | now left].
Qed.

Lemma Forall2_map_left (A B C : Type) (f : A -> B) (P : B -> C -> Prop)
  (l : list A) (rs : list C) :
  Forall2 P (map f l) rs -> Forall2 (fun a r => P (f a) r) l rs.
Proof.
  revert rs. induction l as [|a l IH]; intros rs H; inversion H; subst;
    constructor; auto.
Qed.

(** X29. A raster export (PNG or JPEG) of the pages of an expression
    returns, when it succeeds, one bitmap per page of the expression in
    ascending page order: the i-th result is the bitmap of the i-th page
    of the expression at the export scale, rendered either all by the
    worker or all in the foreground. *)
Theorem raster_export_follows_expression
  (tr : Transport) (st st' : WorkerManager) (buffer : ArrayBuffer)
  (pageRange : string) (count : Z) (scale : Q) (rasterFormat : Format)
  (quality : option Q) (d : Data Bitmap) (evs : list Event) :
  rasterFormat <> svg ->
  exportPages main wk tr st buffer
    (exportTasks (pages1ToIndices0 (parsePageExpr pageRange count))
       scale rasterFormat quality)
  = (Ok d, st', evs) ->
  exists results,
    d = Exported results
    /\ List.length results = List.length (parsePageExpr pageRange count)
    /\ (Forall2 (fun page1 r =>
                   result_map ImageBitmap (toBitmap wk buffer (page1 - 1) scale) = Ok r)
          (parsePageExpr pageRange count) results
        \/ Forall2 (fun page1 r =>
                      result_map ImageBitmap (toBitmap main buffer (page1 - 1) scale) = Ok r)
             (parsePageExpr pageRange count) results).
Proof.
  intros Hfmt H. apply exportPages_in_order in H as (results & -> & HF).
  exists results. split; [reflexivity|].
  assert (Hsvg : is_svg (Some rasterFormat) = false)
    by (destruct rasterFormat; [reflexivity | reflexivity | contradiction]).
  unfold exportTasks, pages1ToIndices0 in HF. rewrite map_map in HF.
  assert (Hconv : forall E : Engine Bitmap,
             Forall2 (fun task r => render_task E buffer task = Ok r)
               (map (fun p => mkRenderTask ("export_" ++ JsString.toString (p - 1)) export
                                (p - 1) scale (Some rasterFormat) quality)
                    (parsePageExpr pageRange count)) results ->
             Forall2 (fun page1 r =>
                        result_map ImageBitmap (toBitmap E buffer (page1 - 1) scale) = Ok r)
               (parsePageExpr pageRange count) results).
  { intros E HE. apply Forall2_map_left in HE.
    eapply Forall2_impl; [|exact HE]. intros p r Hr.
    unfold render_task, render_as in Hr.
    cbn [task_page task_scale task_format] in Hr. rewrite Hsvg in Hr. exact Hr. }
  split.
  - destruct HF as [HF|HF]; apply Hconv in HF; symmetry; exact (Forall2_length HF).
  - destruct HF as [HF|HF]; [left | right]; now apply Hconv.
Qed.

End WorkerMore.

(* ================================================================== *)
(** * The document cache of the worker *)
(* ================================================================== *)

Section CacheFacts.
Import Worker RenderWorker.

Variable Document : Type.

Lemma to_int32_range (z : Z) : - 2 ^ 31 <= to_int32 z < 2 ^ 31.
Proof.
  unfold to_int32.
  pose proof (Z.mod_pos_bound (z + 2 ^ 31) (2 ^ 32) ltac:(lia)). lia.
Qed.

Lemma cache_get_set (key : string) (doc : Document) (cache : list (string * Document)) :
  cache_get key cache = None -> cache_get key (cache_set key doc cache) = Some doc.
Proof.
  unfold cache_set. induction cache as [|[k d] rest IH]; simpl.
  - now rewrite String.eqb_refl.
  - destruct (String.eqb k key); [discriminate | exact IH].
Qed.

(** X30. The cache key of a buffer depends on its first 1000 bytes only
    and on a 32-bit hash of them.  So once a document has been loaded, any
    buffer with the same first 1000 bytes is served that document from the
    cache: the loader is not called for it and the cache does not
    change. *)
Theorem cache_serves_same_prefix (load : ArrayBuffer -> string + Document)
  (cache : list (string * Document)) (first second : ArrayBuffer) (doc : Document) :
  firstn 1000 first = firstn 1000 second ->
  load first = inr doc ->
  cache_get (hashArrayBuffer first) cache = None ->
  let '(r1, cache1, loads1) := getDocument load cache first in
  r1 = inr doc /\ loads1 = [first]
  /\ getDocument load cache1 second = (inr doc, cache1, [])
  /\ - 2 ^ 31 <= hash_value first < 2 ^ 31.
Proof.
  intros Hprefix Hload Hmiss.
  assert (Hkey : hashArrayBuffer second = hashArrayBuffer first).
  { unfold hashArrayBuffer, hash_value. now rewrite Hprefix. }
  unfold getDocument. rewrite Hmiss, Hload.
  split; [reflexivity|]. split; [reflexivity|]. split.
  - rewrite Hkey, cache_get_set by exact Hmiss. reflexivity.
  - unfold hash_value.
    assert (H : forall l h, - 2 ^ 31 <= h < 2 ^ 31 ->
                            - 2 ^ 31 <= fold_left hash_step l h < 2 ^ 31).
    { induction l as [|b l IH]; intros h Hh; simpl; [exact Hh|].
      apply IH. unfold hash_step. apply to_int32_range. }
    apply H. lia.
Qed.

End CacheFacts.

(* ================================================================== *)
(** * Worked instances *)
(* ================================================================== *)

Section Instances.
Import Coords Worker.
Local Open Scope Q_scope.


Lemma crop_adjust_se_handle :
  crop_bounds screen_viewport
    (CropOverlay.clampToViewport screen_viewport
       (CropOverlay.applyHandle CropOverlay.h_se 5000 (-7000)
          (pdfRectToCanvasRect (mkPdfRect 100 120 80 90) a4_cropped screen_viewport))).
Proof.
  apply (proj2 crop_adjust_bounds overlay_props
           (CropOverlay.handleMouseDown overlay_props (CropOverlay.mkMouseEvent 0 0)
              CropOverlay.h_se)
           (CropOverlay.mkMouseEvent 5000 (-7000))).
  - apply Qle_bool_imp_le; reflexivity.
  - apply Qle_bool_imp_le; reflexivity.
  - reflexivity.
Defined.

(** A drag from (100, 100) to (105, 120): 5 pixels wide, 20 high. *)
Lemma drag_5_by_20_commits_nothing :
  CanvasViewer.drag viewer_env viewer_with_draft
    (CanvasViewer.mkMouseEvent 100 100) [CanvasViewer.mkMouseEvent 105 120]
  = CanvasViewer.mkState false None None None.
Proof.
  apply (small_drag_commits_nothing viewer_env viewer_with_draft
           (mkCanvasRect 100 100 5 20) a4_cropped screen_viewport (0, 0) 0%Z);
    try reflexivity.
  left. reflexivity.
Defined.


Lemma svg_batch_is_local_healthy :
  exportPages demo_main demo_wk healthy (create true) [] [png_task 1; svg_task 2]
  = (exportPagesLocally demo_main [] [png_task 1; svg_task 2], create true,
     [EvLocalExport [png_task 1; svg_task 2]])
  /\ existsb touches_worker
       (snd (exportPages demo_main demo_wk healthy (create true) []
               [png_task 1; svg_task 2])) = false.
Proof.
  apply (export_svg_batch_is_local Z demo_main demo_wk). reflexivity.
Defined.

(** Pages 3, 1, 2 exported by a healthy worker come back in that order. *)
Lemma export_3_1_2_in_order :
  exists results,
    Exported [ImageBitmap 1003%Z; ImageBitmap 1001%Z; ImageBitmap 1002%Z]
    = Exported results
    /\ List.length results = 3%nat
    /\ (Forall2 (fun task r => render_task demo_wk [] task = Ok r)
          [png_task 3; png_task 1; png_task 2] results
        \/ Forall2 (fun task r => render_task demo_main [] task = Ok r)
             [png_task 3; png_task 1; png_task 2] results).
Proof.
  apply (export_results_follow_tasks Z demo_main demo_wk healthy (create true)
           (delete_pending 1 (mkWorkerManager true 1 [1%nat] true false)) []
           [png_task 3; png_task 1; png_task 2]
           (Exported [ImageBitmap 1003%Z; ImageBitmap 1001%Z; ImageBitmap 1002%Z])
           [EvNewWorker; EvPostMessage 1 60000]).
  reflexivity.
Defined.

Lemma roundtrip_1_2_4_5_6_9 :
  Range.parsePageExpr (Range.formatPageRange [1; 2; 4; 5; 6; 9]%Z) 10 = [1; 2; 4; 5; 6; 9]%Z.
Proof.
  apply parse_format_roundtrip.
  - reflexivity.
  - repeat constructor.
  - repeat constructor; lia.
Defined.


End Instances.

(* ================================================================== *)
(** * Further worked instances *)
(* ================================================================== *)

Section MoreInstances.
Import Coords Worker.
Local Open Scope Q_scope.

Lemma validate_format_2_3_7 :
  PageExpr.validatePageExpr (Range.formatPageRange [2; 3; 7]%Z) 9
  = PageExpr.mkValidation true None.
Proof.
  apply validatePageExpr_formatPageRange.
  - reflexivity.
  - discriminate.
  - repeat constructor.
  - repeat constructor; lia.
Defined.



Lemma format_3_1_2_as_1_2_3 :
  Range.formatPageRange [3; 1; 2]%Z = Range.formatPageRange [1; 2; 3]%Z.
Proof.
  apply formatPageRange_order_insensitive.
  apply (Permutation_cons_app [1; 2]%Z [] 3%Z). reflexivity.
Defined.





Lemma delete_pages_3_1_7_of_four :
  PdfEdit.deletePages [10; 20; 30; 40]%Z [3; 1; 7]%Z
  = PdfEdit.without_pages 0 [3; 1; 7]%Z [10; 20; 30; 40]%Z.
Proof.
  apply (deletePages_keeps_the_others Z).
  repeat constructor; simpl; lia.
Defined.


Lemma three_pages_consistent : Store.consistent three_pages.
Proof.
  unfold Store.consistent, three_pages; simpl.
  split; [repeat constructor; simpl; lia|].
  split; [repeat constructor; lia|].
  split; [repeat constructor; simpl; lia|].
  split.
  - intros i [<-|[]]. right. left. reflexivity.
  - intros cur E. injection E as <-. right. left. reflexivity.
Defined.

(** Deleting the selected page, or the first two pages, of three. *)
Lemma delete_from_three_pages :
  Store.consistent (Store.deletePage 1 three_pages)
  /\ Store.consistent (Store.deletePages [0; 1]%Z three_pages).
Proof.
  destruct (delete_keeps_consistency three_pages 1 [0; 1]%Z three_pages_consistent)
    as ((H1 & _) & (H2 & _)).
  split; assumption.
Defined.

Lemma delete_selected_of_three_pages :
  Store.pageOrder (Store.handleDeleteSelected three_pages) <> []
  /\ Store.selection (Store.handleDeleteSelected three_pages) = [].
Proof.
  destruct (handleDeleteSelected_leaves_a_page three_pages) as (Hcan & _).
  - repeat constructor; simpl; lia.
  - repeat constructor; simpl; lia.
  - destruct (Hcan eq_refl) as (H1 & _ & H3 & _). split; assumption.
Defined.

Lemma move_first_of_four_to_third :
  exists newOrder,
    ThumbnailList.moveItem [0; 1; 2; 3]%Z 0 2 = Some newOrder
    /\ Permutation [0; 1; 2; 3]%Z newOrder
    /\ List.length newOrder = List.length [0; 1; 2; 3]%Z
    /\ (NoDup [0; 1; 2; 3]%Z -> NoDup newOrder)
    /\ nth_error newOrder 2 = nth_error [0; 1; 2; 3]%Z 0
    /\ ThumbnailList.moveItem newOrder 2 0 = Some [0; 1; 2; 3]%Z
    /\ ThumbnailList.moveItem [0; 1; 2; 3]%Z (List.length [0; 1; 2; 3]%Z) 2 = None.
Proof.
  apply (moveItem_rearranges [0; 1; 2; 3]%Z 0 2); simpl; lia.
Defined.


(** A drag from (100, 100) to (150, 160): 50 pixels wide, 60 high. *)
Lemma drag_50_by_60_commits :
  CanvasViewer.drag viewer_env viewer_with_draft
    (CanvasViewer.mkMouseEvent 100 100) [CanvasViewer.mkMouseEvent 150 160]
  = CanvasViewer.mkState false None None
      (Some (mkCropDraft 0
               (canvasRectToPdfRect (normalizeRect (mkCanvasRect 100 100 50 60))
                  a4_cropped screen_viewport))).
Proof.
  refine (proj1 (large_drag_commits viewer_env viewer_with_draft
                   (mkCanvasRect 100 100 50 60) a4_cropped screen_viewport (0, 0) 0%Z
                   eq_refl eq_refl eq_refl eq_refl _ _)
            (CanvasViewer.mkMouseEvent 100 100) [CanvasViewer.mkMouseEvent 150 160]
            eq_refl).
  - apply Qle_bool_imp_le; reflexivity.
  - apply Qle_bool_imp_le; reflexivity.
Defined.

(** The crop of the first page of an A4 document exported at scale 2. *)
Lemma crop_source_of_a4_at_scale_2 :
  let s := ExportModal.cropSource true (Some (mkCropDraft 0 (mkPdfRect 100 120 80 90)))
             0 (Some a4_cropped) 2 1190 1684 in
  (0 <= ExportModal.sourceX s /\ 0 <= ExportModal.sourceY s
   /\ 1 <= ExportModal.sourceWidth s /\ 1 <= ExportModal.sourceHeight s
   /\ ExportModal.sourceX s + ExportModal.sourceWidth s <= 1190
   /\ ExportModal.sourceY s + ExportModal.sourceHeight s <= 1684)%Z.
Proof.
  destruct (cropSource_inside_bitmap true (Some (mkCropDraft 0 (mkPdfRect 100 120 80 90)))
              0 (Some a4_cropped) 2 1190 1684) as (Hin & _); [lia | lia | exact Hin].
Defined.

(** A healthy worker renders page 0. *)
Lemma healthy_worker_renders_page_0 :
  let '(result, st', evs) :=
    call demo_main demo_wk (create true) (RenderPage [] 0 1 as_bitmap, healthy) in
  result = Ok (Rendered (ImageBitmap 1000%Z))
  /\ degraded st' = false
  /\ forallb touches_worker evs = true
  /\ WorkerLog.posted_ids evs = [1%nat]
  /\ worker st' = true
  /\ (~ In 1%nat (pendingMessages (create true)) ->
      pendingMessages st' = pendingMessages (create true)).
Proof.
  apply (healthy_worker_serves Z demo_main demo_wk (create true)
           (RenderPage [] 0 1 as_bitmap) healthy (Rendered (ImageBitmap 1000%Z))).
  - reflexivity.
  - reflexivity.
  - right. reflexivity.
  - reflexivity.
  - reflexivity.
Defined.

(** Pages 1 to 3 of five, exported as PNG by a healthy worker. *)
Lemma png_export_of_1_to_3 :
  exists results,
    Exported [ImageBitmap 1000%Z; ImageBitmap 1001%Z; ImageBitmap 1002%Z]
    = Exported results
    /\ List.length results = List.length (Range.parsePageExpr "1-3" 5)
    /\ (Forall2 (fun page1 r =>
                   result_map ImageBitmap (toBitmap demo_wk [] (page1 - 1) 1) = Ok r)
          (Range.parsePageExpr "1-3" 5) results
        \/ Forall2 (fun page1 r =>
                      result_map ImageBitmap (toBitmap demo_main [] (page1 - 1) 1) = Ok r)
             (Range.parsePageExpr "1-3" 5) results).
Proof.
  apply (raster_export_follows_expression Z demo_main demo_wk healthy (create true)
           (delete_pending 1 (mkWorkerManager true 1 [1%nat] true false)) []
           "1-3" 5 1 png None
           (Exported [ImageBitmap 1000%Z; ImageBitmap 1001%Z; ImageBitmap 1002%Z])
           [EvNewWorker; EvPostMessage 1 60000]).
  - discriminate.
  - vm_compute. reflexivity.
Defined.

(** Two buffers that differ only in their last byte, the 1001st. *)
Lemma second_long_buffer_is_served_from_cache :
  let '(r1, cache1, loads1) :=
    RenderWorker.getDocument count_bytes [] (long_buffer Byte.x01) in
  r1 = inr 1001%Z /\ loads1 = [long_buffer Byte.x01]
  /\ RenderWorker.getDocument count_bytes cache1 (long_buffer Byte.x02)
     = (inr 1001%Z, cache1, [])
  /\ (- 2 ^ 31 <= RenderWorker.hash_value (long_buffer Byte.x01) < 2 ^ 31)%Z.
Proof.
  apply (cache_serves_same_prefix Z count_bytes [] (long_buffer Byte.x01)
           (long_buffer Byte.x02) 1001%Z).
  - vm_compute. reflexivity.
  - vm_compute. reflexivity.
  - reflexivity.
Defined.

(** After a healthy render nothing is pending; [cleanup] then releases the
    worker and the next render creates a new one. *)
Lemma cleanup_after_healthy_render :
  let st := delete_pending 1 (mkWorkerManager true 1 [1%nat] true false) in
  isAvailable (cleanup st) = false
  /\ exists rest,
       snd (call demo_main demo_wk (cleanup st) (RenderPage [] 0 1 as_bitmap, healthy))
       = EvNewWorker :: rest.
Proof.
  destruct (cleanup_releases_worker Z demo_main demo_wk
              (delete_pending 1 (mkWorkerManager true 1 [1%nat] true false))
              (RenderPage [] 0 1 as_bitmap) healthy eq_refl)
    as (_ & Ha & _ & _ & _ & Hnext).
  split; [exact Ha|]. apply Hnext; reflexivity.
Defined.

End MoreInstances.
